(* ===================================================================== *)
(* Real-time room relay of the collaborative whiteboard server           *)
(* (backend/socket/socketHandlers.js): authentication of socket          *)
(* connections, room membership, event fan-out and durable side effects. *)
(*                                                                       *)
(* The handlers are embedded as functions in a small state-and-exception *)
(* monad over an explicit server state: the per-connection fields        *)
(* (socket.userId, socket.user, socket.roomCode), the socket.io adapter  *)
(* (room name -> set of socket ids) and the document store; a handler    *)
(* returns, besides the new state, the messages it pushed to clients.    *)
(* Console logging is left out.                                          *)
(*                                                                       *)
(* The async listeners are given twice.  Section 5 has each as what it   *)
(* does from its call to its end when every store call completes at      *)
(* once.  Section 5a cuts the same listeners at their awaits, and        *)
(* section 6a is the event loop that takes arrivals and completed store  *)
(* calls in any order, so that listeners, of one socket too, interleave. *)
(*                                                                       *)
(* The client side is embedded beside it, each component in a module of  *)
(* its own: the socket wrapper (frontend/src/lib/socket.ts), the chat    *)
(* panel of RoomInterface.tsx, the remote-update listener and the undo   *)
(* history of Whiteboard.tsx, the teardown of VoiceChat.tsx, and the     *)
(* summary route of the backend (routes/ai.routes.js).                   *)
(* ===================================================================== *)

From stdpp Require Import gmap strings list fin_maps pretty.

#[local] Set Warnings "-clear-no-such-hyp".

Local Open Scope string_scope.
Local Open Scope list_scope.

(* --------------------------------------------------------------------- *)
(* 1. Data                                                               *)
(* --------------------------------------------------------------------- *)

(** Primitive JSON values carried opaquely in event payloads. *)
Inductive JsVal :=
  | VUndef
  | VNull
  | VBool (b : bool)
  | VNum (n : Z)
  | VStr (s : string).

#[global] Instance JsVal_eq_dec : EqDecision JsVal.
Proof. solve_decision. Defined.

(** A flat JS object, as the [data] argument of [drawing-update]. *)
Abbreviation JsObj := (gmap string JsVal).

(** [o.k]: a missing property reads as [undefined]. *)
Definition js_field (o : JsObj) (k : string) : JsVal := default VUndef (o !! k).

(** [socket.user]: the identity document without password and refresh
    token ([.select('-password -refreshToken')]). *)
Record UserDoc := {
  user__id : string;
  user_username : string;
  user_avatar : option string
}.

#[global] Instance UserDoc_eq_dec : EqDecision UserDoc.
Proof. solve_decision. Defined.

(** Modelled from the spec: the Room document of models/room: a durable
    reference [_id], the room code [roomId] and the set of authorized
    participant identities. *)
Record RoomDoc := {
  room__id : nat;
  room_roomId : string;
  room_participants : list string
}.

(** Modelled from the spec: the Board document of models/board: the
    snapshot of a room's canvas, opaque to the relay, and the identity the
    last reset is attributed to. *)
Record BoardDoc := {
  board_roomId : nat;
  board_elements : list JsObj;
  board_lastModifiedBy : option string
}.

(** Modelled from the spec: the ChatMessage row of models/chat: room
    reference, sender identity, text body and creation timestamp; the
    server-assigned identifier is the key under which it is stored. *)
Record ChatDoc := {
  chat_roomId : nat;
  chat_sender : string;
  chat_message : string;
  chat_createdAt : nat
}.

#[global] Instance ChatDoc_eq_dec : EqDecision ChatDoc.
Proof. solve_decision. Defined.

(** The sender sub-document after [.populate('sender', 'username avatar')]. *)
Record SenderView := {
  sender__id : string;
  sender_username : string;
  sender_avatar : option string
}.

#[global] Instance SenderView_eq_dec : EqDecision SenderView.
Proof. solve_decision. Defined.

(** The broadcast form of a chat message:
    [{ _id, roomId, sender: { _id, username, avatar }, message, createdAt }];
    [sender] is null when the referenced user document is gone. *)
Record PopulatedChat := {
  pc__id : nat;
  pc_roomId : nat;
  pc_sender : option SenderView;
  pc_message : string;
  pc_createdAt : nat
}.

#[global] Instance PopulatedChat_eq_dec : EqDecision PopulatedChat.
Proof. solve_decision. Defined.

(** The document store: users by [_id], rooms by room code, boards by the
    room reference, chat rows by their identifier, and the store's clock. *)
Record Db := {
  db_users : gmap string UserDoc;
  db_rooms : gmap string RoomDoc;
  db_boards : gmap nat BoardDoc;
  db_chats : gmap nat ChatDoc;
  db_clock : nat
}.

(** Payloads of the server-to-client events. *)
Inductive Payload :=
  | PError (msg : string)
  | PUserJoined (userId username : string) (avatar : option string)
  | PUserLeft (userId username : string)
  | PDrawing (data : JsObj)
  | PChat (m : PopulatedChat)
  | PVoiceToggle (userId username : string) (isEnabled : JsVal)
  | PVoiceReady (userId username : string)
  | POffer (userId : string) (offer : JsVal)
  | PAnswer (userId : string) (answer : JsVal)
  | PIceCandidate (userId : string) (candidate : JsVal).

#[global] Instance Payload_eq_dec : EqDecision Payload.
Proof. solve_decision. Defined.

(** One message pushed to one connected client. *)
Record Delivery := {
  dl_dest : nat;
  dl_event : string;
  dl_payload : Payload
}.

#[global] Instance Delivery_eq_dec : EqDecision Delivery.
Proof. solve_decision. Defined.

(** The ambient per-connection fields of a socket. *)
Record Socket := {
  sock_userId : string;
  sock_user : UserDoc;
  sock_roomCode : option string
}.

(** The server: connected sockets by socket id, the adapter's rooms, the
    store, and the outcome of the coming store calls ([true]: the call
    throws; an exhausted schedule means no further failure). *)
Record World := {
  sockets : gmap nat Socket;
  adapter : gmap string (gset nat);
  db : Db;
  faults : list bool
}.

Definition set_sockets (f : gmap nat Socket → gmap nat Socket) (w : World) : World :=
  {| sockets := f (sockets w); adapter := adapter w; db := db w;
     faults := faults w |}.

Definition set_adapter (f : gmap string (gset nat) → gmap string (gset nat)) (w : World) : World :=
  {| sockets := sockets w; adapter := f (adapter w); db := db w;
     faults := faults w |}.

Definition set_db (d : Db) (w : World) : World :=
  {| sockets := sockets w; adapter := adapter w; db := d;
     faults := faults w |}.

Definition set_faults (fs : list bool) (w : World) : World :=
  {| sockets := sockets w; adapter := adapter w; db := db w;
     faults := fs |}.

(* --------------------------------------------------------------------- *)
(* 2. The handler monad: state with exceptions                           *)
(* --------------------------------------------------------------------- *)

Inductive outcome (A : Type) :=
  | Ok (a : A)
  | Thrown (e : string).
Arguments Ok {A} a.
Arguments Thrown {A} e.

(** A computation maps the server state to its outcome, the new state and
    the messages sent meanwhile, oldest first. *)
Definition M (A : Type) : Type := World → outcome A * World * list Delivery.

Definition ret {A} (a : A) : M A := fun w => (Ok a, w, []).

Definition throw {A} (e : string) : M A := fun w => (Thrown e, w, []).

Definition bind {A B} (m : M A) (k : A → M B) : M B := fun w =>
  match m w with
  | (Ok a, w', ds) => let '(r, w'', ds') := k a w' in (r, w'', ds ++ ds')
  | (Thrown e, w', ds) => (Thrown e, w', ds)
  end.

(** [try { m } catch (error) { h }]: the effects of [m] up to the throw
    stay. *)
Definition try_catch {A} (m : M A) (h : string → M A) : M A := fun w =>
  match m w with
  | (Ok a, w', ds) => (Ok a, w', ds)
  | (Thrown e, w', ds) => let '(r, w'', ds') := h e w' in (r, w'', ds ++ ds')
  end.

#[global] Instance M_ret : MRet M := @ret.
#[global] Instance M_bind : MBind M := fun A B k m => bind m k.

(** The state after, and the messages sent by, a computation. *)
Definition post {A} (m : M A) (w : World) : World := (m w).1.2.
Definition sent {A} (m : M A) (w : World) : list Delivery := (m w).2.
Definition value {A} (m : M A) (w : World) : outcome A := (m w).1.1.

(** Whether the coming store call throws. *)
Definition next_fault (w : World) : bool := default false (head (faults w)).

(** One outcome of the schedule is used up by each store call. *)
Definition consume (w : World) : World := set_faults (tail (faults w)) w.

(** A store call behind [await]: it throws when the schedule says so,
    otherwise it runs on the store. *)
Definition await {A} (op : Db → A * Db) : M A := fun w =>
  if next_fault w then (Thrown "store error", consume w, [])
  else let '(a, d) := op (db w) in (Ok a, set_db d (consume w), []).

(* --------------------------------------------------------------------- *)
(* 3. The transport: socket.io's emit, join and room broadcast           *)
(* --------------------------------------------------------------------- *)

(** The sockets currently in room [rc].  The private room each socket has
    under its own id is left out: room codes are keys of the store, never
    socket ids. *)
Definition members (w : World) (rc : string) : gset nat :=
  default ∅ (adapter w !! rc).

Definition fanout (dests : list nat) (ev : string) (p : Payload) : list Delivery :=
  (fun d => {| dl_dest := d; dl_event := ev; dl_payload := p |}) <$> dests.

(** [socket.emit(ev, p)]: to this socket only. *)
Definition socket_emit (sid : nat) (ev : string) (p : Payload) : M unit := fun w =>
  (Ok tt, w, fanout [sid] ev p).

(** [socket.to(rc).emit(ev, p)]: to every socket in the room except this
    one. *)
Definition socket_to_emit (sid : nat) (rc : string) (ev : string) (p : Payload) : M unit := fun w =>
  (Ok tt, w, fanout (elements (members w rc ∖ {[sid]})) ev p).

(** [io.to(rc).emit(ev, p)]: to every socket in the room. *)
Definition io_to_emit (rc : string) (ev : string) (p : Payload) : M unit := fun w =>
  (Ok tt, w, fanout (elements (members w rc)) ev p).

(** [socket.join(rc)]. *)
Definition socket_join (sid : nat) (rc : string) : M unit := fun w =>
  (Ok tt, set_adapter (fun a => <[rc := {[sid]} ∪ default ∅ (a !! rc)]> a) w, []).

(** [socket.roomCode = rc]. *)
Definition with_roomCode (rc : string) (s : Socket) : Socket :=
  {| sock_userId := sock_userId s; sock_user := sock_user s;
     sock_roomCode := Some rc |}.

Definition set_roomCode (sid : nat) (rc : string) : M unit := fun w =>
  (Ok tt, set_sockets (alter (with_roomCode rc) sid) w, []).

(** JS truthiness of a string-or-undefined field: [!x] holds for
    [undefined] and for the empty string. *)
Definition truthy (x : option string) : bool :=
  match x with
  | None => false
  | Some s => if decide (s = "") then false else true
  end.

(* --------------------------------------------------------------------- *)
(* 4. The store operations the handlers call                             *)
(* --------------------------------------------------------------------- *)

(** [Room.findOne({ roomId: code })]. *)
Definition Room_findOne (code : string) (d : Db) : option RoomDoc * Db :=
  (db_rooms d !! code, d).

(** [Board.findOne({ roomId: id })]. *)
Definition Board_findOne (id : nat) (d : Db) : option BoardDoc * Db :=
  (db_boards d !! id, d).

(** Modelled from the spec: [board.clearBoard(userId)] of models/board
    resets the snapshot and attributes the action to the actor. *)
Definition clearBoard (b : BoardDoc) (actor : string) (d : Db) : unit * Db :=
  (tt, {| db_users := db_users d; db_rooms := db_rooms d;
          db_boards := <[board_roomId b :=
                           {| board_roomId := board_roomId b;
                              board_elements := [];
                              board_lastModifiedBy := Some actor |}]> (db_boards d);
          db_chats := db_chats d; db_clock := db_clock d |}).

(** Modelled from the spec: [Chat.create({ roomId, sender, message })] of
    models/chat stores a new row under a server-assigned identifier with
    the creation timestamp, and returns the identifier. *)
Definition Chat_create (roomRef : nat) (sender : string) (text : string) (d : Db) : nat * Db :=
  let id := fresh (dom (db_chats d)) in
  (id, {| db_users := db_users d; db_rooms := db_rooms d;
          db_boards := db_boards d;
          db_chats := <[id := {| chat_roomId := roomRef; chat_sender := sender;
                                 chat_message := text;
                                 chat_createdAt := db_clock d |}]> (db_chats d);
          db_clock := S (db_clock d) |}).

(** The display fields [populate] joins in for a sender reference. *)
Definition populate_sender (d : Db) (uid : string) : option SenderView :=
  (fun u => {| sender__id := user__id u; sender_username := user_username u;
               sender_avatar := user_avatar u |}) <$> db_users d !! uid.

Definition populate (d : Db) (id : nat) (c : ChatDoc) : PopulatedChat :=
  {| pc__id := id; pc_roomId := chat_roomId c;
     pc_sender := populate_sender d (chat_sender c);
     pc_message := chat_message c; pc_createdAt := chat_createdAt c |}.

(** [Chat.findById(id).populate('sender', 'username avatar')]. *)
Definition Chat_findById_populate (id : nat) (d : Db) : option PopulatedChat * Db :=
  (populate d id <$> db_chats d !! id, d).

(** [User.findById(id).select('-password -refreshToken')]. *)
Definition User_findById (id : string) (d : Db) : option UserDoc * Db :=
  (db_users d !! id, d).

(* --------------------------------------------------------------------- *)
(* 5. The event listeners of [handleConnection]                          *)
(* --------------------------------------------------------------------- *)

(** [socket.on('join-room', async (roomCode) => ...)]. *)
Definition on_join_room (sid : nat) (s : Socket) (roomCode : string) : M unit :=
  try_catch
    (room ← await (Room_findOne roomCode);
     match room with
     | None => socket_emit sid "error" (PError "Room not found")
     | Some room =>
         if bool_decide (sock_userId s ∈ room_participants room) then
           socket_join sid roomCode;;
           set_roomCode sid roomCode;;
           socket_to_emit sid roomCode "user-joined"
             (PUserJoined (sock_userId s) (user_username (sock_user s))
                          (user_avatar (sock_user s)))
         else socket_emit sid "error" (PError "Access denied")
     end)
    (fun _ => socket_emit sid "error" (PError "Failed to join room")).

(** [socket.on('drawing-update', async (data) => ...)]; the relayed
    object is [{ ...data, userId: socket.userId }]. *)
Definition on_drawing_update (sid : nat) (s : Socket) (data : JsObj) : M unit :=
  match sock_roomCode s with
  | Some rc =>
      if truthy (Some rc) then
        try_catch
          (socket_to_emit sid rc "drawing-update"
             (PDrawing (<["userId" := VStr (sock_userId s)]> data));;
           if bool_decide (data !! "type" = Some (VStr "clear")) then
             room ← await (Room_findOne rc);
             match room with
             | Some room =>
                 board ← await (Board_findOne (room__id room));
                 match board with
                 | Some board => await (clearBoard board (sock_userId s))
                 | None => mret tt
                 end
             | None => mret tt
             end
           else mret tt)
          (fun _ => socket_emit sid "error" (PError "Failed to update drawing"))
      else mret tt
  | None => mret tt
  end.

(** [socket.roomCode], read off the socket object as it is now.  A
    listener holds the object, not a copy of its fields: [s] is what the
    object held when the listener was called, and stands in for it only
    where the state has no socket [sid]. *)
Definition read_roomCode (sid : nat) (s : Socket) : M (option string) := fun w =>
  (Ok (sock_roomCode (default s (sockets w !! sid))), w, []).

(** [io.to(room).emit(ev, p)] for a room read off a field: no socket is in
    the room [undefined]. *)
Definition io_to_emit_field (room : option string) (ev : string) (p : Payload) : M unit :=
  match room with
  | Some rc => io_to_emit rc ev p
  | None => mret tt
  end.

(** [socket.on('chat-message', async (message) => ...)], with [text] the
    [message.text] of the input.  The room looked up is the one recorded
    when the listener is called; the broadcast is addressed to
    [socket.roomCode] as read once the three store calls are through.
    Reading [populatedMessage.message] of a null re-read result throws
    inside the [try]. *)
Definition on_chat_message (sid : nat) (s : Socket) (text : string) : M unit :=
  match sock_roomCode s with
  | Some rc =>
      if truthy (Some rc) then
        try_catch
          (room ← await (Room_findOne rc);
           match room with
           | None => socket_emit sid "error" (PError "Room not found")
           | Some room =>
               chatMessage ← await (Chat_create (room__id room) (sock_userId s) text);
               populatedMessage ← await (Chat_findById_populate chatMessage);
               match populatedMessage with
               | None => throw "TypeError"
               | Some pm =>
                   roomCode ← read_roomCode sid s;
                   io_to_emit_field roomCode "chat-message" (PChat pm)
               end
           end)
          (fun _ => socket_emit sid "error" (PError "Failed to send message"))
      else mret tt
  | None => mret tt
  end.

(** The five relay-only handlers share one shape: the guard
    [if (!socket.roomCode) return;] of every room-scoped listener, then
    [socket.to(socket.roomCode).emit(ev, payload)]. *)
Definition relay_to_peers (sid : nat) (s : Socket) (ev : string) (p : Payload) : M unit :=
  match sock_roomCode s with
  | Some rc => if truthy (Some rc) then socket_to_emit sid rc ev p else mret tt
  | None => mret tt
  end.

(** [data.k] on the argument of an event.  The argument is whatever the
    client sent: [None] stands for an event sent without one (or with
    [null]), on which the property access throws a TypeError; an argument
    that is not an object reads like an object without the property. *)
Definition read_field (data : option JsObj) (k : string) : M JsVal :=
  match data with
  | Some o => mret (js_field o k)
  | None => throw "TypeError"
  end.

(** Four of the relay-only handlers read one field of their argument while
    building the payload, after the guard and outside any [try]: the
    payload is built before [emit] is called, so a throw sends nothing. *)
Definition relay_field (sid : nat) (s : Socket) (ev : string) (data : option JsObj)
    (k : string) (payload : JsVal → Payload) : M unit :=
  match sock_roomCode s with
  | Some rc =>
      if truthy (Some rc) then
        v ← read_field data k; socket_to_emit sid rc ev (payload v)
      else mret tt
  | None => mret tt
  end.

(** [socket.on('voice-toggle', (data) => ...)], reading [data.isEnabled]. *)
Definition on_voice_toggle (sid : nat) (s : Socket) (data : option JsObj) : M unit :=
  relay_field sid s "voice-toggle" data "isEnabled"
    (PVoiceToggle (sock_userId s) (user_username (sock_user s))).

(** [socket.on('voice-ready', (data) => ...)]: [data] is not read. *)
Definition on_voice_ready (sid : nat) (s : Socket) : M unit :=
  relay_to_peers sid s "voice-ready"
    (PVoiceReady (sock_userId s) (user_username (sock_user s))).

(** [socket.on("webrtc-offer", (data) => ...)], reading [data.offer]. *)
Definition on_webrtc_offer (sid : nat) (s : Socket) (data : option JsObj) : M unit :=
  relay_field sid s "webrtc-offer" data "offer" (POffer (sock_userId s)).

(** [socket.on("webrtc-answer", (data) => ...)], reading [data.answer]. *)
Definition on_webrtc_answer (sid : nat) (s : Socket) (data : option JsObj) : M unit :=
  relay_field sid s "webrtc-answer" data "answer" (PAnswer (sock_userId s)).

(** [socket.on("webrtc-ice-candidate", (data) => ...)], reading
    [data.candidate]. *)
Definition on_webrtc_ice_candidate (sid : nat) (s : Socket) (data : option JsObj) : M unit :=
  relay_field sid s "webrtc-ice-candidate" data "candidate"
    (PIceCandidate (sock_userId s)).

(** [socket.on('disconnect', () => ...)]. *)
Definition on_disconnect (sid : nat) (s : Socket) : M unit :=
  match sock_roomCode s with
  | Some rc =>
      if truthy (Some rc) then
        socket_to_emit sid rc "user-left"
          (PUserLeft (sock_userId s) (user_username (sock_user s)))
      else mret tt
  | None => mret tt
  end.

(** The events a connected client sends.  The argument of the four relay
    events whose listener reads it unguarded is optional. *)
Inductive ClientEvent :=
  | JoinRoom (roomCode : string)
  | DrawingUpdate (data : JsObj)
  | ChatMessage (text : string)
  | VoiceToggle (data : option JsObj)
  | VoiceReady
  | WebrtcOffer (data : option JsObj)
  | WebrtcAnswer (data : option JsObj)
  | WebrtcIceCandidate (data : option JsObj).

(** The listeners registered on a socket in [io.on('connection', ...)]:
    an event of a socket that is not connected reaches no listener. *)
Definition handleConnection (sid : nat) (ev : ClientEvent) : M unit := fun w =>
  match sockets w !! sid with
  | None => (Ok tt, w, [])
  | Some s =>
      match ev with
      | JoinRoom roomCode => on_join_room sid s roomCode w
      | DrawingUpdate data => on_drawing_update sid s data w
      | ChatMessage text => on_chat_message sid s text w
      | VoiceToggle data => on_voice_toggle sid s data w
      | VoiceReady => on_voice_ready sid s w
      | WebrtcOffer data => on_webrtc_offer sid s data w
      | WebrtcAnswer data => on_webrtc_answer sid s data w
      | WebrtcIceCandidate data => on_webrtc_ice_candidate sid s data w
      end
  end.

(** The transport closing a socket: it leaves every room and is removed
    from the connected sockets, then its ['disconnect'] listener runs. *)
Definition leave_all (sid : nat) : M unit := fun w =>
  (Ok tt, set_adapter (fmap (fun S : gset nat => S ∖ {[sid]})) w, []).

Definition drop_socket (sid : nat) : M unit := fun w =>
  (Ok tt, set_sockets (delete sid) w, []).

Definition disconnect (sid : nat) : M unit := fun w =>
  match sockets w !! sid with
  | None => (Ok tt, w, [])
  | Some s => (leave_all sid;; drop_socket sid;; on_disconnect sid s) w
  end.

(* --------------------------------------------------------------------- *)
(* 5a. The listeners between their store calls                           *)
(* --------------------------------------------------------------------- *)

(** An [async] listener returns to the event loop at each [await] and goes
    on when the store call has completed; whatever reaches the server in
    between, events of the same socket included, is handled first.  A
    suspended listener is the store call it waits for together with the
    values its continuation uses.  [s] is the socket as it was when the
    listener was called: only the fields nothing assigns after the
    handshake ([userId], [user]) are read off it later, [socket.roomCode]
    is read off the state. *)
Inductive Task :=
  | JoinRoomFind (sid : nat) (s : Socket) (roomCode : string)
  | ClearRoomFind (sid : nat) (s : Socket) (rc : string)
  | ClearBoardFind (sid : nat) (s : Socket) (room : RoomDoc)
  | ClearBoardReset (sid : nat) (s : Socket) (board : BoardDoc)
  | ChatRoomFind (sid : nat) (s : Socket) (rc text : string)
  | ChatCreate (sid : nat) (s : Socket) (room : RoomDoc) (text : string)
  | ChatPopulate (sid : nat) (s : Socket) (chatMessage : nat).

(** The socket whose listener is suspended. *)
Definition owner (t : Task) : nat :=
  match t with
  | JoinRoomFind sid _ _ | ClearRoomFind sid _ _ | ClearBoardFind sid _ _
  | ClearBoardReset sid _ _ | ChatRoomFind sid _ _ _ | ChatCreate sid _ _ _
  | ChatPopulate sid _ _ => sid
  end.

(** The [catch] block of a listener, around the stretch that runs when one
    of its store calls completes. *)
Definition reported (sid : nat) (msg : string) (m : M (option Task)) : M (option Task) :=
  try_catch m (fun _ => socket_emit sid "error" (PError msg);; mret None).

(** [drawing-update] up to its first [await]: the relay, then
    [Room.findOne] is called when the sub-kind is 'clear'. *)
Definition start_drawing_update (sid : nat) (s : Socket) (data : JsObj) : M (option Task) :=
  match sock_roomCode s with
  | Some rc =>
      if truthy (Some rc) then
        reported sid "Failed to update drawing"
          (socket_to_emit sid rc "drawing-update"
             (PDrawing (<["userId" := VStr (sock_userId s)]> data));;
           if bool_decide (data !! "type" = Some (VStr "clear"))
           then mret (Some (ClearRoomFind sid s rc))
           else mret None)
      else mret None
  | None => mret None
  end.

(** [chat-message] up to its first [await]: after the guard,
    [Room.findOne({ roomId: socket.roomCode })] is called. *)
Definition start_chat_message (sid : nat) (s : Socket) (text : string) : M (option Task) :=
  match sock_roomCode s with
  | Some rc =>
      if truthy (Some rc) then mret (Some (ChatRoomFind sid s rc text)) else mret None
  | None => mret None
  end.

(** A listener from its call to its first [await], or to its end when it
    has none.  [join-room] calls [Room.findOne] before anything else. *)
Definition start (sid : nat) (ev : ClientEvent) : M (option Task) := fun w =>
  match sockets w !! sid with
  | None => (Ok None, w, [])
  | Some s =>
      match ev with
      | JoinRoom roomCode => (Ok (Some (JoinRoomFind sid s roomCode)), w, [])
      | DrawingUpdate data => start_drawing_update sid s data w
      | ChatMessage text => start_chat_message sid s text w
      | VoiceToggle data => (on_voice_toggle sid s data;; mret None) w
      | VoiceReady => (on_voice_ready sid s;; mret None) w
      | WebrtcOffer data => (on_webrtc_offer sid s data;; mret None) w
      | WebrtcAnswer data => (on_webrtc_answer sid s data;; mret None) w
      | WebrtcIceCandidate data => (on_webrtc_ice_candidate sid s data;; mret None) w
      end
  end.

(** A suspended listener when its store call completes: the call takes
    effect on the store as it is then, and the listener runs from there to
    the next [await] or to the end.  The whole of [join-room] lies behind
    its one store call. *)
Definition resume (t : Task) : M (option Task) :=
  match t with
  | JoinRoomFind sid s roomCode => on_join_room sid s roomCode;; mret None
  | ClearRoomFind sid s rc =>
      reported sid "Failed to update drawing"
        (room ← await (Room_findOne rc);
         match room with
         | Some room => mret (Some (ClearBoardFind sid s room))
         | None => mret None
         end)
  | ClearBoardFind sid s room =>
      reported sid "Failed to update drawing"
        (board ← await (Board_findOne (room__id room));
         match board with
         | Some board => mret (Some (ClearBoardReset sid s board))
         | None => mret None
         end)
  | ClearBoardReset sid s board =>
      reported sid "Failed to update drawing"
        (await (clearBoard board (sock_userId s));; mret None)
  | ChatRoomFind sid s rc text =>
      reported sid "Failed to send message"
        (room ← await (Room_findOne rc);
         match room with
         | None => socket_emit sid "error" (PError "Room not found");; mret None
         | Some room => mret (Some (ChatCreate sid s room text))
         end)
  | ChatCreate sid s room text =>
      reported sid "Failed to send message"
        (chatMessage ← await (Chat_create (room__id room) (sock_userId s) text);
         mret (Some (ChatPopulate sid s chatMessage)))
  | ChatPopulate sid s chatMessage =>
      reported sid "Failed to send message"
        (populatedMessage ← await (Chat_findById_populate chatMessage);
         match populatedMessage with
         | None => throw "TypeError"
         | Some pm =>
             roomCode ← read_roomCode sid s;
             io_to_emit_field roomCode "chat-message" (PChat pm);;
             mret None
         end)
  end.

(** A listener carried through with nothing in between: each store call
    completes as soon as it is made.  No listener makes more than three. *)
Fixpoint finish (n : nat) (t : option Task) : M unit :=
  match t, n with
  | Some t, S n => t' ← resume t; finish n t'
  | _, _ => mret tt
  end.

(* --------------------------------------------------------------------- *)
(* 6. Connection authentication                                          *)
(* --------------------------------------------------------------------- *)

(** What the middleware hands to [next]. *)
Inductive Next :=
  | NextOk
  | NextErr (msg : string).

#[global] Instance Next_eq_dec : EqDecision Next.
Proof. solve_decision. Defined.

Section Auth.

(** [jwt.verify(token, process.env.ACCESS_TOKEN_SECRET)] of the
    jsonwebtoken library: the [_id] of the decoded claims, or [None] when
    it throws (bad signature, expired, malformed). *)
Variable jwt_verify : string → option string.

Definition verify_token (token : string) : M string := fun w =>
  match jwt_verify token with
  | Some id => (Ok id, w, [])
  | None => (Thrown "JsonWebTokenError", w, [])
  end.

(** Tagging the socket: [socket.userId = user._id.toString();
    socket.user = user]. *)
Definition tag_socket (sid : nat) (user : UserDoc) : M unit := fun w =>
  (Ok tt, set_sockets (insert sid {| sock_userId := user__id user;
                                     sock_user := user;
                                     sock_roomCode := None |}) w, []).

(** [authenticateSocket(socket, next)], with [token] the
    [socket.handshake.auth.token]. *)
Definition authenticateSocket (sid : nat) (token : option string) : M Next :=
  try_catch
    (match token with
     | Some tok =>
         if truthy (Some tok) then
           decoded ← verify_token tok;
           user ← await (User_findById decoded);
           match user with
           | None => mret (NextErr "Authentication error")
           | Some user => tag_socket sid user;; mret NextOk
           end
         else mret (NextErr "Authentication error")
     | None => mret (NextErr "Authentication error")
     end)
    (fun _ => mret (NextErr "Authentication error")).

(** What reaches the server from outside. *)
Inductive Input :=
  | Connect (sid : nat) (token : option string)
  | Event (sid : nat) (ev : ClientEvent)
  | Disconnect (sid : nat).

(** One input handled with its store calls completing at once. *)
Definition step (i : Input) : M unit :=
  match i with
  | Connect sid token => authenticateSocket sid token;; mret tt
  | Event sid ev => handleConnection sid ev
  | Disconnect sid => disconnect sid
  end.

(* --------------------------------------------------------------------- *)
(* 6a. The event loop                                                    *)
(* --------------------------------------------------------------------- *)

(** Whether the middleware gets as far as [User.findById]: with a truthy
    token that [jwt.verify] accepts.  Otherwise it has called [next] with
    the error before it returns. *)
Definition reaches_store (token : option string) : bool :=
  match token with
  | Some tok => truthy (Some tok) && bool_decide (is_Some (jwt_verify tok))
  | None => false
  end.

(** What waits for a store call: the middleware of a connection being set
    up, or a listener. *)
Inductive Pending :=
  | Handshake (sid : nat) (token : option string)
  | Listener (t : Task).

Definition handshaking (sid : nat) (p : Pending) : bool :=
  match p with
  | Handshake sid' _ => bool_decide (sid' = sid)
  | Listener _ => false
  end.

(** The running server: the state the handlers work on; the socket
    objects of closed connections, which suspended listeners still hold;
    the pending store calls; and whether the process is up. *)
Record Server := {
  world : World;
  closed : gmap nat Socket;
  pending : list Pending;
  up : bool
}.

Definition serving (w : World) : Server :=
  {| world := w; closed := ∅; pending := []; up := true |}.

(** The server as it starts. *)
Definition boot (d : Db) (fs : list bool) : Server :=
  serving {| sockets := ∅; adapter := ∅; db := d; faults := fs |}.

(** An exception nothing catches ends the process (the file installs no
    handler for it): connections, rooms and suspended listeners are gone,
    the store remains. *)
Definition crash (w : World) : Server :=
  {| world := {| sockets := ∅; adapter := ∅; db := db w; faults := faults w |};
     closed := ∅; pending := []; up := false |}.

(** The transport gives every connection an id of its own: whether [sid]
    has been given out. *)
Definition issued (srv : Server) (sid : nat) : bool :=
  bool_decide (is_Some (sockets (world srv) !! sid))
  || bool_decide (is_Some (closed srv !! sid))
  || existsb (handshaking sid) (pending srv).

(** What the transport writes: a packet for a socket that is not connected
    (the target of [socket.emit] after its connection closed, or an id
    left in a room) is dropped. *)
Definition transmit (w : World) (ds : list Delivery) : list Delivery :=
  filter (fun d => is_Some (sockets w !! dl_dest d)) ds.

(** A listener goes on with its socket object even when the connection
    has closed meanwhile: for the time it runs the object is put back under
    its id, so that reads and writes of its fields find it. *)
Definition lend (srv : Server) (sid : nat) : World :=
  match sockets (world srv) !! sid, closed srv !! sid with
  | None, Some s => set_sockets (insert sid s) (world srv)
  | _, _ => world srv
  end.

(** What comes next on the event loop: something arrives from outside, or
    the [n]-th pending store call completes. *)
Inductive Turn :=
  | Arrive (i : Input)
  | Complete (n : nat).

(** A connection attempt arrives: [authenticateSocket] runs up to its
    store call, or to its end when it does not get that far. *)
Definition connect (sid : nat) (token : option string) (srv : Server)
    : Server * list Delivery :=
  if issued srv sid then (srv, [])
  else if reaches_store token then
    ({| world := world srv; closed := closed srv;
        pending := pending srv ++ [Handshake sid token]; up := true |}, [])
  else
    ({| world := post (authenticateSocket sid token) (world srv); closed := closed srv;
        pending := pending srv; up := true |}, []).

(** An event arrives: its listener runs up to its first store call, which
    then is pending, or to its end. *)
Definition dispatch (sid : nat) (ev : ClientEvent) (srv : Server)
    : Server * list Delivery :=
  match start sid ev (world srv) with
  | (Ok t, w, ds) =>
      ({| world := w; closed := closed srv;
          pending := pending srv ++ (Listener <$> option_list t); up := true |},
       transmit w ds)
  | (Thrown _, w, ds) => (crash w, transmit w ds)
  end.

(** The connection of [sid] closes: a connected socket leaves its rooms
    and has its [disconnect] listener run, its object stays with the
    listeners that hold it; a connection still being set up is given up,
    and the outcome of its middleware is ignored. *)
Definition hang_up (sid : nat) (srv : Server) : Server * list Delivery :=
  let w := post (disconnect sid) (world srv) in
  ({| world := w;
      closed := match sockets (world srv) !! sid with
                | Some s => <[sid := s]> (closed srv)
                | None => closed srv
                end;
      pending := filter (fun p => handshaking sid p = false) (pending srv);
      up := true |},
   transmit w (sent (disconnect sid) (world srv))).

(** The [n]-th pending store call completes: the middleware registers the
    connection or not; a listener goes on to its next store call, which
    takes the place of the completed one, or to its end. *)
Definition complete (n : nat) (srv : Server) : Server * list Delivery :=
  match pending srv !! n with
  | None => (srv, [])
  | Some (Handshake sid token) =>
      ({| world := post (authenticateSocket sid token) (world srv);
          closed := closed srv; pending := delete n (pending srv); up := true |}, [])
  | Some (Listener t) =>
      let sid := owner t in
      match resume t (lend srv sid) with
      | (Ok t', w, ds) =>
          let gone := bool_decide (sockets (world srv) !! sid = None) in
          let w' := if gone then set_sockets (delete sid) w else w in
          ({| world := w';
              closed := if gone then match sockets w !! sid with
                                     | Some s => <[sid := s]> (closed srv)
                                     | None => closed srv
                                     end
                        else closed srv;
              pending := match t' with
                         | Some t' => <[n := Listener t']> (pending srv)
                         | None => delete n (pending srv)
                         end;
              up := true |},
           transmit w' ds)
      | (Thrown _, w, ds) => (crash w, transmit (world srv) ds)
      end
  end.

(** One turn of the event loop.  Nothing happens on a server that is
    down. *)
Definition serve (t : Turn) (srv : Server) : Server * list Delivery :=
  if up srv then
    match t with
    | Arrive (Connect sid token) => connect sid token srv
    | Arrive (Event sid ev) => dispatch sid ev srv
    | Arrive (Disconnect sid) => hang_up sid srv
    | Complete n => complete n srv
    end
  else (srv, []).

(** The turns taken one after the other, with all that was sent. *)
Fixpoint run (turns : list Turn) (srv : Server) : Server * list Delivery :=
  match turns with
  | [] => (srv, [])
  | t :: rest =>
      let '(srv1, ds1) := serve t srv in
      let '(srv2, ds2) := run rest srv1 in
      (srv2, ds1 ++ ds2)
  end.

End Auth.

(* --------------------------------------------------------------------- *)
(* 7. Observations                                                       *)
(* --------------------------------------------------------------------- *)

(** What one client receives out of a list of deliveries, in order. *)
Definition inbox (ds : list Delivery) (d : nat) : list (string * Payload) :=
  (fun x => (dl_event x, dl_payload x)) <$> filter (fun x => dl_dest x = d) ds.

(** The targeted [error] event. *)
Definition error_to (sid : nat) (msg : string) : Delivery :=
  {| dl_dest := sid; dl_event := "error"; dl_payload := PError msg |}.

(** Every session that recorded a room code is a live member of that
    room. *)
Definition joined_in_room (w : World) : Prop :=
  map_Forall
    (fun sid s => match sock_roomCode s with
                  | Some rc => sid ∈ members w rc
                  | None => True
                  end)
    (sockets w).

#[global] Instance joined_in_room_dec (w : World) : Decision (joined_in_room w).
Proof.
  unfold joined_in_room. apply map_Forall_dec.
  intros sid s. destruct (sock_roomCode s); apply _.
Defined.

(** Whether the [n]-th coming store call throws. *)
Definition nth_fault (w : World) (n : nat) : bool := default false (faults w !! n).

(** How the board reset behind a [clear] drawing-update ends, read off the
    store and the outcomes of the three store calls it may make: the
    snapshot is reset, the reset is skipped because the room or its board
    is not found, or a store call throws. *)
Inductive ResetOutcome :=
  | ResetDone (board : BoardDoc)
  | ResetSkipped
  | ResetThrew.

Definition reset_outcome (w : World) (rc : string) : ResetOutcome :=
  if nth_fault w 0 then ResetThrew
  else match db_rooms (db w) !! rc with
       | None => ResetSkipped
       | Some room =>
           if nth_fault w 1 then ResetThrew
           else match db_boards (db w) !! room__id room with
                | None => ResetSkipped
                | Some board =>
                    if nth_fault w 2 then ResetThrew else ResetDone board
                end
       end.

(** The event kinds routed by the session's room code: all but
    [join-room]. *)
Definition room_scoped (ev : ClientEvent) : bool :=
  match ev with
  | JoinRoom _ => false
  | _ => true
  end.

(* --------------------------------------------------------------------- *)
(* 8. Scenario: two rooms, four connected clients                           *)
(* --------------------------------------------------------------------- *)

Definition alice : UserDoc :=
  {| user__id := "u1"; user_username := "alice"; user_avatar := Some "alice.png" |}.
Definition bob : UserDoc :=
  {| user__id := "u2"; user_username := "bob"; user_avatar := None |}.
Definition carol : UserDoc :=
  {| user__id := "u3"; user_username := "carol"; user_avatar := None |}.
Definition dave : UserDoc :=
  {| user__id := "u4"; user_username := "dave"; user_avatar := None |}.

(** ROOM42 admits alice and bob and has no board; ROOM99 admits alice and
    dave and has a board. *)
Definition db0 : Db :=
  {| db_users := {[ "u1" := alice; "u2" := bob; "u3" := carol; "u4" := dave ]};
     db_rooms := {[ "ROOM42" := {| room__id := 7; room_roomId := "ROOM42";
                                   room_participants := ["u1"; "u2"] |};
                    "ROOM99" := {| room__id := 9; room_roomId := "ROOM99";
                                   room_participants := ["u1"; "u4"] |} ]};
     db_boards := {[ 9 := {| board_roomId := 9;
                             board_elements := [ {[ "type" := VStr "draw" ]} ];
                             board_lastModifiedBy := Some "u1" |} ]};
     db_chats := ∅;
     db_clock := 100 |}.

Definition jwt0 (token : string) : option string :=
  if decide (token = "token-alice") then Some "u1"
  else if decide (token = "token-bob") then Some "u2"
  else if decide (token = "token-carol") then Some "u3"
  else if decide (token = "token-dave") then Some "u4"
  else if decide (token = "token-ghost") then Some "u9"
  else None.

Definition connected (u : UserDoc) (rc : option string) : Socket :=
  {| sock_userId := user__id u; sock_user := u; sock_roomCode := rc |}.

(** Sockets 1 (alice) and 2 (bob) are in ROOM42, socket 4 (dave) is in
    ROOM99, socket 3 (carol) has joined no room. *)
Definition w_demo : World :=
  {| sockets := {[ 1 := connected alice (Some "ROOM42");
                   2 := connected bob (Some "ROOM42");
                   3 := connected carol None;
                   4 := connected dave (Some "ROOM99") ]};
     adapter := {[ "ROOM42" := {[ 1; 2 ]}; "ROOM99" := {[ 4 ]} ]};
     db := db0;
     faults := [] |}.

(** The four clients connect at about the same time, then each asks to
    join; the store answers in the order it was asked. *)
Definition demo_turns : list Turn :=
  [ Arrive (Connect 1 (Some "token-alice")); Arrive (Connect 2 (Some "token-bob"));
    Arrive (Connect 3 (Some "token-carol")); Arrive (Connect 4 (Some "token-dave"));
    Complete 0; Complete 0; Complete 0; Complete 0;
    Arrive (Event 1 (JoinRoom "ROOM42")); Arrive (Event 2 (JoinRoom "ROOM42"));
    Arrive (Event 3 (JoinRoom "ROOM42")); Arrive (Event 4 (JoinRoom "ROOM99"));
    Complete 0; Complete 0; Complete 0; Complete 0 ].

(** Room management, outside the relay, adds carol to ROOM42's authorized
    participants. *)
Definition db_carol_authorized : Db :=
  {| db_users := db_users db0;
     db_rooms := <["ROOM42" := {| room__id := 7; room_roomId := "ROOM42";
                                  room_participants := ["u1"; "u2"; "u3"] |}]>
                   (db_rooms db0);
     db_boards := db_boards db0;
     db_chats := db_chats db0;
     db_clock := db_clock db0 |}.

(* --------------------------------------------------------------------- *)
(* 8a. Further observations on the relay                                  *)
(* --------------------------------------------------------------------- *)



(** The sockets a list of deliveries goes to. *)
Definition dests (ds : list Delivery) : list nat := dl_dest <$> ds.

(** Every live member of every room is a connected socket. *)
Definition members_connected (w : World) : Prop :=
  map_Forall
    (fun (_ : string) (S : gset nat) =>
       set_Forall (fun sid => is_Some (sockets w !! sid)) S)
    (adapter w).

#[global] Instance members_connected_dec (w : World) : Decision (members_connected w).
Proof. unfold members_connected. apply _. Defined.

(* --------------------------------------------------------------------- *)
(* 8b. The client's socket wrapper (frontend/src/lib/socket.ts)           *)
(* --------------------------------------------------------------------- *)

Module SocketClient.

(** A socket.io-client socket object: the token of its handshake, whether
    the transport is up ([socket.connected]), whether [socket.disconnect()]
    has been called on it, and what has been emitted on it, oldest first. *)
Record ClientSocket := {
  cs_auth : string;
  cs_connected : bool;
  cs_closed : bool;
  cs_outgoing : list ClientEvent
}.

(** The [SocketClient] singleton: its [socket] and [token] fields, and the
    socket objects created so far. *)
Record t := {
  socket : option nat;
  token : option string;
  heap : gmap nat ClientSocket
}.

(** [new SocketClient()]. *)
Definition initial : t := {| socket := None; token := None; heap := ∅ |}.

(** [socket.disconnect()] on a socket object. *)
Definition close (cs : ClientSocket) : ClientSocket :=
  {| cs_auth := cs_auth cs; cs_connected := false; cs_closed := true;
     cs_outgoing := cs_outgoing cs |}.

(** [socket.emit(...)] on a socket object. *)
Definition push (ev : ClientEvent) (cs : ClientSocket) : ClientSocket :=
  {| cs_auth := cs_auth cs; cs_connected := cs_connected cs;
     cs_closed := cs_closed cs; cs_outgoing := cs_outgoing cs ++ [ev] |}.

(** The object [this.socket] refers to. *)
Definition current (c : t) : option ClientSocket :=
  match socket c with
  | Some id => heap c !! id
  | None => None
  end.

(** [this.socket && this.socket.connected]. *)
Definition ready (c : t) : bool :=
  match current c with
  | Some cs => cs_connected cs
  | None => false
  end.

Definition emit (ev : ClientEvent) (c : t) : t :=
  match socket c with
  | Some id => {| socket := socket c; token := token c;
                  heap := alter (push ev) id (heap c) |}
  | None => c
  end.

(** [connect(token)]: the existing socket, if any, is disconnected, and
    [io(SOCKET_URL, { auth: { token }, forceNew: true, ... })] makes a new
    one, not yet connected.  The four listeners it registers only log. *)
Definition connect (tok : string) (c : t) : t :=
  let h := match socket c with
           | Some id => alter close id (heap c)
           | None => heap c
           end in
  let id := fresh (dom h) in
  {| socket := Some id; token := Some tok;
     heap := <[id := {| cs_auth := tok; cs_connected := false; cs_closed := false;
                        cs_outgoing := [] |}]> h |}.

(** [disconnect()]. *)
Definition disconnect (c : t) : t :=
  match socket c with
  | Some id => {| socket := None; token := token c;
                  heap := alter close id (heap c) |}
  | None => c
  end.

(** [joinRoom(roomCode)]. *)
Definition joinRoom (roomCode : string) (c : t) : t :=
  if ready c then emit (JoinRoom roomCode) c else c.

(** [sendDrawingUpdate(data)]. *)
Definition sendDrawingUpdate (data : JsObj) (c : t) : t :=
  if ready c then emit (DrawingUpdate data) c else c.

(** [sendChatMessage(message)], with [text] the [message.text]. *)
Definition sendChatMessage (text : string) (c : t) : t :=
  if ready c then emit (ChatMessage text) c else c.

(** [toggleVoice(isEnabled)]: guarded by [this.socket] alone; the
    argument sent is [{ isEnabled }]. *)
Definition toggleVoice (isEnabled : bool) (c : t) : t :=
  emit (VoiceToggle (Some {[ "isEnabled" := VBool isEnabled ]})) c.

(** [sendWebRTCOffer(offer)], sending [{ offer }]. *)
Definition sendWebRTCOffer (offer : JsVal) (c : t) : t :=
  if ready c then emit (WebrtcOffer (Some {[ "offer" := offer ]})) c else c.

(** [sendWebRTCAnswer(answer)], sending [{ answer }]. *)
Definition sendWebRTCAnswer (answer : JsVal) (c : t) : t :=
  if ready c then emit (WebrtcAnswer (Some {[ "answer" := answer ]})) c else c.

(** [sendWebRTCIceCandidate(candidate)], sending [{ candidate }]. *)
Definition sendWebRTCIceCandidate (candidate : JsVal) (c : t) : t :=
  if ready c then emit (WebrtcIceCandidate (Some {[ "candidate" := candidate ]})) c else c.

(** What the transport does to a socket object: the connection comes up
    (never on a socket that was disconnected by hand), or it is lost. *)
Definition transport_up (id : nat) (c : t) : t :=
  {| socket := socket c; token := token c;
     heap := alter (fun cs => if cs_closed cs then cs
                              else {| cs_auth := cs_auth cs; cs_connected := true;
                                      cs_closed := false;
                                      cs_outgoing := cs_outgoing cs |}) id (heap c) |}.

Definition transport_down (id : nat) (c : t) : t :=
  {| socket := socket c; token := token c;
     heap := alter (fun cs => {| cs_auth := cs_auth cs; cs_connected := false;
                                 cs_closed := cs_closed cs;
                                 cs_outgoing := cs_outgoing cs |}) id (heap c) |}.

(** The calls made on the wrapper, and the transport's moves. *)
Inductive Call :=
  | Connect (tok : string)
  | Disconnect
  | JoinRoom' (roomCode : string)
  | SendDrawingUpdate (data : JsObj)
  | SendChatMessage (text : string)
  | ToggleVoice (isEnabled : bool)
  | SendWebRTCOffer (offer : JsVal)
  | SendWebRTCAnswer (answer : JsVal)
  | SendWebRTCIceCandidate (candidate : JsVal)
  | TransportUp (id : nat)
  | TransportDown (id : nat).

Definition call (k : Call) (c : t) : t :=
  match k with
  | Connect tok => connect tok c
  | Disconnect => disconnect c
  | JoinRoom' roomCode => joinRoom roomCode c
  | SendDrawingUpdate data => sendDrawingUpdate data c
  | SendChatMessage text => sendChatMessage text c
  | ToggleVoice isEnabled => toggleVoice isEnabled c
  | SendWebRTCOffer offer => sendWebRTCOffer offer c
  | SendWebRTCAnswer answer => sendWebRTCAnswer answer c
  | SendWebRTCIceCandidate candidate => sendWebRTCIceCandidate candidate c
  | TransportUp id => transport_up id c
  | TransportDown id => transport_down id c
  end.

Definition calls (ks : list Call) (c : t) : t := foldl (fun c k => call k c) c ks.

(** The send methods that need a connected socket. *)
Definition needs_connection (k : Call) : bool :=
  match k with
  | JoinRoom' _ | SendDrawingUpdate _ | SendChatMessage _
  | SendWebRTCOffer _ | SendWebRTCAnswer _ | SendWebRTCIceCandidate _ => true
  | _ => false
  end.

(** Every socket object except the one [this.socket] refers to has been
    disconnected. *)
Definition single_open (c : t) : Prop :=
  map_Forall (fun id cs => cs_closed cs = false → socket c = Some id) (heap c).

(** The invariant behind the wrapper: a socket object whose transport is up
    has not been disconnected by hand, a socket object that has not been
    disconnected is the current one, and the current one exists. *)
Definition inv (c : t) : Prop :=
  (∀ id cs, heap c !! id = Some cs →
     (cs_connected cs = true → cs_closed cs = false) ∧
     (cs_closed cs = false → socket c = Some id)) ∧
  (∀ id, socket c = Some id → is_Some (heap c !! id)).

End SocketClient.

(* --------------------------------------------------------------------- *)
(* 8c. The chat panel of the room view                                    *)
(*     (frontend/src/components/RoomInterface.tsx)                        *)
(* --------------------------------------------------------------------- *)

Module RoomInterface.

(** The state updater of [handleChatMessage], the listener for the
    server's [chat-message] event: [prev] is the [messages] state, a
    message whose [_id] is already shown is ignored. *)
Definition handleChatMessage (message : PopulatedChat) (prev : list PopulatedChat)
    : list PopulatedChat :=
  if existsb (fun msg => bool_decide (pc__id msg = pc__id message)) prev
  then prev
  else prev ++ [message].

(** A stream of [chat-message] events handled one after the other. *)
Definition receive (incoming : list PopulatedChat) (prev : list PopulatedChat)
    : list PopulatedChat :=
  foldl (fun acc m => handleChatMessage m acc) prev incoming.

End RoomInterface.

(* --------------------------------------------------------------------- *)
(* 8d. JavaScript values as the client code tests them                    *)
(* --------------------------------------------------------------------- *)

(** Truthiness of a primitive: [undefined], [null], [false], [0] and the
    empty string are falsy. *)
Definition js_truthy (v : JsVal) : bool :=
  match v with
  | VUndef | VNull => false
  | VBool b => b
  | VNum n => negb (n =? 0)%Z
  | VStr s => if decide (s = "") then false else true
  end.

(** [a || b]. *)
Definition js_or (a b : JsVal) : JsVal := if js_truthy a then a else b.

(** The property key a value becomes in [{ [v]: ... }] (numbers are the
    integers of [VNum], printed in decimal). *)
Definition js_to_string (v : JsVal) : string :=
  match v with
  | VStr s => s
  | VNum n => pretty n
  | VBool true => "true"
  | VBool false => "false"
  | VNull => "null"
  | VUndef => "undefined"
  end.

(* --------------------------------------------------------------------- *)
(* 8e. The whiteboard (frontend/src/components/Whiteboard.tsx)            *)
(* --------------------------------------------------------------------- *)

Module Whiteboard.

(** What the [drawing-update] listener does to the canvas, as the calls it
    makes with their arguments. *)
Inductive CanvasCall :=
  | DrawOnCanvas (x y prevX prevY color strokeWidth tool : JsVal)
  | DrawShape (x y width height color strokeWidth tool : JsVal)
  | ClearRect.

(** An entry of the [remoteCursors] state. *)
Record Cursor := {
  cursor_x : JsVal;
  cursor_y : JsVal;
  cursor_username : JsVal
}.

(** What remote events act on: the canvas (through the calls made on it,
    oldest first) and the [remoteCursors] state. *)
Record Remote := {
  canvas_calls : list CanvasCall;
  remoteCursors : gmap string Cursor
}.

Definition defined (v : JsVal) : bool := bool_decide (v ≠ VUndef).

Definition draw_call (k : CanvasCall) (st : Remote) : Remote :=
  {| canvas_calls := canvas_calls st ++ [k]; remoteCursors := remoteCursors st |}.

(** [handleDrawingUpdate(data)], the listener for the server's
    [drawing-update] event. *)
Definition handleDrawingUpdate (data : JsObj) (st : Remote) : Remote :=
  let type := js_field data "type" in
  let x := js_field data "x" in
  let y := js_field data "y" in
  if bool_decide (type = VStr "draw") && defined x && defined y then
    draw_call (DrawOnCanvas x y (js_field data "prevX") (js_field data "prevY")
                 (js_or (js_field data "color") (VStr "#000000"))
                 (js_or (js_field data "strokeWidth") (VNum 2))
                 (js_or (js_field data "tool") (VStr "pen"))) st
  else if bool_decide (type = VStr "shape") && defined x && defined y then
    draw_call (DrawShape x y
                 (js_or (js_field data "width") (VNum 0))
                 (js_or (js_field data "height") (VNum 0))
                 (js_or (js_field data "color") (VStr "#000000"))
                 (js_or (js_field data "strokeWidth") (VNum 2))
                 (js_or (js_field data "tool") (VStr "rectangle"))) st
  else if bool_decide (type = VStr "clear") then
    draw_call ClearRect st
  else if bool_decide (type = VStr "cursor") && js_truthy (js_field data "userId")
          && defined x && defined y then
    {| canvas_calls := canvas_calls st;
       remoteCursors :=
         <[js_to_string (js_field data "userId") :=
             {| cursor_x := x; cursor_y := y;
                cursor_username := js_or (js_field data "username") (VStr "User") |}]>
           (remoteCursors st) |}
  else st.

(** The local drawing surface with its undo history: the canvas content as
    [canvas.toDataURL()] gives it, and the [history] and [historyIndex]
    states.  Each handler runs on the state of the latest render, and a
    snapshot shown by undo or redo has loaded before the next action. *)
Record Local := {
  canvas : string;
  history : list string;
  historyIndex : Z
}.

(** [l.slice(0, e)]. *)
Definition slice0 {A} (l : list A) (e : Z) : list A :=
  if (e <? 0)%Z then take (Z.to_nat (Z.max 0 (Z.of_nat (length l) + e))) l
  else take (Z.to_nat e) l.

(** [l[i]]. *)
Definition index {A} (l : list A) (i : Z) : option A :=
  if (i <? 0)%Z then None else l !! Z.to_nat i.

(** [saveToHistory()]. *)
Definition saveToHistory (b : Local) : Local :=
  {| canvas := canvas b;
     history := slice0 (history b) (historyIndex b + 1) ++ [canvas b];
     historyIndex := (historyIndex b + 1)%Z |}.

(** Loading a snapshot into the canvas: [img.onload] clears the canvas and
    draws the image; an undefined source loads nothing. *)
Definition show (img : option string) (b : Local) : Local :=
  match img with
  | Some i => {| canvas := i; history := history b; historyIndex := historyIndex b |}
  | None => b
  end.

Definition set_index (i : Z) (b : Local) : Local :=
  {| canvas := canvas b; history := history b; historyIndex := i |}.

(** [undo()]. *)
Definition undo (b : Local) : Local :=
  if (historyIndex b <=? 0)%Z then b
  else let newIndex := (historyIndex b - 1)%Z in
       show (index (history b) newIndex) (set_index newIndex b).

(** [redo()]. *)
Definition redo (b : Local) : Local :=
  if (historyIndex b >=? Z.of_nat (length (history b)) - 1)%Z then b
  else let newIndex := (historyIndex b + 1)%Z in
       show (index (history b) newIndex) (set_index newIndex b).

(** Drawing on the canvas leaves it with some new content. *)
Definition paint (img : string) (b : Local) : Local :=
  {| canvas := img; history := history b; historyIndex := historyIndex b |}.

(** One stroke or shape: [startDrawing] saves the canvas to the history,
    the mouse moves draw, [stopDrawing] saves nothing. *)
Definition stroke (img : string) (b : Local) : Local := paint img (saveToHistory b).

(** [clearCanvas()], with [blank] the cleared canvas: the canvas is saved
    to the history and cleared, and [{ type: 'clear' }] is handed to the
    socket wrapper (the board is also posted to the REST API, which is
    outside this model). *)
Definition clearCanvas (blank : string) (b : Local) : Local * list SocketClient.Call :=
  (paint blank (saveToHistory b),
   [SocketClient.SendDrawingUpdate {[ "type" := VStr "clear" ]}]).

(** The state once the mount effect's timer has saved the initial canvas. *)
Definition mounted (c0 : string) : Local :=
  {| canvas := c0; history := [c0]; historyIndex := 0 |}.

Definition strokes (imgs : list string) (b : Local) : Local :=
  foldl (fun b img => stroke img b) b imgs.

(** The index points into the history (or is -1 while it is empty). *)
Definition in_range (b : Local) : Prop :=
  (-1 ≤ historyIndex b < Z.of_nat (length (history b)))%Z.

(** What the user does to the local canvas. *)
Inductive Action :=
  | Stroke (img : string)
  | Clear (blank : string)
  | Undo
  | Redo.

Definition act (a : Action) (b : Local) : Local :=
  match a with
  | Stroke img => stroke img b
  | Clear blank => (clearCanvas blank b).1
  | Undo => undo b
  | Redo => redo b
  end.

Definition acts (l : list Action) (b : Local) : Local :=
  foldl (fun b a => act a b) b l.

End Whiteboard.

(* --------------------------------------------------------------------- *)
(* 8f. Voice chat teardown (frontend/src/components/VoiceChat.tsx)        *)
(* --------------------------------------------------------------------- *)

Module VoiceChat.

(** An entry of [peersRef.current]: the RTCPeerConnection and, once a
    remote track has arrived, the audio element playing it. *)
Record PeerConnection := {
  connection : nat;
  audioElement : option nat
}.

(** What the teardown code does to the browser objects. *)
Inductive Effect :=
  | TrackStop (track : nat)
  | ConnectionClose (conn : nat)
  | AudioRemove (el : nat).

(** The component's state: the tracks of [localStreamRef.current], the
    [peersRef.current] map in insertion order, [connectedUsers] and
    [isMicEnabled]. *)
Record State := {
  localStream : option (list nat);
  peers : list (string * PeerConnection);
  connectedUsers : list string;
  isMicEnabled : bool
}.

(** [peers.get(k)] and [peers.delete(k)]. *)
Fixpoint get (k : string) (l : list (string * PeerConnection)) : option PeerConnection :=
  match l with
  | [] => None
  | (k', p) :: rest => if decide (k' = k) then Some p else get k rest
  end.

Definition delete (k : string) (l : list (string * PeerConnection))
    : list (string * PeerConnection) :=
  filter (fun e => e.1 ≠ k) l.

(** [localStreamRef.current.getTracks().forEach(track => track.stop())]. *)
Definition stop_tracks (st : State) : list Effect :=
  match localStream st with
  | Some tracks => TrackStop <$> tracks
  | None => []
  end.

(** [peer.connection.close(); if (peer.audioElement) peer.audioElement.remove()]. *)
Definition close_peer (p : PeerConnection) : list Effect :=
  ConnectionClose (connection p) ::
  match audioElement p with
  | Some el => [AudioRemove el]
  | None => []
  end.

(** [handleUserLeft(data)], with [userId] the [data.userId]. *)
Definition handleUserLeft (userId : string) (st : State) : State * list Effect :=
  match get userId (peers st) with
  | Some peer =>
      ({| localStream := localStream st;
          peers := delete userId (peers st);
          connectedUsers := filter (fun id => id ≠ userId) (connectedUsers st);
          isMicEnabled := isMicEnabled st |},
       close_peer peer)
  | None => (st, [])
  end.

(** The loop of [cleanup]:
    [peers.forEach(peer => { peer.connection.close(); peer.audioElement.remove(); })].
    Reading [remove] of an undefined audio element throws, which ends the
    loop; the result says whether it threw. *)
Fixpoint close_all_unguarded (l : list (string * PeerConnection)) : bool * list Effect :=
  match l with
  | [] => (false, [])
  | (_, p) :: rest =>
      match audioElement p with
      | Some el =>
          let '(threw, es) := close_all_unguarded rest in
          (threw, ConnectionClose (connection p) :: AudioRemove el :: es)
      | None => (true, [ConnectionClose (connection p)])
      end
  end.

(** [cleanup()], run when the component unmounts or the room changes. *)
Definition cleanup (st : State) : outcome unit * State * list Effect :=
  let '(threw, es) := close_all_unguarded (peers st) in
  if threw then (Thrown "TypeError", st, stop_tracks st ++ es)
  else (Ok tt,
        {| localStream := localStream st; peers := [];
           connectedUsers := connectedUsers st; isMicEnabled := isMicEnabled st |},
        stop_tracks st ++ es).

(** The branch of [toggleMicrophone] taken while the microphone is on. *)
Definition disableMicrophone (st : State) : State * list Effect :=
  ({| localStream := None; peers := []; connectedUsers := [];
      isMicEnabled := false |},
   stop_tracks st ++ concat (close_peer <$> (snd <$> peers st))).

(** [toggleMicrophone()], with [media] the outcome of
    [navigator.mediaDevices.getUserMedia] ([None]: it rejects, and the
    [catch] leaves the state as it is).  Enabling only stores the stream;
    the [voice-ready] signal follows from a timer. *)
Definition toggleMicrophone (media : option (list nat)) (st : State) : State * list Effect :=
  if isMicEnabled st then disableMicrophone st
  else match media with
       | Some stream =>
           ({| localStream := Some stream; peers := peers st;
               connectedUsers := connectedUsers st; isMicEnabled := true |}, [])
       | None => (st, [])
       end.

End VoiceChat.

(* --------------------------------------------------------------------- *)
(* 8g. The summary route (backend/routes/ai.routes.js)                    *)
(* --------------------------------------------------------------------- *)

Module AiRoutes.

(** How [axios.post] to the summary service ends: it resolves with
    [response.data], or rejects with an error whose
    [error.response?.data?.error] and [error.message] are given
    ([VUndef] where absent). *)
Inductive Upstream :=
  | Resolved (data : JsVal)
  | Rejected (response_data_error message : JsVal).

(** What the handler sends back: [res.json(data)] with status 200, or
    [res.status(code).json({ error })]. *)
Inductive Reply :=
  | Json (data : JsVal)
  | Error (code : nat) (error : JsVal).

Definition status (r : Reply) : nat :=
  match r with
  | Json _ => 200
  | Error code _ => code
  end.

(** The handler of [POST /summarize], after the [verifyJWT] and upload
    middlewares: [file] is [req.file], [upstream] what the request to the
    summary service would end in.  The result says whether that request
    was made. *)
Definition summarize (file : option nat) (upstream : Upstream) : Reply * bool :=
  match file with
  | None => (Error 400 (VStr "No file uploaded"), false)
  | Some _ =>
      match upstream with
      | Resolved data => (Json data, true)
      | Rejected response_data_error message =>
          (Error 500 (js_or response_data_error
                        (js_or message (VStr "Failed to generate summary"))),
           true)
      end
  end.

End AiRoutes.

(* --------------------------------------------------------------------- *)
(* 9. Lemmas on the transport and the monad                              *)
(* --------------------------------------------------------------------- *)

Lemma inbox_app (ds1 ds2 : list Delivery) (d : nat) :
  inbox (ds1 ++ ds2) d = inbox ds1 d ++ inbox ds2 d.
Proof. unfold inbox. by rewrite filter_app, fmap_app. Qed.

Lemma inbox_nil (d : nat) : inbox [] d = [].
Proof. reflexivity. Qed.

Lemma inbox_fanout_notin (l : list nat) (ev : string) (p : Payload) (d : nat) :
  d ∉ l → inbox (fanout l ev p) d = [].
Proof.
  induction l as [|x l IH]; intros Hd; [reflexivity|].
  apply not_elem_of_cons in Hd as [Hne Hd].
  unfold inbox, fanout in *. cbn [fmap list_fmap].
  rewrite filter_cons_False by (cbn; congruence). by apply IH.
Qed.

Lemma inbox_fanout_NoDup (l : list nat) (ev : string) (p : Payload) (d : nat) :
  NoDup l →
  inbox (fanout l ev p) d = if decide (d ∈ l) then [(ev, p)] else [].
Proof.
  induction 1 as [|x l Hx Hnd IH].
  - by rewrite decide_False by set_solver.
  - destruct (decide (x = d)) as [->|Hne].
    + rewrite decide_True by set_solver.
      change (fanout (d :: l) ev p)
        with ({| dl_dest := d; dl_event := ev; dl_payload := p |} :: fanout l ev p).
      unfold inbox. rewrite filter_cons_True by reflexivity.
      cbn [fmap list_fmap dl_event dl_payload]. f_equal.
      by apply inbox_fanout_notin.
    + change (fanout (x :: l) ev p)
        with ({| dl_dest := x; dl_event := ev; dl_payload := p |} :: fanout l ev p).
      unfold inbox. rewrite filter_cons_False by (cbn; congruence).
      fold (inbox (fanout l ev p) d). rewrite IH.
      destruct (decide (d ∈ l)) as [Hin|Hin].
      * rewrite decide_True by set_solver. reflexivity.
      * rewrite decide_False by set_solver. reflexivity.
Qed.

(** A room broadcast reaches each target exactly once. *)
Lemma inbox_fanout_set (S : gset nat) (ev : string) (p : Payload) (d : nat) :
  inbox (fanout (elements S) ev p) d = if decide (d ∈ S) then [(ev, p)] else [].
Proof.
  rewrite inbox_fanout_NoDup by apply NoDup_elements.
  destruct (decide (d ∈ S)) as [Hin|Hin].
  - rewrite decide_True by (by apply elem_of_elements). reflexivity.
  - rewrite decide_False by (by rewrite elem_of_elements). reflexivity.
Qed.

Lemma inbox_error_to (sid : nat) (msg : string) (d : nat) :
  inbox [error_to sid msg] d = if decide (d = sid) then [("error", PError msg)] else [].
Proof.
  unfold inbox, error_to.
  destruct (decide (d = sid)) as [->|Hne].
  - rewrite filter_cons_True by reflexivity. reflexivity.
  - rewrite filter_cons_False by (cbn; congruence). reflexivity.
Qed.

(** Unfolding the monad's operations. *)
Ltac unfold_monad :=
  unfold post, sent, value, mbind, M_bind, bind, mret, M_ret, ret, throw,
    try_catch, socket_emit, socket_to_emit, io_to_emit in *.

Lemma await_ok {A} (op : Db → A * Db) (w : World) :
  next_fault w = false →
  await op w = (Ok (op (db w)).1, set_db (op (db w)).2 (consume w), []).
Proof. intros H. unfold await. rewrite H. by destruct (op (db w)). Qed.

Lemma await_throws {A} (op : Db → A * Db) (w : World) :
  next_fault w = true →
  await op w = (Thrown "store error", consume w, []).
Proof. intros H. unfold await. by rewrite H. Qed.

(** One [await]: either the store call throws or it returns. *)
Ltac step_await :=
  match goal with
  | |- context [await ?op ?w] =>
      let Hf := fresh "Hfault" in
      destruct (next_fault w) eqn:Hf;
      [rewrite (await_throws op w Hf) | rewrite (await_ok op w Hf)]; cbn
  end.

(* --------------------------------------------------------------------- *)
(* 10. The four ways a join-room request ends                            *)
(* --------------------------------------------------------------------- *)

Lemma on_join_room_throws sid s rc w :
  next_fault w = true →
  on_join_room sid s rc w = (Ok tt, consume w, [error_to sid "Failed to join room"]).
Proof.
  intros Hf. unfold on_join_room. unfold_monad. rewrite (await_throws _ _ Hf). reflexivity.
Qed.

Lemma on_join_room_not_found sid s rc w :
  next_fault w = false → db_rooms (db w) !! rc = None →
  on_join_room sid s rc w = (Ok tt, consume w, [error_to sid "Room not found"]).
Proof.
  intros Hf Hr. unfold on_join_room. unfold_monad. rewrite (await_ok _ _ Hf). cbn.
  rewrite Hr. reflexivity.
Qed.

Lemma on_join_room_denied sid s rc w room :
  next_fault w = false → db_rooms (db w) !! rc = Some room →
  sock_userId s ∉ room_participants room →
  on_join_room sid s rc w = (Ok tt, consume w, [error_to sid "Access denied"]).
Proof.
  intros Hf Hr Hp. unfold on_join_room. unfold_monad. rewrite (await_ok _ _ Hf). cbn.
  rewrite Hr. rewrite bool_decide_eq_false_2 by done. reflexivity.
Qed.

Lemma on_join_room_ok sid s rc w room :
  next_fault w = false → db_rooms (db w) !! rc = Some room →
  sock_userId s ∈ room_participants room →
  on_join_room sid s rc w =
    (Ok tt,
     set_sockets (alter (with_roomCode rc) sid)
       (set_adapter (insert rc ({[sid]} ∪ members w rc)) (consume w)),
     fanout (elements (members w rc ∖ {[sid]})) "user-joined"
       (PUserJoined (sock_userId s) (user_username (sock_user s)) (user_avatar (sock_user s)))).
Proof.
  intros Hf Hr Hp. unfold on_join_room. unfold_monad. rewrite (await_ok _ _ Hf). cbn.
  rewrite Hr. rewrite bool_decide_eq_true_2 by done. cbn.
  f_equal. unfold members at 1. cbn. rewrite lookup_insert_eq. cbn.
  fold (members w rc).
  replace (({[sid]} ∪ members w rc) ∖ {[sid]}) with (members w rc ∖ {[sid]}) by set_solver.
  reflexivity.
Qed.

(** While the socket is connected and nothing else runs in between, the
    room the chat listener reads for its broadcast is the room it looked
    up. *)
Lemma on_chat_message_connected (w : World) (sid : nat) (s : Socket) (rc text : string) :
  sockets w !! sid = Some s →
  sock_roomCode s = Some rc →
  truthy (Some rc) = true →
  on_chat_message sid s text w =
    try_catch
      (room ← await (Room_findOne rc);
       match room with
       | None => socket_emit sid "error" (PError "Room not found")
       | Some room =>
           chatMessage ← await (Chat_create (room__id room) (sock_userId s) text);
           populatedMessage ← await (Chat_findById_populate chatMessage);
           match populatedMessage with
           | None => throw "TypeError"
           | Some pm => io_to_emit rc "chat-message" (PChat pm)
           end
       end)
      (fun _ => socket_emit sid "error" (PError "Failed to send message")) w.
Proof.
  intros Hs Hrc Ht. unfold on_chat_message. rewrite Hrc, Ht. unfold_monad.
  step_await; [done|]. destruct (db_rooms (db w) !! rc); [|done].
  step_await; [done|]. step_await; [done|].
  rewrite lookup_insert_eq. cbn. unfold read_roomCode. cbn. rewrite Hs. cbn.
  by rewrite Hrc.
Qed.

(** A relay-only listener leaves the state as it is, whether it relays,
    returns at the guard or throws on its argument. *)
Lemma relay_to_peers_post (sid : nat) (s : Socket) (ev : string) (p : Payload)
    (w : World) :
  (relay_to_peers sid s ev p w).1.2 = w.
Proof.
  unfold relay_to_peers.
  destruct (sock_roomCode s) as [rc|]; [destruct (truthy (Some rc))|]; reflexivity.
Qed.

Lemma relay_field_post (sid : nat) (s : Socket) (ev : string) (data : option JsObj)
    (k : string) (payload : JsVal → Payload) (w : World) :
  (relay_field sid s ev data k payload w).1.2 = w.
Proof.
  unfold relay_field.
  destruct (sock_roomCode s) as [rc|]; [destruct (truthy (Some rc))|]; try reflexivity.
  by destruct data.
Qed.

(** Only [join-room] touches the connected sockets and the adapter. *)
Lemma handle_frame sid ev w :
  room_scoped ev = true →
  sockets (post (handleConnection sid ev) w) = sockets w ∧
  adapter (post (handleConnection sid ev) w) = adapter w.
Proof.
  intros Hev. unfold post, handleConnection.
  destruct (sockets w !! sid) as [s|] eqn:Hs; [|done].
  destruct ev; try discriminate;
    unfold on_voice_toggle, on_voice_ready, on_webrtc_offer, on_webrtc_answer,
      on_webrtc_ice_candidate;
    rewrite ?relay_to_peers_post, ?relay_field_post; try done.
  - unfold on_drawing_update.
    destruct (sock_roomCode s) as [rc|]; [destruct (truthy (Some rc))|]; try done.
    unfold_monad. cbn. case_bool_decide; [|done].
    step_await; [done|]. destruct (db_rooms (db w) !! rc); [|done].
    step_await; [done|]. destruct (db_boards (db w) !! _); [|done].
    step_await; done.
  - destruct (sock_roomCode s) as [rc|] eqn:Hrc; [|by unfold on_chat_message; rewrite Hrc].
    destruct (truthy (Some rc)) eqn:Ht; [|by unfold on_chat_message; rewrite Hrc, Ht].
    rewrite (on_chat_message_connected w sid s rc text Hs Hrc Ht).
    unfold_monad. step_await; [done|]. destruct (db_rooms (db w) !! rc); [|done].
    step_await; [done|]. step_await; [done|].
    rewrite lookup_insert_eq. done.
Qed.
(* --------------------------------------------------------------------- *)
(* 11. Claims on joining a room                                          *)
(* --------------------------------------------------------------------- *)

(** C2: A join-room request for a room code that does not exist, or from an
    identity outside the room's authorized participants, sends one error
    event to the requesting session and to nobody else, leaves the live
    room membership unchanged, emits no user-joined notice, and keeps the
    connection open (the connected sockets, the requester among them, are
    as before).  Without a store failure the error says "Room not found",
    respectively "Access denied". *)
Theorem join_room_rejected (w : World) (sid : nat) (s : Socket) (roomCode : string) :
  sockets w !! sid = Some s →
  (db_rooms (db w) !! roomCode = None ∨
   ∃ room, db_rooms (db w) !! roomCode = Some room ∧
           sock_userId s ∉ room_participants room) →
  let w' := post (handleConnection sid (JoinRoom roomCode)) w in
  let ds := sent (handleConnection sid (JoinRoom roomCode)) w in
  (∃ msg, ds = [error_to sid msg] ∧
          (next_fault w = false →
           msg = match db_rooms (db w) !! roomCode with
                 | Some _ => "Access denied"
                 | None => "Room not found"
                 end)) ∧
  (∀ d, d ≠ sid → inbox ds d = []) ∧
  adapter w' = adapter w ∧
  (∀ rc, members w' rc = members w rc) ∧
  sockets w' = sockets w.
Proof.
  intros Hs Hrej w' ds.
  assert (∃ msg, handleConnection sid (JoinRoom roomCode) w = (Ok tt, consume w, [error_to sid msg]) ∧
                 (next_fault w = false →
                  msg = match db_rooms (db w) !! roomCode with
                        | Some _ => "Access denied"
                        | None => "Room not found"
                        end)) as (msg & Hrun & Hmsg).
  { unfold handleConnection. rewrite Hs.
    destruct (next_fault w) eqn:Hf.
    - eexists. split; [by apply on_join_room_throws | done].
    - destruct Hrej as [Hnone | (room & Hroom & Hnot)].
      + eexists. split; [by apply on_join_room_not_found |]. by rewrite Hnone.
      + eexists. split; [by eapply on_join_room_denied |]. by rewrite Hroom. }
  subst w' ds. unfold post, sent. rewrite Hrun. cbn [fst snd].
  split; [by exists msg|]. repeat split; try done.
  intros d Hd. rewrite inbox_error_to. by rewrite decide_False.
Qed.

Lemma join_room_rejected_witness :
  sent (handleConnection 3 (JoinRoom "ROOM42")) w_demo = [error_to 3 "Access denied"] ∧
  adapter (post (handleConnection 3 (JoinRoom "ROOM42")) w_demo) = adapter w_demo.
Proof.
  pose proof (join_room_rejected w_demo 3 (connected carol None) "ROOM42") as H.
  cbv zeta in H.
  destruct H as (_ & _ & Had & _).
  - vm_compute. reflexivity.
  - right. eexists. split; [vm_compute; reflexivity|]. compute_done.
  - split; [vm_compute; reflexivity | exact Had].
Defined.

(** C3: A successful join-room by an authorized session records the room
    code on the session, adds the session to the room's live membership,
    and delivers one user-joined notice with the joiner's userId, username
    and avatar to every other session in that room, and nothing to anyone
    else; the joining session receives nothing. *)
Theorem join_room_success (w : World) (sid : nat) (s : Socket) (roomCode : string)
    (room : RoomDoc) :
  sockets w !! sid = Some s →
  next_fault w = false →
  db_rooms (db w) !! roomCode = Some room →
  sock_userId s ∈ room_participants room →
  let w' := post (handleConnection sid (JoinRoom roomCode)) w in
  let ds := sent (handleConnection sid (JoinRoom roomCode)) w in
  sockets w' !! sid = Some (with_roomCode roomCode s) ∧
  sock_roomCode (with_roomCode roomCode s) = Some roomCode ∧
  members w' roomCode = {[sid]} ∪ members w roomCode ∧
  (∀ d, inbox ds d =
          if decide (d ∈ members w' roomCode ∖ {[sid]})
          then [("user-joined",
                 PUserJoined (sock_userId s) (user_username (sock_user s))
                             (user_avatar (sock_user s)))]
          else []) ∧
  inbox ds sid = [].
Proof.
  intros Hs Hf Hroom Hp w' ds. subst w' ds. unfold post, sent, handleConnection.
  rewrite Hs, (on_join_room_ok sid s roomCode w room Hf Hroom Hp). cbn [fst snd].
  assert (members
            (set_sockets (alter (with_roomCode roomCode) sid)
               (set_adapter (insert roomCode ({[sid]} ∪ members w roomCode)) (consume w)))
            roomCode = {[sid]} ∪ members w roomCode) as Hmem.
  { unfold members at 1. cbn. by rewrite lookup_insert_eq. }
  rewrite Hmem.
  assert (∀ d, inbox
                 (fanout (elements (members w roomCode ∖ {[sid]})) "user-joined"
                    (PUserJoined (sock_userId s) (user_username (sock_user s))
                       (user_avatar (sock_user s)))) d =
               if decide (d ∈ ({[sid]} ∪ members w roomCode) ∖ {[sid]})
               then [("user-joined",
                      PUserJoined (sock_userId s) (user_username (sock_user s))
                        (user_avatar (sock_user s)))]
               else []) as Hin.
  { intros d. rewrite inbox_fanout_set.
    destruct (decide (d ∈ members w roomCode ∖ {[sid]})) as [Hd|Hd].
    - rewrite decide_True by set_solver. reflexivity.
    - rewrite decide_False by set_solver. reflexivity. }
  repeat split.
  - cbn. by rewrite lookup_alter_eq, Hs.
  - exact Hin.
  - rewrite Hin. rewrite decide_False by set_solver. reflexivity.
Qed.

Lemma join_room_success_witness :
  sockets (post (handleConnection 1 (JoinRoom "ROOM99")) w_demo) !! 1 =
    Some (connected alice (Some "ROOM99")) ∧
  inbox (sent (handleConnection 1 (JoinRoom "ROOM99")) w_demo) 4 =
    [("user-joined", PUserJoined "u1" "alice" (Some "alice.png"))].
Proof.
  pose proof (join_room_success w_demo 1 (connected alice (Some "ROOM42")) "ROOM99"
                {| room__id := 9; room_roomId := "ROOM99";
                   room_participants := ["u1"; "u4"] |}) as H.
  cbv zeta in H.
  destruct H as (Hsock & _ & _ & Hin & _).
  - vm_compute. reflexivity.
  - vm_compute. reflexivity.
  - vm_compute. reflexivity.
  - compute_done.
  - split; [exact Hsock|]. rewrite (Hin 4). vm_compute. reflexivity.
Defined.

(** C10: A failed join-room attempt leaves the session's own state alone.
    For a session joined to room A whose request for room B fails (the
    store throws, B does not exist, or the identity is not authorized for
    B), the recorded room code is still A afterwards, the connected
    sockets, the live membership and the store are unchanged, and every
    later event of any session is handled exactly as it would have been
    before the attempt, under the same outcomes of the store calls; a
    relay-only event of the session still goes to A's other members. *)
Theorem join_room_failure_atomic (w : World) (sid : nat) (s : Socket) (A B : string) :
  sockets w !! sid = Some s →
  sock_roomCode s = Some A →
  (next_fault w = true ∨
   db_rooms (db w) !! B = None ∨
   ∃ room, db_rooms (db w) !! B = Some room ∧
           sock_userId s ∉ room_participants room) →
  let w' := post (handleConnection sid (JoinRoom B)) w in
  (∃ s', sockets w' !! sid = Some s' ∧ sock_roomCode s' = Some A) ∧
  sockets w' = sockets w ∧ adapter w' = adapter w ∧ db w' = db w ∧
  (∀ sid' ev fs,
     handleConnection sid' ev (set_faults fs w') = handleConnection sid' ev (set_faults fs w)) ∧
  (truthy (Some A) = true →
   sent (handleConnection sid VoiceReady) w' =
     fanout (elements (members w A ∖ {[sid]})) "voice-ready"
       (PVoiceReady (sock_userId s) (user_username (sock_user s)))).
Proof.
  intros Hs HA Hfail w'.
  assert (w' = consume w) as Hw'.
  { subst w'. unfold post, handleConnection. rewrite Hs.
    destruct (next_fault w) eqn:Hf.
    - by rewrite on_join_room_throws.
    - destruct Hfail as [?|[Hnone|(room & Hroom & Hnot)]]; [done| |].
      + by rewrite on_join_room_not_found.
      + by erewrite on_join_room_denied. }
  rewrite Hw'. repeat split; try done.
  - exists s. by split.
  - intros Ht. unfold sent, handleConnection. cbn [sockets consume set_faults]. rewrite Hs.
    unfold on_voice_ready, relay_to_peers. rewrite HA, Ht. reflexivity.
Qed.

Lemma join_room_failure_atomic_witness :
  sockets (post (handleConnection 2 (JoinRoom "ROOM99")) w_demo) = sockets w_demo ∧
  sent (handleConnection 2 VoiceReady) (post (handleConnection 2 (JoinRoom "ROOM99")) w_demo) =
    fanout [1] "voice-ready" (PVoiceReady "u2" "bob").
Proof.
  pose proof (join_room_failure_atomic w_demo 2 (connected bob (Some "ROOM42"))
                "ROOM42" "ROOM99") as H.
  cbv zeta in H.
  destruct H as (_ & Hsock & _ & _ & _ & Hrelay).
  - vm_compute. reflexivity.
  - reflexivity.
  - right. right. eexists. split; [vm_compute; reflexivity | compute_done].
  - split; [exact Hsock|]. rewrite Hrelay by reflexivity. vm_compute. reflexivity.
Defined.

(** C6: A room-scoped event (drawing-update, chat-message, voice-toggle,
    voice-ready, webrtc-offer, webrtc-answer, webrtc-ice-candidate) of a
    session without an active room is dropped: the handler returns at
    once, sends nothing to anybody (no broadcast, no error), and leaves the
    whole server state, the store and its pending calls included, as it
    was. *)
Theorem no_active_room_event_dropped (w : World) (sid : nat) (s : Socket)
    (ev : ClientEvent) :
  sockets w !! sid = Some s →
  truthy (sock_roomCode s) = false →
  room_scoped ev = true →
  handleConnection sid ev w = (Ok tt, w, []) ∧
  sent (handleConnection sid ev) w = [] ∧
  post (handleConnection sid ev) w = w ∧
  db (post (handleConnection sid ev) w) = db w.
Proof.
  intros Hs Hno Hev.
  assert (handleConnection sid ev w = (Ok tt, w, [])) as Hrun.
  { unfold handleConnection. rewrite Hs.
    destruct ev; try discriminate;
      unfold on_drawing_update, on_chat_message, on_voice_toggle, on_voice_ready,
        on_webrtc_offer, on_webrtc_answer, on_webrtc_ice_candidate, relay_to_peers,
        relay_field;
      destruct (sock_roomCode s) as [rc|]; try rewrite Hno; reflexivity. }
  unfold sent, post. rewrite Hrun. done.
Qed.

Lemma no_active_room_event_dropped_witness :
  handleConnection 3 (ChatMessage "hello") w_demo = (Ok tt, w_demo, []) ∧
  handleConnection 3 (DrawingUpdate {[ "type" := VStr "clear" ]}) w_demo = (Ok tt, w_demo, []).
Proof.
  split.
  - apply (no_active_room_event_dropped w_demo 3 (connected carol None)
             (ChatMessage "hello")); reflexivity.
  - apply (no_active_room_event_dropped w_demo 3 (connected carol None)
             (DrawingUpdate {[ "type" := VStr "clear" ]})); reflexivity.
Defined.

(** C9, as the code has it: a session has one recorded room code at a
    time.  When a session joined to room A successfully joins a different
    room B, its recorded room code becomes B and it is a live member of B,
    so its relay-only events go to B's other members; it stays in A's live
    membership, so an event relayed in A by another member of A still
    reaches it; and the join sends nothing but user-joined notices to
    members of B: A's peers get no leave notice. *)
Theorem room_switch_overwrites_room_code (w : World) (sid : nat) (s : Socket)
    (A B : string) (room : RoomDoc) :
  joined_in_room w →
  sockets w !! sid = Some s →
  sock_roomCode s = Some A →
  A ≠ B →
  next_fault w = false →
  db_rooms (db w) !! B = Some room →
  sock_userId s ∈ room_participants room →
  let w' := post (handleConnection sid (JoinRoom B)) w in
  let ds := sent (handleConnection sid (JoinRoom B)) w in
  (∃ s', sockets w' !! sid = Some s' ∧ sock_roomCode s' = Some B) ∧
  sid ∈ members w' B ∧
  sid ∈ members w' A ∧
  members w' A = members w A ∧
  (∀ d, d ∉ members w B → inbox ds d = []) ∧
  (∀ d, inbox ds d = [] ∨
        inbox ds d = [("user-joined",
                       PUserJoined (sock_userId s) (user_username (sock_user s))
                                   (user_avatar (sock_user s)))]) ∧
  (truthy (Some B) = true →
   sent (handleConnection sid VoiceReady) w' =
     fanout (elements (members w' B ∖ {[sid]})) "voice-ready"
       (PVoiceReady (sock_userId s) (user_username (sock_user s)))) ∧
  (∀ sid2 s2, sid2 ≠ sid → sockets w !! sid2 = Some s2 →
     sock_roomCode s2 = Some A → truthy (Some A) = true →
     inbox (sent (handleConnection sid2 VoiceReady) w') sid =
       [("voice-ready", PVoiceReady (sock_userId s2) (user_username (sock_user s2)))]).
Proof.
  intros Hwf Hs HA Hne Hf Hroom Hp w' ds.
  assert (sid ∈ members w A) as HinA.
  { specialize (Hwf sid s Hs). cbn in Hwf. by rewrite HA in Hwf. }
  assert (handleConnection sid (JoinRoom B) w =
            (Ok tt,
             set_sockets (alter (with_roomCode B) sid)
               (set_adapter (insert B ({[sid]} ∪ members w B)) (consume w)),
             fanout (elements (members w B ∖ {[sid]})) "user-joined"
               (PUserJoined (sock_userId s) (user_username (sock_user s))
                  (user_avatar (sock_user s))))) as Hrun.
  { unfold handleConnection. rewrite Hs. by apply on_join_room_ok with room. }
  assert (members w' B = {[sid]} ∪ members w B) as HmB.
  { subst w'. unfold post. rewrite Hrun. unfold members at 1. cbn.
    by rewrite lookup_insert_eq. }
  assert (members w' A = members w A) as HmA.
  { subst w'. unfold post. rewrite Hrun. unfold members at 1. cbn.
    by rewrite lookup_insert_ne. }
  assert (∀ sid0, sockets w' !! sid0 = alter (with_roomCode B) sid (sockets w) !! sid0) as Hsock.
  { intros sid0. subst w'. unfold post. by rewrite Hrun. }
  assert (ds = fanout (elements (members w B ∖ {[sid]})) "user-joined"
                 (PUserJoined (sock_userId s) (user_username (sock_user s))
                    (user_avatar (sock_user s)))) as Hds.
  { subst ds. unfold sent. by rewrite Hrun. }
  split; [|split; [|split; [|split; [|split; [|split; [|split]]]]]].
  - exists (with_roomCode B s). rewrite Hsock, lookup_alter_eq, Hs. done.
  - rewrite HmB. set_solver.
  - by rewrite HmA.
  - exact HmA.
  - intros d Hd. rewrite Hds, inbox_fanout_set. rewrite decide_False by set_solver. done.
  - intros d. rewrite Hds, inbox_fanout_set. case_decide; [by right | by left].
  - intros Ht. unfold sent, handleConnection. rewrite Hsock, lookup_alter_eq, Hs. cbn [fmap option_fmap option_map].
    unfold on_voice_ready, relay_to_peers. cbn [sock_roomCode with_roomCode].
    rewrite Ht. reflexivity.
  - intros sid2 s2 Hne2 Hs2 HA2 Ht. unfold sent, handleConnection.
    rewrite Hsock, lookup_alter_ne, Hs2 by done.
    unfold on_voice_ready, relay_to_peers. rewrite HA2, Ht.
    unfold socket_to_emit. cbn [snd]. rewrite inbox_fanout_set, HmA.
    rewrite decide_True by set_solver. reflexivity.
Qed.

Lemma room_switch_overwrites_room_code_witness :
  1 ∈ members (post (handleConnection 1 (JoinRoom "ROOM99")) w_demo) "ROOM42" ∧
  inbox (sent (handleConnection 1 (JoinRoom "ROOM99")) w_demo) 2 = [].
Proof.
  pose proof (room_switch_overwrites_room_code w_demo 1 (connected alice (Some "ROOM42"))
                "ROOM42" "ROOM99"
                {| room__id := 9; room_roomId := "ROOM99";
                   room_participants := ["u1"; "u4"] |}) as H.
  cbv zeta in H.
  destruct H as (_ & _ & HinA & _ & Hnone & _).
  - compute_done.
  - vm_compute. reflexivity.
  - reflexivity.
  - compute_done.
  - reflexivity.
  - vm_compute. reflexivity.
  - compute_done.
  - split; [exact HinA|]. apply Hnone. compute_done.
Defined.

(** C9 as stated fails: alice (socket 1), joined to ROOM42 with bob
    (socket 2), successfully joins ROOM99.  Afterwards she is a live member
    of both rooms, bob has received no leave notice, and an event bob
    relays in ROOM42 still reaches her. *)
Lemma room_switch_leaves_no_room :
  let w' := post (handleConnection 1 (JoinRoom "ROOM99")) w_demo in
  sock_roomCode <$> sockets w' !! 1 = Some (Some "ROOM99") ∧
  1 ∈ members w' "ROOM99" ∧
  1 ∈ members w' "ROOM42" ∧
  inbox (sent (handleConnection 1 (JoinRoom "ROOM99")) w_demo) 2 = [] ∧
  inbox (sent (handleConnection 2 VoiceReady) w') 1 = [("voice-ready", PVoiceReady "u2" "bob")].
Proof.
  cbv zeta. split; [vm_compute; reflexivity|].
  split; [compute_done|]. split; [compute_done|].
  split; vm_compute; reflexivity.
Qed.

(* --------------------------------------------------------------------- *)
(* 12. Claims on disconnecting and on authentication                     *)
(* --------------------------------------------------------------------- *)

Lemma members_after_leave (sid : nat) (w : World) (rc : string) :
  members (set_sockets (delete sid)
             (set_adapter (fmap (fun S : gset nat => S ∖ {[sid]})) w)) rc =
    members w rc ∖ {[sid]}.
Proof.
  unfold members. cbn. rewrite lookup_fmap.
  destruct (adapter w !! rc); cbn; [reflexivity | set_solver].
Qed.

Lemma disconnect_post (w : World) (sid : nat) (s : Socket) :
  sockets w !! sid = Some s →
  post (disconnect sid) w =
    set_sockets (delete sid) (set_adapter (fmap (fun S : gset nat => S ∖ {[sid]})) w).
Proof.
  intros Hs. unfold post, disconnect. rewrite Hs.
  unfold_monad. unfold leave_all, drop_socket, on_disconnect. cbn [fst snd].
  destruct (sock_roomCode s) as [rc0|]; [destruct (truthy (Some rc0))|]; reflexivity.
Qed.

Lemma disconnect_sent (w : World) (sid : nat) (s : Socket) :
  sockets w !! sid = Some s →
  sent (disconnect sid) w =
    match sock_roomCode s with
    | Some rc =>
        if truthy (Some rc)
        then fanout (elements (members (post (disconnect sid) w) rc ∖ {[sid]}))
               "user-left" (PUserLeft (sock_userId s) (user_username (sock_user s)))
        else []
    | None => []
    end.
Proof.
  intros Hs. rewrite (disconnect_post w sid s Hs).
  unfold sent, disconnect. rewrite Hs.
  unfold_monad. unfold leave_all, drop_socket, on_disconnect. cbn [fst snd].
  destruct (sock_roomCode s) as [rc0|]; [destruct (truthy (Some rc0))|]; reflexivity.
Qed.

(** C8: When a session that recorded a room disconnects, every session
    remaining in that room receives exactly one user-left notice with the
    departing session's userId and username, and nobody else receives
    anything; a session that never recorded a room causes no notice at
    all.  The departing session is removed from the connected sockets and
    from the room. *)
Theorem disconnect_notifies_room (w : World) (sid : nat) (s : Socket) :
  sockets w !! sid = Some s →
  let w' := post (disconnect sid) w in
  let ds := sent (disconnect sid) w in
  sockets w' !! sid = None ∧
  (∀ rc, members w' rc = members w rc ∖ {[sid]}) ∧
  (∀ rc, sock_roomCode s = Some rc → truthy (Some rc) = true →
     ∀ d, inbox ds d =
            if decide (d ∈ members w' rc)
            then [("user-left",
                   PUserLeft (sock_userId s) (user_username (sock_user s)))]
            else []) ∧
  (truthy (sock_roomCode s) = false → ds = []).
Proof.
  intros Hs w' ds.
  assert (∀ rc, members w' rc = members w rc ∖ {[sid]}) as Hmem.
  { intros rc. subst w'. rewrite (disconnect_post w sid s Hs). apply members_after_leave. }
  split; [|split; [exact Hmem|split]].
  - subst w'. rewrite (disconnect_post w sid s Hs). apply lookup_delete_eq.
  - intros rc Hrc Ht d. subst ds. rewrite (disconnect_sent w sid s Hs), Hrc, Ht.
    rewrite inbox_fanout_set. fold w'. rewrite Hmem.
    destruct (decide (d ∈ members w rc ∖ {[sid]})) as [Hd|Hd].
    + rewrite decide_True by set_solver. reflexivity.
    + rewrite decide_False by set_solver. reflexivity.
  - intros Hno. subst ds. rewrite (disconnect_sent w sid s Hs).
    destruct (sock_roomCode s) as [rc|]; [by rewrite Hno | done].
Qed.

Lemma disconnect_notifies_room_witness :
  inbox (sent (disconnect 1) w_demo) 2 = [("user-left", PUserLeft "u1" "alice")] ∧
  inbox (sent (disconnect 1) w_demo) 1 = [] ∧
  sent (disconnect 3) w_demo = [].
Proof.
  pose proof (disconnect_notifies_room w_demo 1 (connected alice (Some "ROOM42"))) as H1.
  pose proof (disconnect_notifies_room w_demo 3 (connected carol None)) as H3.
  cbv zeta in H1, H3.
  destruct H1 as (_ & _ & Hin & _); [reflexivity|].
  destruct H3 as (_ & _ & _ & Hnone); [reflexivity|].
  split; [|split].
  - rewrite (Hin "ROOM42") by reflexivity. vm_compute. reflexivity.
  - rewrite (Hin "ROOM42") by reflexivity. vm_compute. reflexivity.
  - by apply Hnone.
Defined.

(** The three ways [authenticateSocket] ends: rejected before any store
    call, rejected after the identity lookup, or accepted and tagged. *)
Lemma authenticateSocket_cases (jwt_verify : string → option string) (w : World)
    (sid : nat) (token : option string) :
  (authenticateSocket jwt_verify sid token w = (Ok (NextErr "Authentication error"), w, []) ∧
   (truthy token = false ∨ ∃ tok, token = Some tok ∧ jwt_verify tok = None))
  ∨ (authenticateSocket jwt_verify sid token w =
       (Ok (NextErr "Authentication error"), consume w, []) ∧
     ∃ tok id, token = Some tok ∧ truthy token = true ∧ jwt_verify tok = Some id ∧
               (next_fault w = true ∨ db_users (db w) !! id = None))
  ∨ (∃ tok id user,
       token = Some tok ∧ truthy token = true ∧ jwt_verify tok = Some id ∧
       next_fault w = false ∧ db_users (db w) !! id = Some user ∧
       authenticateSocket jwt_verify sid token w =
         (Ok NextOk,
          set_sockets (insert sid {| sock_userId := user__id user; sock_user := user;
                                     sock_roomCode := None |}) (consume w),
          [])).
Proof.
  unfold authenticateSocket.
  destruct token as [tok|]; [|left; split; [reflexivity | by left]].
  destruct (truthy (Some tok)) eqn:Ht; [|left; split; [reflexivity | by left]].
  unfold_monad. unfold verify_token.
  destruct (jwt_verify tok) as [id|] eqn:Hjwt; [|left; split; [reflexivity | right; eauto]].
  right. step_await.
  - left. split; [reflexivity|]. exists tok, id. eauto.
  - destruct (db_users (db w) !! id) as [user|] eqn:Hu.
    + right. exists tok, id, user. repeat split; try done.
    + left. split; [reflexivity|]. exists tok, id. eauto.
Qed.

(** C7: Authentication of a connection attempt ends in one of two ways.
    Whether the token is missing, [jwt.verify] rejects it, or the identity
    it names is not in the store (or the lookup throws), the middleware
    hands the same error "Authentication error" to [next]; the socket is
    then not tagged and not among the connected sockets, so no event
    listener runs for it.  On success the socket is tagged with the
    identity found in the store and has no room yet.  Nothing is sent to
    any client either way. *)
Theorem authentication_generic_failure (jwt_verify : string → option string)
    (w : World) (sid : nat) (token : option string) :
  let r := value (authenticateSocket jwt_verify sid token) w in
  let w' := post (authenticateSocket jwt_verify sid token) w in
  sent (authenticateSocket jwt_verify sid token) w = [] ∧
  (r = Ok NextOk ∨ r = Ok (NextErr "Authentication error")) ∧
  (truthy token = false → r = Ok (NextErr "Authentication error")) ∧
  (∀ tok, token = Some tok → jwt_verify tok = None →
          r = Ok (NextErr "Authentication error")) ∧
  (∀ tok id, token = Some tok → jwt_verify tok = Some id →
             db_users (db w) !! id = None →
             r = Ok (NextErr "Authentication error")) ∧
  (r = Ok (NextErr "Authentication error") →
   sockets w' = sockets w ∧ adapter w' = adapter w ∧ db w' = db w ∧
   (sockets w !! sid = None → ∀ ev, handleConnection sid ev w' = (Ok tt, w', []))) ∧
  (r = Ok NextOk →
   ∃ tok id user,
     token = Some tok ∧ jwt_verify tok = Some id ∧
     db_users (db w) !! id = Some user ∧
     sockets w' !! sid = Some {| sock_userId := user__id user; sock_user := user;
                                 sock_roomCode := None |}).
Proof.
  intros r w'. subst r w'. unfold value, post, sent.
  destruct (authenticateSocket_cases jwt_verify w sid token)
    as [[Hrun Hwhy] | [[Hrun Hwhy] | (tok & id & user & Htok & Ht & Hjwt & Hf & Hu & Hrun)]];
    rewrite Hrun; cbn [fst snd].
  - split; [done|]. split; [by right|]. split; [done|]. split; [done|]. split; [done|].
    split; [|done]. intros _. repeat split.
    intros Hnone ev. unfold handleConnection. by rewrite Hnone.
  - split; [done|]. split; [by right|]. split; [done|]. split; [done|]. split; [done|].
    split; [|done]. intros _. repeat split.
    intros Hnone ev. unfold handleConnection. cbn [sockets consume set_faults]. by rewrite Hnone.
  - split; [done|]. split; [by left|]. split; [congruence|].
    split; [intros tok' ? ?; congruence|].
    split; [intros tok' id' ? ? ?; simplify_eq|].
    split; [done|]. intros _. exists tok, id, user. repeat split; try done.
    cbn. apply lookup_insert_eq.
Qed.

Lemma authentication_generic_failure_witness :
  value (authenticateSocket jwt0 5 None) w_demo = Ok (NextErr "Authentication error") ∧
  value (authenticateSocket jwt0 5 (Some "forged")) w_demo =
    Ok (NextErr "Authentication error") ∧
  value (authenticateSocket jwt0 5 (Some "token-ghost")) w_demo =
    Ok (NextErr "Authentication error") ∧
  handleConnection 5 (ChatMessage "hi") (post (authenticateSocket jwt0 5 (Some "forged")) w_demo) =
    (Ok tt, post (authenticateSocket jwt0 5 (Some "forged")) w_demo, []).
Proof.
  pose proof (authentication_generic_failure jwt0 w_demo 5 None) as H1.
  pose proof (authentication_generic_failure jwt0 w_demo 5 (Some "forged")) as H2.
  pose proof (authentication_generic_failure jwt0 w_demo 5 (Some "token-ghost")) as H3.
  cbv zeta in H1, H2, H3.
  destruct H1 as (_ & _ & Hmiss & _).
  destruct H2 as (_ & _ & _ & Hbad & _ & Hfail & _).
  destruct H3 as (_ & _ & _ & _ & Hghost & _).
  split; [by apply Hmiss|].
  split; [by apply (Hbad "forged")|].
  split; [by apply (Hghost "token-ghost" "u9")|].
  apply Hfail; [by apply (Hbad "forged") | reflexivity].
Defined.

(* --------------------------------------------------------------------- *)
(* 13. The listeners between their store calls                           *)
(* --------------------------------------------------------------------- *)

Lemma fanout_event (l : list nat) (ev : string) (p : Payload) (x : Delivery) :
  x ∈ fanout l ev p → dl_event x = ev ∧ dl_payload x = p.
Proof.
  unfold fanout. intros Hx. apply list_elem_of_fmap in Hx as (d & -> & _). done.
Qed.

(** How each store call of the chat listener ends. *)
Lemma resume_chat_room_find (w : World) (sid : nat) (s : Socket) (rc text : string) :
  resume (ChatRoomFind sid s rc text) w =
    if next_fault w then (Ok None, consume w, [error_to sid "Failed to send message"])
    else match db_rooms (db w) !! rc with
         | Some room => (Ok (Some (ChatCreate sid s room text)), consume w, [])
         | None => (Ok None, consume w, [error_to sid "Room not found"])
         end.
Proof.
  cbn [resume]. unfold reported. unfold_monad. step_await; [done|].
  by destruct (db_rooms (db w) !! rc).
Qed.

Lemma resume_chat_create (w : World) (sid : nat) (s : Socket) (room : RoomDoc)
    (text : string) :
  resume (ChatCreate sid s room text) w =
    if next_fault w then (Ok None, consume w, [error_to sid "Failed to send message"])
    else (Ok (Some (ChatPopulate sid s (fresh (dom (db_chats (db w)))))),
          set_db (Chat_create (room__id room) (sock_userId s) text (db w)).2 (consume w),
          []).
Proof. cbn [resume]. unfold reported. unfold_monad. by step_await. Qed.

Lemma resume_chat_populate (w : World) (sid : nat) (s : Socket) (id : nat) :
  resume (ChatPopulate sid s id) w =
    if next_fault w then (Ok None, consume w, [error_to sid "Failed to send message"])
    else match db_chats (db w) !! id with
         | Some row =>
             (Ok None, consume w,
              match sock_roomCode (default s (sockets w !! sid)) with
              | Some rc => fanout (elements (members w rc)) "chat-message"
                             (PChat (populate (db w) id row))
              | None => []
              end)
         | None => (Ok None, consume w, [error_to sid "Failed to send message"])
         end.
Proof.
  cbn [resume]. unfold reported. unfold_monad. step_await; [done|].
  destruct (db_chats (db w) !! id) as [row|]; [|done]. cbn.
  unfold read_roomCode. cbn.
  destruct (sock_roomCode (default s (sockets w !! sid))) as [rc|]; cbn;
    by rewrite ?app_nil_r.
Qed.

(** How each store call behind a 'clear' ends. *)
Lemma resume_clear_room_find (w : World) (sid : nat) (s : Socket) (rc : string) :
  resume (ClearRoomFind sid s rc) w =
    if next_fault w then (Ok None, consume w, [error_to sid "Failed to update drawing"])
    else (Ok (ClearBoardFind sid s <$> db_rooms (db w) !! rc), consume w, []).
Proof.
  cbn [resume]. unfold reported. unfold_monad. step_await; [done|].
  by destruct (db_rooms (db w) !! rc).
Qed.

Lemma resume_clear_board_find (w : World) (sid : nat) (s : Socket) (room : RoomDoc) :
  resume (ClearBoardFind sid s room) w =
    if next_fault w then (Ok None, consume w, [error_to sid "Failed to update drawing"])
    else (Ok (ClearBoardReset sid s <$> db_boards (db w) !! room__id room), consume w, []).
Proof.
  cbn [resume]. unfold reported. unfold_monad. step_await; [done|].
  by destruct (db_boards (db w) !! room__id room).
Qed.

Lemma resume_clear_board_reset (w : World) (sid : nat) (s : Socket) (board : BoardDoc) :
  resume (ClearBoardReset sid s board) w =
    if next_fault w then (Ok None, consume w, [error_to sid "Failed to update drawing"])
    else (Ok None, set_db (clearBoard board (sock_userId s) (db w)).2 (consume w), []).
Proof. cbn [resume]. unfold reported. unfold_monad. by step_await. Qed.

(** The join listener behind its store call, in its four ways. *)
Lemma resume_join_room_find (w : World) (sid : nat) (s : Socket) (rc : string) :
  resume (JoinRoomFind sid s rc) w =
    if next_fault w then (Ok None, consume w, [error_to sid "Failed to join room"])
    else match db_rooms (db w) !! rc with
         | None => (Ok None, consume w, [error_to sid "Room not found"])
         | Some room =>
             if bool_decide (sock_userId s ∈ room_participants room) then
               (Ok None,
                set_sockets (alter (with_roomCode rc) sid)
                  (set_adapter (insert rc ({[sid]} ∪ members w rc)) (consume w)),
                fanout (elements (members w rc ∖ {[sid]})) "user-joined"
                  (PUserJoined (sock_userId s) (user_username (sock_user s))
                     (user_avatar (sock_user s))))
             else (Ok None, consume w, [error_to sid "Access denied"])
         end.
Proof.
  cbn [resume]. unfold_monad.
  destruct (next_fault w) eqn:Hf; [by rewrite on_join_room_throws|].
  destruct (db_rooms (db w) !! rc) as [room|] eqn:Hroom;
    [|by rewrite on_join_room_not_found].
  case_bool_decide as Hp.
  - rewrite (on_join_room_ok sid s rc w room Hf Hroom Hp). by rewrite app_nil_r.
  - by erewrite on_join_room_denied.
Qed.

(** The equations above, for rewriting whatever the task is. *)
Ltac resume_cases t w :=
  destruct t as [sid s rc|sid s rc|sid s room|sid s board|sid s rc text
                |sid s room text|sid s id];
  [ rewrite (resume_join_room_find w sid s rc)
  | rewrite (resume_clear_room_find w sid s rc)
  | rewrite (resume_clear_board_find w sid s room)
  | rewrite (resume_clear_board_reset w sid s board)
  | rewrite (resume_chat_room_find w sid s rc text)
  | rewrite (resume_chat_create w sid s room text)
  | rewrite (resume_chat_populate w sid s id) ];
  destruct (next_fault w) eqn:?Hf.

(** What a listener does to the store when one of its calls completes:
    users and rooms are read only, chat rows are only added. *)
Lemma resume_store (t : Task) (w : World) :
  db_users (db (post (resume t) w)) = db_users (db w) ∧
  db_rooms (db (post (resume t) w)) = db_rooms (db w) ∧
  (∀ id c, db_chats (db w) !! id = Some c →
           db_chats (db (post (resume t) w)) !! id = Some c).
Proof.
  unfold post. resume_cases t w; try done.
  - destruct (db_rooms (db w) !! rc) as [room|]; [|done]. by case_bool_decide.
  - by destruct (db_rooms (db w) !! rc).
  - repeat split; try done. intros id c Hc. cbn. rewrite lookup_insert_ne; [done|].
    intros <-. assert (fresh (dom (db_chats (db w))) ∈ dom (db_chats (db w))) as Hin
      by (apply elem_of_dom; eauto).
    by apply is_fresh in Hin.
  - by destruct (db_chats (db w) !! id).
Qed.



(** A listener makes no store call and changes nothing before its first
    [await]; all it may do is send. *)
Lemma start_post (sid : nat) (ev : ClientEvent) (w : World) :
  post (start sid ev) w = w.
Proof.
  unfold post, start. destruct (sockets w !! sid) as [s|]; [|done].
  destruct ev as [roomCode|data|text|data| |data|data|data]; try done;
    unfold on_voice_toggle, on_voice_ready, on_webrtc_offer, on_webrtc_answer,
      on_webrtc_ice_candidate, start_drawing_update, start_chat_message,
      relay_field, relay_to_peers, reported;
    (destruct (sock_roomCode s) as [rc|]; [destruct (truthy (Some rc))|]); try done;
    try (by destruct data).
  unfold_monad. cbn. by case_bool_decide.
Qed.



Lemma disconnect_db (sid : nat) (w : World) : db (post (disconnect sid) w) = db w.
Proof.
  destruct (sockets w !! sid) as [s|] eqn:Hs.
  - by rewrite (disconnect_post w sid s Hs).
  - unfold post, disconnect. by rewrite Hs.
Qed.

Lemma authenticateSocket_db (jwt_verify : string → option string) (sid : nat)
    (token : option string) (w : World) :
  db (post (authenticateSocket jwt_verify sid token) w) = db w.
Proof.
  unfold post.
  destruct (authenticateSocket_cases jwt_verify w sid token)
    as [[Hrun _] | [[Hrun _] | (? & ? & ? & _ & _ & _ & _ & _ & Hrun)]];
    by rewrite Hrun.
Qed.



Lemma lend_db (srv : Server) (sid : nat) : db (lend srv sid) = db (world srv).
Proof.
  unfold lend. destruct (sockets (world srv) !! sid); [done|].
  by destruct (closed srv !! sid).
Qed.

(** One turn of the event loop, on the store and on what it sends as
    chat-message. *)
Lemma serve_store (jwt_verify : string → option string) (t : Turn) (srv : Server) :
  db_users (db (world (serve jwt_verify t srv).1)) = db_users (db (world srv)) ∧
  db_rooms (db (world (serve jwt_verify t srv).1)) = db_rooms (db (world srv)) ∧
  (∀ id c, db_chats (db (world srv)) !! id = Some c →
           db_chats (db (world (serve jwt_verify t srv).1)) !! id = Some c).
Proof.
  unfold serve. destruct (up srv); [|done].
  destruct t as [[sid token|sid ev|sid]|n].
  - unfold connect. destruct (issued srv sid); [done|].
    destruct (reaches_store jwt_verify token); [done|].
    cbn [fst world]. by rewrite authenticateSocket_db.
  - unfold dispatch. pose proof (start_post sid ev (world srv)) as Hw. unfold post in Hw.
    destruct (start sid ev (world srv)) as [[[r|e] w1] ds1]; cbn in *; by subst.
  - unfold hang_up. cbn [fst world]. by rewrite disconnect_db.
  - unfold complete. destruct (pending srv !! n) as [[sid token|t]|]; [| |done].
    + cbn [fst world]. by rewrite authenticateSocket_db.
    + destruct (resume_store t (lend srv (owner t))) as (Hu & Hr & Hc).
      rewrite lend_db in Hu, Hr, Hc. unfold post in Hu, Hr, Hc.
      destruct (resume t (lend srv (owner t))) as [[[r|e] w1] ds1]; cbn [fst snd] in *;
        [|done].
      by case_bool_decide.
Qed.


Lemma run_store (jwt_verify : string → option string) (turns : list Turn) (srv : Server) :
  db_users (db (world (run jwt_verify turns srv).1)) = db_users (db (world srv)) ∧
  db_rooms (db (world (run jwt_verify turns srv).1)) = db_rooms (db (world srv)) ∧
  (∀ id c, db_chats (db (world srv)) !! id = Some c →
           db_chats (db (world (run jwt_verify turns srv).1)) !! id = Some c).
Proof.
  revert srv. induction turns as [|t rest IH]; intros srv; [done|].
  cbn [run]. destruct (serve_store jwt_verify t srv) as (Hu & Hr & Hc).
  destruct (serve jwt_verify t srv) as [srv1 ds1]. cbn [fst snd] in *.
  destruct (IH srv1) as (Hu' & Hr' & Hc').
  destruct (run jwt_verify rest srv1) as [srv2 ds2]. cbn [fst snd] in *.
  split; [congruence|]. split; [congruence | eauto].
Qed.



(* --------------------------------------------------------------------- *)
(* 13a. Claims on chat messages                                          *)
(* --------------------------------------------------------------------- *)

(** With nothing in between, the chat handler either stores a row and
    broadcasts its populated form to the room, or sends one error to the
    sender. *)
Lemma on_chat_message_cases (w : World) (sid : nat) (s : Socket) (rc text : string) :
  sockets w !! sid = Some s →
  sock_roomCode s = Some rc →
  truthy (Some rc) = true →
  (∃ room id,
     db_rooms (db w) !! rc = Some room ∧
     id = fresh (dom (db_chats (db w))) ∧
     let row := {| chat_roomId := room__id room; chat_sender := sock_userId s;
                   chat_message := text; chat_createdAt := db_clock (db w) |} in
     db_chats (db (post (on_chat_message sid s text) w)) = <[id := row]> (db_chats (db w)) ∧
     db_users (db (post (on_chat_message sid s text) w)) = db_users (db w) ∧
     sent (on_chat_message sid s text) w =
       fanout (elements (members w rc)) "chat-message"
         (PChat (populate (db (post (on_chat_message sid s text) w)) id row)))
  ∨ (∃ msg, sent (on_chat_message sid s text) w = [error_to sid msg] ∧
            (msg = "Room not found" ∨ msg = "Failed to send message")).
Proof.
  intros Hs Hrc Ht. unfold post, sent.
  rewrite (on_chat_message_connected w sid s rc text Hs Hrc Ht).
  unfold_monad.
  step_await; [right; eexists; split; [reflexivity | by right]|].
  destruct (db_rooms (db w) !! rc) as [room|] eqn:Hroom;
    [|right; eexists; split; [reflexivity | by left]].
  step_await; [right; eexists; split; [reflexivity | by right]|].
  step_await; [right; eexists; split; [reflexivity | by right]|].
  rewrite lookup_insert_eq. cbn.
  left. exists room, (fresh (dom (db_chats (db w)))). repeat split; reflexivity.
Qed.




(* --------------------------------------------------------------------- *)
(* 14. Claims on drawing updates                                         *)
(* --------------------------------------------------------------------- *)

Lemma next_fault_nth (w : World) : next_fault w = nth_fault w 0.
Proof. unfold next_fault, nth_fault. by destruct (faults w). Qed.

Lemma nth_fault_consume (w : World) (n : nat) :
  nth_fault (consume w) n = nth_fault w (S n).
Proof. unfold nth_fault, consume. cbn. by destruct (faults w). Qed.

Lemma nth_fault_set_db (d : Db) (w : World) (n : nat) :
  nth_fault (set_db d w) n = nth_fault w n.
Proof. reflexivity. Qed.

(** A drawing-update other than a clear is a pure relay of
    [{ ...data, userId: socket.userId }]. *)
Lemma on_drawing_update_other (w : World) (sid : nat) (s : Socket) (rc : string)
    (data : JsObj) :
  sock_roomCode s = Some rc →
  truthy (Some rc) = true →
  data !! "type" ≠ Some (VStr "clear") →
  on_drawing_update sid s data w =
    (Ok tt, w,
     fanout (elements (members w rc ∖ {[sid]})) "drawing-update"
       (PDrawing (<["userId" := VStr (sock_userId s)]> data))).
Proof.
  intros Hrc Ht Hty. unfold on_drawing_update. rewrite Hrc, Ht.
  unfold_monad. rewrite bool_decide_eq_false_2 by done. cbn [fst snd].
  by rewrite app_nil_r.
Qed.

Lemma on_drawing_update_clear (w : World) (sid : nat) (s : Socket) (rc : string)
    (data : JsObj) :
  sock_roomCode s = Some rc →
  truthy (Some rc) = true →
  data !! "type" = Some (VStr "clear") →
  sent (on_drawing_update sid s data) w =
    fanout (elements (members w rc ∖ {[sid]})) "drawing-update"
      (PDrawing (<["userId" := VStr (sock_userId s)]> data)) ++
    match reset_outcome w rc with
    | ResetThrew => [error_to sid "Failed to update drawing"]
    | _ => []
    end ∧
  db (post (on_drawing_update sid s data) w) =
    match reset_outcome w rc with
    | ResetDone board => (clearBoard board (sock_userId s) (db w)).2
    | _ => db w
    end.
Proof.
  intros Hrc Ht Hty. unfold post, sent, on_drawing_update, reset_outcome.
  rewrite Hrc, Ht. unfold_monad. rewrite bool_decide_eq_true_2 by done. cbn [fst snd].
  step_await; rewrite <- next_fault_nth, Hfault; [by rewrite app_nil_r|].
  destruct (db_rooms (db w) !! rc) as [room|] eqn:Hroom; [|by rewrite !app_nil_r].
  step_await; rewrite next_fault_nth, nth_fault_set_db, nth_fault_consume in Hfault0;
    rewrite Hfault0; [by rewrite !app_nil_r|].
  destruct (db_boards (db w) !! room__id room) as [board|] eqn:Hboard;
    [|by rewrite !app_nil_r].
  step_await; rewrite next_fault_nth in Hfault1;
    repeat (rewrite nth_fault_set_db in Hfault1 || rewrite nth_fault_consume in Hfault1);
    rewrite Hfault1; by rewrite !app_nil_r.
Qed.

Lemma inbox_reset_tail (w : World) (rc : string) (sid d : nat) :
  inbox match reset_outcome w rc with
        | ResetThrew => [error_to sid "Failed to update drawing"]
        | _ => []
        end d =
    match reset_outcome w rc with
    | ResetThrew =>
        if decide (d = sid) then [("error", PError "Failed to update drawing")] else []
    | _ => []
    end.
Proof. destruct (reset_outcome w rc); try reflexivity. apply inbox_error_to. Qed.

Lemma inbox_relay_peers (S : gset nat) (sid d : nat) (ev : string) (p : Payload) :
  inbox (fanout (elements (S ∖ {[sid]})) ev p) d =
    if decide (d = sid) then []
    else if decide (d ∈ S) then [(ev, p)] else [].
Proof.
  rewrite inbox_fanout_set.
  destruct (decide (d = sid)) as [->|Hne].
  - rewrite decide_False by set_solver. reflexivity.
  - destruct (decide (d ∈ S)) as [Hd|Hd].
    + rewrite decide_True by set_solver. reflexivity.
    + rewrite decide_False by set_solver. reflexivity.
Qed.

(** C4: A drawing-update of a session with an active room is relayed once
    to every other session in the room and not to the sender; the relayed
    object is the client's object with [userId] set to the sending
    session's identity, whatever [userId] the client put there, and all
    other fields as sent.  Unless the sub-kind is 'clear' the handler makes
    no store call and changes nothing in the server state, and the sender
    receives nothing; so a 'cursor' update, sent any number of times,
    leaves the state as it was. *)
Theorem drawing_update_relay (w : World) (sid : nat) (s : Socket) (rc : string)
    (data : JsObj) :
  sockets w !! sid = Some s →
  sock_roomCode s = Some rc →
  truthy (Some rc) = true →
  let w' := post (handleConnection sid (DrawingUpdate data)) w in
  let ds := sent (handleConnection sid (DrawingUpdate data)) w in
  let relayed := <["userId" := VStr (sock_userId s)]> data in
  relayed !! "userId" = Some (VStr (sock_userId s)) ∧
  (∀ k, k ≠ "userId" → relayed !! k = data !! k) ∧
  (∀ d, d ≠ sid →
        inbox ds d = if decide (d ∈ members w rc)
                     then [("drawing-update", PDrawing relayed)] else []) ∧
  (inbox ds sid = [] ∨ inbox ds sid = [("error", PError "Failed to update drawing")]) ∧
  (data !! "type" ≠ Some (VStr "clear") → w' = w ∧ inbox ds sid = []) ∧
  (data !! "type" = Some (VStr "cursor") →
   ∀ n, Nat.iter n (post (handleConnection sid (DrawingUpdate data))) w = w).
Proof.
  intros Hs Hrc Ht w' ds relayed.
  assert (w' = post (on_drawing_update sid s data) w) as Hw'.
  { subst w'. unfold post, handleConnection. by rewrite Hs. }
  assert (ds = sent (on_drawing_update sid s data) w) as Hds.
  { subst ds. unfold sent, handleConnection. by rewrite Hs. }
  assert (data !! "type" ≠ Some (VStr "clear") → w' = w ∧ inbox ds sid = []) as Hother.
  { intros Hty. rewrite Hw', Hds. unfold post, sent.
    rewrite (on_drawing_update_other w sid s rc data Hrc Ht Hty). cbn [fst snd].
    split; [done|]. rewrite inbox_relay_peers. by rewrite decide_True. }
  assert (∃ tail,
            ds = fanout (elements (members w rc ∖ {[sid]})) "drawing-update"
                   (PDrawing relayed) ++ tail ∧
            (tail = [] ∨ tail = [error_to sid "Failed to update drawing"])) as (tail & Hsent & Htail).
  { destruct (decide (data !! "type" = Some (VStr "clear"))) as [Hty|Hty].
    - destruct (on_drawing_update_clear w sid s rc data Hrc Ht Hty) as [Hsent _].
      rewrite <- Hds in Hsent. eexists. split; [exact Hsent|].
      destruct (reset_outcome w rc); auto.
    - exists []. split; [|by left]. rewrite Hds. unfold sent.
      rewrite (on_drawing_update_other w sid s rc data Hrc Ht Hty). cbn [snd].
      by rewrite app_nil_r. }
  split; [apply lookup_insert_eq|].
  split; [intros k Hk; by apply lookup_insert_ne|].
  split; [|split; [|split; [exact Hother|]]].
  - intros d Hd. rewrite Hsent, inbox_app, inbox_relay_peers.
    rewrite decide_False by done.
    destruct Htail as [->| ->].
    + by rewrite inbox_nil, app_nil_r.
    + rewrite inbox_error_to, (decide_False (P := d = sid)) by done.
      by rewrite app_nil_r.
  - rewrite Hsent, inbox_app, inbox_relay_peers. rewrite decide_True by done.
    destruct Htail as [->| ->].
    + by left.
    + right. rewrite inbox_error_to. by rewrite decide_True.
  - intros Hty n.
    assert (w' = w) as Hsame by (apply Hother; rewrite Hty; congruence).
    induction n as [|n IH]; [reflexivity|].
    rewrite Nat.iter_succ, IH. exact Hsame.
Qed.

Lemma drawing_update_relay_witness :
  inbox (sent (handleConnection 1 (DrawingUpdate {[ "type" := VStr "cursor";
                                          "userId" := VStr "u2" ]})) w_demo) 2 =
    [("drawing-update",
      PDrawing {[ "type" := VStr "cursor"; "userId" := VStr "u1" ]})] ∧
  Nat.iter 5 (post (handleConnection 1 (DrawingUpdate {[ "type" := VStr "cursor";
                                               "userId" := VStr "u2" ]}))) w_demo = w_demo.
Proof.
  pose proof (drawing_update_relay w_demo 1 (connected alice (Some "ROOM42")) "ROOM42"
                {[ "type" := VStr "cursor"; "userId" := VStr "u2" ]}) as H.
  cbv zeta in H.
  destruct H as (_ & _ & Hpeer & _ & _ & Hiter); [reflexivity..|].
  split.
  - rewrite (Hpeer 2) by done. vm_compute. reflexivity.
  - apply Hiter. vm_compute. reflexivity.
Defined.

(** C5, as the code has it: a 'clear' drawing-update of a session with an
    active room is relayed exactly once to every other session in the room,
    whatever becomes of the board reset.  The acting session is sent the
    error "Failed to update drawing" exactly when a store call of the reset
    throws; when the room or its board snapshot is not found the reset is
    skipped and the acting session is sent nothing.  The store changes only
    when the reset is carried out, and then by [clearBoard] on the room's
    board. *)
Theorem clear_relayed_whatever_the_reset (w : World) (sid : nat) (s : Socket)
    (rc : string) (data : JsObj) :
  sockets w !! sid = Some s →
  sock_roomCode s = Some rc →
  truthy (Some rc) = true →
  data !! "type" = Some (VStr "clear") →
  let w' := post (handleConnection sid (DrawingUpdate data)) w in
  let ds := sent (handleConnection sid (DrawingUpdate data)) w in
  (∀ d, d ≠ sid →
        inbox ds d =
          if decide (d ∈ members w rc)
          then [("drawing-update",
                 PDrawing (<["userId" := VStr (sock_userId s)]> data))]
          else []) ∧
  inbox ds sid =
    match reset_outcome w rc with
    | ResetThrew => [("error", PError "Failed to update drawing")]
    | _ => []
    end ∧
  db w' =
    match reset_outcome w rc with
    | ResetDone board => (clearBoard board (sock_userId s) (db w)).2
    | _ => db w
    end.
Proof.
  intros Hs Hrc Ht Hty w' ds.
  assert (w' = post (on_drawing_update sid s data) w) as Hw'.
  { subst w'. unfold post, handleConnection. by rewrite Hs. }
  assert (ds = sent (on_drawing_update sid s data) w) as Hds.
  { subst ds. unfold sent, handleConnection. by rewrite Hs. }
  destruct (on_drawing_update_clear w sid s rc data Hrc Ht Hty) as [Hsent Hdb].
  rewrite <- Hds in Hsent. rewrite <- Hw' in Hdb.
  split; [|split; [|exact Hdb]].
  - intros d Hd. rewrite Hsent, inbox_app, inbox_relay_peers, inbox_reset_tail.
    rewrite decide_False by done.
    destruct (reset_outcome w rc); rewrite ?(decide_False (P := d = sid)) by done;
      by rewrite app_nil_r.
  - rewrite Hsent, inbox_app, inbox_relay_peers, inbox_reset_tail.
    rewrite decide_True by done.
    destruct (reset_outcome w rc); rewrite ?decide_True by done; reflexivity.
Qed.

Lemma clear_relayed_whatever_the_reset_witness :
  inbox (sent (handleConnection 1 (DrawingUpdate {[ "type" := VStr "clear" ]}))
           (set_faults [true] w_demo)) 2 =
    [("drawing-update", PDrawing {[ "type" := VStr "clear"; "userId" := VStr "u1" ]})] ∧
  inbox (sent (handleConnection 1 (DrawingUpdate {[ "type" := VStr "clear" ]}))
           (set_faults [true] w_demo)) 1 =
    [("error", PError "Failed to update drawing")] ∧
  board_elements <$>
    db_boards (db (post (handleConnection 4 (DrawingUpdate {[ "type" := VStr "clear" ]})) w_demo)) !! 9
    = Some [].
Proof.
  pose proof (clear_relayed_whatever_the_reset (set_faults [true] w_demo) 1
                (connected alice (Some "ROOM42")) "ROOM42"
                {[ "type" := VStr "clear" ]}) as H1.
  pose proof (clear_relayed_whatever_the_reset w_demo 4
                (connected dave (Some "ROOM99")) "ROOM99"
                {[ "type" := VStr "clear" ]}) as H4.
  cbv zeta in H1, H4.
  destruct H1 as (Hpeer & Hself & _); [reflexivity..|].
  destruct H4 as (_ & _ & Hdb); [reflexivity..|].
  split; [|split].
  - rewrite (Hpeer 2) by done. vm_compute. reflexivity.
  - rewrite Hself. vm_compute. reflexivity.
  - rewrite Hdb. vm_compute. reflexivity.
Defined.

(** C5 as stated fails: alice (socket 1) clears the board of ROOM42, whose
    board snapshot is not in the store.  The clear is relayed to bob, the
    store is left as it was, and alice is sent nothing: the failed reset is
    not reported to her. *)
Lemma clear_without_board_not_reported :
  let clear : JsObj := {[ "type" := VStr "clear" ]} in
  let w' := post (handleConnection 1 (DrawingUpdate clear)) w_demo in
  let ds := sent (handleConnection 1 (DrawingUpdate clear)) w_demo in
  (room__id <$> db_rooms (db w_demo) !! "ROOM42") = Some 7 ∧
  db_boards (db w_demo) !! 7 = None ∧
  db w' = db w_demo ∧
  inbox ds 2 =
    [("drawing-update", PDrawing {[ "type" := VStr "clear"; "userId" := VStr "u1" ]})] ∧
  inbox ds 1 = [].
Proof. cbv zeta. repeat split; vm_compute; reflexivity. Qed.

(* --------------------------------------------------------------------- *)
(* 15. The membership invariant holds in every reachable state           *)
(* --------------------------------------------------------------------- *)

Lemma joined_in_room_disconnect (w : World) (sid : nat) :
  joined_in_room w → joined_in_room (post (disconnect sid) w).
Proof.
  intros Hwf. destruct (sockets w !! sid) as [s|] eqn:Hs.
  - rewrite (disconnect_post w sid s Hs). intros sid' s' Hs'. cbn in Hs'.
    apply lookup_delete_Some in Hs' as [Hne Hs'].
    specialize (Hwf sid' s' Hs'). cbn in *.
    destruct (sock_roomCode s') as [rc'|]; [|done].
    rewrite members_after_leave. set_solver.
  - unfold post, disconnect. by rewrite Hs.
Qed.

Lemma joined_in_room_authenticate (jwt_verify : string → option string) (w : World)
    (sid : nat) (token : option string) :
  joined_in_room w → joined_in_room (post (authenticateSocket jwt_verify sid token) w).
Proof.
  intros Hwf. unfold post.
  destruct (authenticateSocket_cases jwt_verify w sid token)
    as [[Hrun _] | [[Hrun _] | (tok & id & user & _ & _ & _ & _ & _ & Hrun)]];
    rewrite Hrun; cbn [fst snd]; [done | done |].
  intros sid' s' Hs'. cbn in Hs'.
  destruct (decide (sid' = sid)) as [->|Hne].
  - rewrite lookup_insert_eq in Hs'. by simplify_eq.
  - rewrite lookup_insert_ne in Hs' by done. exact (Hwf sid' s' Hs').
Qed.

(** What a listener that goes on does to sockets and rooms: the sockets
    of others are untouched, rooms only gain members, and a room code
    recorded anew on its own socket names a room the socket is in. *)
Lemma resume_membership (t : Task) (w : World) :
  (∀ sid', sid' ≠ owner t →
     sockets (post (resume t) w) !! sid' = sockets w !! sid') ∧
  (∀ rc, members w rc ⊆ members (post (resume t) w) rc) ∧
  (∀ s1 rc, sockets (post (resume t) w) !! owner t = Some s1 →
     sock_roomCode s1 = Some rc →
     owner t ∈ members (post (resume t) w) rc ∨
     ∃ s0, sockets w !! owner t = Some s0 ∧ sock_roomCode s0 = Some rc).
Proof.
  assert (∀ w', sockets w' = sockets w → adapter w' = adapter w →
            (∀ sid', sid' ≠ owner t → sockets w' !! sid' = sockets w !! sid') ∧
            (∀ rc, members w rc ⊆ members w' rc) ∧
            (∀ s1 rc, sockets w' !! owner t = Some s1 → sock_roomCode s1 = Some rc →
               owner t ∈ members w' rc ∨
               ∃ s0, sockets w !! owner t = Some s0 ∧ sock_roomCode s0 = Some rc)) as Hsame.
  { intros w' Hs Ha. unfold members. rewrite Hs, Ha. repeat split; try done.
    intros s1 rc H1 Hrc. right. by exists s1. }
  unfold post. resume_cases t w; cbn [fst snd owner]; try (by apply Hsame).
  - destruct (db_rooms (db w) !! rc) as [room|]; [|by apply Hsame].
    case_bool_decide; [|by apply Hsame]. cbn [fst snd]. split; [|split].
    + intros sid' Hne. cbn. by rewrite lookup_alter_ne.
    + intros rc'. unfold members at 2. cbn. destruct (decide (rc = rc')) as [->|Hne].
      * rewrite lookup_insert_eq. cbn. set_solver.
      * by rewrite lookup_insert_ne.
    + intros s1 rc' Hs1 Hrc'. cbn in Hs1. rewrite lookup_alter_eq in Hs1.
      destruct (sockets w !! sid) as [s0|]; [|done]. cbn in Hs1. simplify_eq.
      cbn in Hrc'. simplify_eq. left. unfold members. cbn.
      rewrite lookup_insert_eq. cbn. set_solver.
  - destruct (db_rooms (db w) !! rc); by apply Hsame.
  - destruct (db_chats (db w) !! id); by apply Hsame.
Qed.

(** The invariant is kept by every turn of the event loop, whatever is
    pending and however the turns fall. *)
Lemma joined_in_room_serve (jwt_verify : string → option string) (t : Turn)
    (srv : Server) :
  joined_in_room (world srv) → joined_in_room (world (serve jwt_verify t srv).1).
Proof.
  intros Hwf. unfold serve. destruct (up srv); [|done].
  assert (∀ w, joined_in_room (world (crash w))) as Hcrash.
  { intros w sid s Hs. cbn in Hs. by rewrite lookup_empty in Hs. }
  destruct t as [[sid token|sid ev|sid]|n].
  - unfold connect. destruct (issued srv sid); [done|].
    destruct (reaches_store jwt_verify token); [done|].
    by apply joined_in_room_authenticate.
  - unfold dispatch. pose proof (start_post sid ev (world srv)) as Hw. unfold post in Hw.
    destruct (start sid ev (world srv)) as [[[r|e] w1] ds1]; cbn in *; [by subst|].
    apply Hcrash.
  - unfold hang_up. cbn [fst world]. by apply joined_in_room_disconnect.
  - unfold complete. destruct (pending srv !! n) as [[sid token|t]|]; [| |done].
    + by apply joined_in_room_authenticate.
    + destruct (resume_membership t (lend srv (owner t))) as (Hothers & Hgrow & Hown).
      unfold post in Hothers, Hgrow, Hown.
      destruct (resume t (lend srv (owner t))) as [[[r|e] w1] ds1]; cbn [fst snd] in *;
        [|apply Hcrash].
      unfold lend in *. destruct (sockets (world srv) !! owner t) as [s0|] eqn:Hs0.
      * rewrite bool_decide_eq_false_2 by done. cbn [world].
        intros sid' s' Hs'. cbn.
        destruct (decide (sid' = owner t)) as [->|Hne].
        -- destruct (sock_roomCode s') as [rc|] eqn:Hrc; [|done].
           destruct (Hown s' rc Hs' Hrc) as [Hin|(s0' & Hs0' & Hrc0)]; [done|].
           apply Hgrow. specialize (Hwf (owner t) s0' Hs0'). cbn in Hwf.
           by rewrite Hrc0 in Hwf.
        -- rewrite (Hothers sid' Hne) in Hs'. specialize (Hwf sid' s' Hs'). cbn in Hwf.
           destruct (sock_roomCode s') as [rc|]; [|done]. by apply Hgrow.
      * rewrite bool_decide_eq_true_2 by done. cbn [world].
        intros sid' s' Hs'. cbn in Hs'. apply lookup_delete_Some in Hs' as [Hne Hs'].
        rewrite (Hothers sid' ltac:(done)) in Hs'.
        assert (sockets (world srv) !! sid' = Some s') as Hs''.
        { destruct (closed srv !! owner t); [|done]. cbn in Hs'.
          by rewrite lookup_insert_ne in Hs'. }
        specialize (Hwf sid' s' Hs''). cbn in *.
        destruct (sock_roomCode s') as [rc|]; [|done].
        assert (members (world srv) rc ⊆ members w1 rc) as Hsub.
        { etrans; [|apply Hgrow]. by destruct (closed srv !! owner t). }
        unfold members in *. cbn. set_solver.
Qed.

(** From a server that starts without connections, every sequence of turns
    ends in a state where each connected session that recorded a room code
    is a live member of that room. *)
Lemma joined_in_room_run (jwt_verify : string → option string) (turns : list Turn)
    (srv : Server) :
  joined_in_room (world srv) → joined_in_room (world (run jwt_verify turns srv).1).
Proof.
  revert srv. induction turns as [|t rest IH]; intros srv Hwf; [done|].
  cbn [run]. pose proof (joined_in_room_serve jwt_verify t srv Hwf) as Hstep.
  destruct (serve jwt_verify t srv) as [srv1 ds1]. cbn [fst] in Hstep.
  specialize (IH srv1 Hstep). by destruct (run jwt_verify rest srv1) as [srv2 ds2].
Qed.

Lemma joined_in_room_initial (d : Db) (fs : list bool) :
  joined_in_room (world (boot d fs)).
Proof. intros sid s Hs. cbn in Hs. by rewrite lookup_empty in Hs. Qed.

Example demo_reachable : world (run jwt0 demo_turns (boot db0 [])).1 = w_demo.
Proof. vm_compute. reflexivity. Qed.

(** The access scenario: carol, not authorized for ROOM42, is denied and
    the members hear nothing; once she is authorized she joins, and alice
    and bob each receive her user-joined notice; alice's chat message then
    reaches all three with her name on it. *)
Example scenario_denied_then_admitted :
  let w1 := set_db db_carol_authorized
              (post (handleConnection 3 (JoinRoom "ROOM42")) w_demo) in
  let w2 := post (handleConnection 3 (JoinRoom "ROOM42")) w1 in
  let hi := sent (handleConnection 1 (ChatMessage "hi")) w2 in
  sent (handleConnection 3 (JoinRoom "ROOM42")) w_demo = [error_to 3 "Access denied"] ∧
  inbox (sent (handleConnection 3 (JoinRoom "ROOM42")) w1) 1 =
    [("user-joined", PUserJoined "u3" "carol" None)] ∧
  inbox (sent (handleConnection 3 (JoinRoom "ROOM42")) w1) 2 =
    [("user-joined", PUserJoined "u3" "carol" None)] ∧
  inbox (sent (handleConnection 3 (JoinRoom "ROOM42")) w1) 3 = [] ∧
  (∃ pm, pc_message pm = "hi" ∧
         sender_username <$> pc_sender pm = Some "alice" ∧
         inbox hi 1 = [("chat-message", PChat pm)] ∧
         inbox hi 2 = [("chat-message", PChat pm)] ∧
         inbox hi 3 = [("chat-message", PChat pm)]).
Proof.
  cbv zeta. repeat split; try (vm_compute; reflexivity).
  eexists. repeat split; vm_compute; reflexivity.
Qed.

(* --------------------------------------------------------------------- *)
(* 16. Further properties of the relay                                   *)
(* --------------------------------------------------------------------- *)

Lemma relay_to_peers_run (w : World) (sid : nat) (s : Socket) (rc ev : string)
    (p : Payload) :
  sock_roomCode s = Some rc →
  truthy (Some rc) = true →
  relay_to_peers sid s ev p w =
    (Ok tt, w, fanout (elements (members w rc ∖ {[sid]})) ev p).
Proof. intros Hrc Ht. unfold relay_to_peers. by rewrite Hrc, Ht. Qed.

Lemma relay_field_run (w : World) (sid : nat) (s : Socket) (rc ev : string)
    (o : JsObj) (k : string) (payload : JsVal → Payload) :
  sock_roomCode s = Some rc →
  truthy (Some rc) = true →
  relay_field sid s ev (Some o) k payload w =
    (Ok tt, w, fanout (elements (members w rc ∖ {[sid]})) ev (payload (js_field o k))).
Proof. intros Hrc Ht. unfold relay_field. by rewrite Hrc, Ht. Qed.

Lemma relay_field_throws (w : World) (sid : nat) (s : Socket) (rc ev : string)
    (k : string) (payload : JsVal → Payload) :
  sock_roomCode s = Some rc →
  truthy (Some rc) = true →
  relay_field sid s ev None k payload w = (Thrown "TypeError", w, []).
Proof. intros Hrc Ht. unfold relay_field. by rewrite Hrc, Ht. Qed.

(** X1: The five relay-only events (voice-toggle, voice-ready,
    webrtc-offer, webrtc-answer, webrtc-ice-candidate) of a session with an
    active room.  voice-ready, and each of the other four when it comes
    with an argument, reaches every other member of the room exactly once
    and nobody else, the sender included; the payload carries the sender's
    identity as the server knows it and the field read off the client's
    argument, untouched ([undefined] when the argument lacks it); the
    server state, store and pending store calls included, is unchanged.
    Each of the other four sent without an argument makes its listener
    throw a TypeError that nothing catches, before anything is sent. *)
Theorem relay_only_events_reach_peers (w : World) (sid : nat) (s : Socket)
    (rc : string) (data : option JsObj) :
  sockets w !! sid = Some s →
  sock_roomCode s = Some rc →
  truthy (Some rc) = true →
  let to_peers (ev : ClientEvent) (name : string) (p : Payload) :=
    value (handleConnection sid ev) w = Ok tt ∧
    post (handleConnection sid ev) w = w ∧
    ∀ d, inbox (sent (handleConnection sid ev) w) d =
           if decide (d = sid) then []
           else if decide (d ∈ members w rc) then [(name, p)] else [] in
  let thrown (ev : ClientEvent) :=
    handleConnection sid ev w = (Thrown "TypeError", w, []) in
  to_peers VoiceReady "voice-ready"
    (PVoiceReady (sock_userId s) (user_username (sock_user s))) ∧
  match data with
  | Some o =>
      to_peers (VoiceToggle data) "voice-toggle"
        (PVoiceToggle (sock_userId s) (user_username (sock_user s))
           (js_field o "isEnabled")) ∧
      to_peers (WebrtcOffer data) "webrtc-offer"
        (POffer (sock_userId s) (js_field o "offer")) ∧
      to_peers (WebrtcAnswer data) "webrtc-answer"
        (PAnswer (sock_userId s) (js_field o "answer")) ∧
      to_peers (WebrtcIceCandidate data) "webrtc-ice-candidate"
        (PIceCandidate (sock_userId s) (js_field o "candidate"))
  | None =>
      thrown (VoiceToggle data) ∧ thrown (WebrtcOffer data) ∧
      thrown (WebrtcAnswer data) ∧ thrown (WebrtcIceCandidate data)
  end.
Proof.
  intros Hs Hrc Ht to_peers thrown. subst to_peers thrown. cbv beta.
  split.
  - unfold value, post, sent, handleConnection. rewrite Hs. unfold on_voice_ready.
    rewrite (relay_to_peers_run w sid s rc _ _ Hrc Ht). cbn [fst snd].
    repeat split. intros d. apply inbox_relay_peers.
  - destruct data as [o|].
    + repeat split; try intros d;
        unfold value, post, sent, handleConnection; rewrite Hs;
        unfold on_voice_toggle, on_webrtc_offer, on_webrtc_answer,
          on_webrtc_ice_candidate;
        rewrite (relay_field_run w sid s rc _ o _ _ Hrc Ht); cbn [fst snd];
        solve [reflexivity | apply inbox_relay_peers].
    + repeat split; unfold handleConnection; rewrite Hs;
        unfold on_voice_toggle, on_webrtc_offer, on_webrtc_answer,
          on_webrtc_ice_candidate;
        apply (relay_field_throws w sid s rc _ _ _ Hrc Ht).
Qed.

Lemma relay_only_events_reach_peers_witness :
  inbox (sent (handleConnection 1 (WebrtcOffer (Some {[ "offer" := VStr "sdp" ]}))) w_demo) 2 =
    [("webrtc-offer", POffer "u1" (VStr "sdp"))] ∧
  inbox (sent (handleConnection 1 (WebrtcOffer (Some {[ "offer" := VStr "sdp" ]}))) w_demo) 4 = [] ∧
  inbox (sent (handleConnection 1 (VoiceToggle (Some {[ "isEnabled" := VBool true ]}))) w_demo) 1 = [] ∧
  handleConnection 1 (VoiceToggle None) w_demo = (Thrown "TypeError", w_demo, []).
Proof.
  pose proof (relay_only_events_reach_peers w_demo 1 (connected alice (Some "ROOM42"))
                "ROOM42" (Some {[ "offer" := VStr "sdp" ]})) as Ho.
  pose proof (relay_only_events_reach_peers w_demo 1 (connected alice (Some "ROOM42"))
                "ROOM42" (Some {[ "isEnabled" := VBool true ]})) as Hv.
  pose proof (relay_only_events_reach_peers w_demo 1 (connected alice (Some "ROOM42"))
                "ROOM42" None) as Hn.
  cbv zeta beta in Ho, Hv, Hn.
  destruct Ho as (_ & _ & (_ & _ & Hoffer) & _); [reflexivity..|].
  destruct Hv as (_ & (_ & _ & Htoggle) & _); [reflexivity..|].
  destruct Hn as (_ & Hthrown & _); [reflexivity..|].
  split; [|split; [|split]].
  - rewrite (Hoffer 2). vm_compute. reflexivity.
  - rewrite (Hoffer 4). vm_compute. reflexivity.
  - rewrite (Htoggle 1). vm_compute. reflexivity.
  - exact Hthrown.
Defined.

Lemma with_roomCode_same (rc : string) (s : Socket) :
  sock_roomCode s = Some rc → with_roomCode rc s = s.
Proof. intros H. destruct s as [u usr r]. cbn in *. by subst. Qed.

(** X2: Joining the room the session is already in changes nothing in the
    server state (membership, recorded room codes and store are as
    before), yet every other member of the room is sent a user-joined
    notice again. *)
Theorem rejoin_same_room_renotifies (w : World) (sid : nat) (s : Socket)
    (rc : string) (room : RoomDoc) :
  joined_in_room w →
  sockets w !! sid = Some s →
  sock_roomCode s = Some rc →
  next_fault w = false →
  db_rooms (db w) !! rc = Some room →
  sock_userId s ∈ room_participants room →
  let w' := post (handleConnection sid (JoinRoom rc)) w in
  let ds := sent (handleConnection sid (JoinRoom rc)) w in
  sockets w' = sockets w ∧ adapter w' = adapter w ∧ db w' = db w ∧
  ∀ d, inbox ds d =
         if decide (d = sid) then []
         else if decide (d ∈ members w rc)
              then [("user-joined",
                     PUserJoined (sock_userId s) (user_username (sock_user s))
                                 (user_avatar (sock_user s)))]
              else [].
Proof.
  intros Hwf Hs Hrc Hf Hroom Hp w' ds. subst w' ds.
  unfold post, sent, handleConnection. rewrite Hs.
  rewrite (on_join_room_ok sid s rc w room Hf Hroom Hp). cbn [fst snd].
  assert (sid ∈ members w rc) as Hin.
  { specialize (Hwf sid s Hs). cbn in Hwf. by rewrite Hrc in Hwf. }
  split; [|split; [|split; [done|]]].
  - cbn. apply map_eq. intros i. destruct (decide (i = sid)) as [->|Hne].
    + rewrite lookup_alter_eq, Hs. cbn. by rewrite (with_roomCode_same rc s Hrc).
    + by rewrite lookup_alter_ne.
  - cbn. unfold members in *. destruct (adapter w !! rc) as [S|] eqn:HS; cbn in *.
    + apply insert_id. rewrite HS. f_equal. set_solver.
    + set_solver.
  - intros d. apply inbox_relay_peers.
Qed.

Lemma rejoin_same_room_renotifies_witness :
  post (handleConnection 1 (JoinRoom "ROOM42")) w_demo = w_demo ∧
  inbox (sent (handleConnection 1 (JoinRoom "ROOM42")) w_demo) 2 =
    [("user-joined", PUserJoined "u1" "alice" (Some "alice.png"))].
Proof.
  pose proof (rejoin_same_room_renotifies w_demo 1 (connected alice (Some "ROOM42"))
                "ROOM42"
                {| room__id := 7; room_roomId := "ROOM42";
                   room_participants := ["u1"; "u2"] |}) as H.
  cbv zeta in H.
  destruct H as (_ & _ & _ & Hin).
  - compute_done.
  - reflexivity.
  - reflexivity.
  - reflexivity.
  - vm_compute. reflexivity.
  - compute_done.
  - split; [vm_compute; reflexivity|]. rewrite (Hin 2). vm_compute. reflexivity.
Defined.






Lemma dests_fanout (l : list nat) (ev : string) (p : Payload) :
  dests (fanout l ev p) = l.
Proof.
  unfold dests, fanout. rewrite <- list_fmap_compose.
  induction l as [|x l IH]; [reflexivity|]. cbn. by rewrite IH.
Qed.

Lemma inbox_not_dest (ds : list Delivery) (d : nat) :
  d ∉ dests ds → inbox ds d = [].
Proof.
  induction ds as [|x ds IH]; [reflexivity|]. intros Hnot.
  unfold dests in Hnot. cbn in Hnot. apply not_elem_of_cons in Hnot as [Hx Hds].
  unfold inbox. rewrite filter_cons_False by (cbn; congruence). by apply IH.
Qed.

(** Where a listener sends before its first store call: into the room
    recorded on its socket. *)
Lemma start_dests (w : World) (sid : nat) (s : Socket) (ev : ClientEvent) (d : nat) :
  sockets w !! sid = Some s →
  d ∈ dests (sent (start sid ev) w) →
  ∃ rc, sock_roomCode s = Some rc ∧ d ∈ members w rc.
Proof.
  intros Hs. unfold sent, start. rewrite Hs.
  destruct ev as [roomCode|data|text|data| |data|data|data];
    try (by intros ?%elem_of_nil);
    unfold on_voice_toggle, on_voice_ready, on_webrtc_offer, on_webrtc_answer,
      on_webrtc_ice_candidate, start_drawing_update, start_chat_message,
      relay_field, relay_to_peers, reported;
    (destruct (sock_roomCode s) as [rc|]; [destruct (truthy (Some rc))|]);
    try (by intros ?%elem_of_nil);
    try (destruct data as [o|]; [|by intros ?%elem_of_nil]);
    unfold_monad; cbn; try case_bool_decide; cbn; rewrite ?app_nil_r;
    rewrite dests_fanout, elem_of_elements; intros Hd; exists rc; split;
    solve [done | set_solver].
Qed.

(** Where a listener that goes on sends: to its own socket, or into the
    room recorded on that socket once it has run. *)
Lemma resume_dests (t : Task) (w : World) (s' : Socket) (d : nat) :
  sockets (post (resume t) w) !! owner t = Some s' →
  d ∈ dests (sent (resume t) w) →
  d = owner t ∨ ∃ rc, sock_roomCode s' = Some rc ∧ d ∈ members (post (resume t) w) rc.
Proof.
  unfold post, sent.
  assert (∀ sid msg, d ∈ dests [error_to sid msg] → d = sid) as Herr.
  { intros sid msg Hd. cbn in Hd. by apply list_elem_of_singleton in Hd. }
  assert (d ∈ dests [] → False) as Hnil by (cbn; apply elem_of_nil).
  resume_cases t w; cbn [fst snd owner]; intros Hs' Hd;
    try (left; exact (Herr _ _ Hd)); try (destruct (Hnil Hd)).
  - destruct (db_rooms (db w) !! rc) as [room|]; [|left; exact (Herr _ _ Hd)].
    case_bool_decide; cbn [fst snd] in *; [|left; exact (Herr _ _ Hd)].
    right. exists rc. cbn in Hs'. rewrite lookup_alter_eq in Hs'.
    destruct (sockets w !! sid) as [s0|]; [|done]. cbn in Hs'. simplify_eq.
    split; [done|]. rewrite dests_fanout, elem_of_elements in Hd.
    unfold members at 1. cbn. rewrite lookup_insert_eq. cbn. set_solver.
  - destruct (db_rooms (db w) !! rc) as [room|]; cbn [fst snd] in *;
      [destruct (Hnil Hd) | left; exact (Herr _ _ Hd)].
  - destruct (db_chats (db w) !! id) as [row|]; cbn [fst snd] in *;
      [|left; exact (Herr _ _ Hd)].
    cbn in Hs'. rewrite Hs' in Hd. change (default s (Some s')) with s' in Hd.
    destruct (sock_roomCode s') as [rc|]; [|destruct (Hnil Hd)].
    rewrite dests_fanout, elem_of_elements in Hd. right. by exists rc.
Qed.

(** X4: Events never leak out of the sender's room.  Whatever a listener
    sends, when it is called or when one of its store calls completes, and
    whatever has happened in between, a socket other than the sender that
    is not a live member of the room then recorded on the sender receives
    nothing.  The room is the one recorded when the message is sent, which
    for a listener that has waited on the store need not be the one
    recorded when the event arrived. *)
Theorem events_stay_in_their_room (w : World) (d : nat) :
  (∀ sid s ev, sockets w !! sid = Some s →
     (∀ rc, sock_roomCode s = Some rc → d ∉ members w rc) →
     inbox (sent (start sid ev) w) d = []) ∧
  (∀ t s', sockets (post (resume t) w) !! owner t = Some s' →
     d ≠ owner t →
     (∀ rc, sock_roomCode s' = Some rc → d ∉ members (post (resume t) w) rc) →
     inbox (sent (resume t) w) d = []).
Proof.
  split.
  - intros sid s ev Hs Hout. apply inbox_not_dest. intros Hin.
    destruct (start_dests w sid s ev d Hs Hin) as (rc & Hrc & Hmem). by apply (Hout rc).
  - intros t s' Hs' Hne Hout. apply inbox_not_dest. intros Hin.
    destruct (resume_dests t w s' d Hs' Hin) as [?|(rc & Hrc & Hmem)]; [done|].
    by apply (Hout rc).
Qed.

Lemma events_stay_in_their_room_witness :
  inbox (sent (start 1 (DrawingUpdate {[ "type" := VStr "clear" ]})) w_demo) 4 = [] ∧
  inbox (sent (resume (JoinRoomFind 3 (connected carol None) "ROOM42")) w_demo) 4 = [] ∧
  inbox (sent (resume (ChatPopulate 1 (connected alice (Some "ROOM42")) 0))
           (post (resume (ChatCreate 1 (connected alice (Some "ROOM42"))
                            {| room__id := 7; room_roomId := "ROOM42";
                               room_participants := ["u1"; "u2"] |} "hi")) w_demo)) 4 = [].
Proof.
  split; [|split].
  - apply (events_stay_in_their_room w_demo 4) with (connected alice (Some "ROOM42"));
      [reflexivity|]. intros rc [= <-]. compute_done.
  - apply (events_stay_in_their_room w_demo 4) with (connected carol None);
      [reflexivity | done |]. intros rc [=].
  - apply (events_stay_in_their_room _ 4) with (connected alice (Some "ROOM42"));
      [reflexivity | done |]. intros rc [= <-]. compute_done.
Defined.

(** What one event does to the store. *)
Lemma handleConnection_store (w : World) (sid : nat) (ev : ClientEvent) :
  let w' := post (handleConnection sid ev) w in
  db_users (db w') = db_users (db w) ∧
  db_rooms (db w') = db_rooms (db w) ∧
  (∀ id c, db_chats (db w) !! id = Some c → db_chats (db w') !! id = Some c) ∧
  ((∀ text, ev ≠ ChatMessage text) → db_chats (db w') = db_chats (db w)) ∧
  ((∀ data, ev = DrawingUpdate data → data !! "type" ≠ Some (VStr "clear")) →
   db_boards (db w') = db_boards (db w)).
Proof.
  cbv zeta. unfold post, handleConnection.
  destruct (sockets w !! sid) as [s|] eqn:Hs; [|done].
  destruct ev as [roomCode|data|text|v| |v|v|v];
    unfold on_voice_toggle, on_voice_ready, on_webrtc_offer, on_webrtc_answer,
      on_webrtc_ice_candidate; rewrite ?relay_to_peers_post, ?relay_field_post;
    try done.
  - destruct (next_fault w) eqn:Hf; [by rewrite on_join_room_throws|].
    destruct (db_rooms (db w) !! roomCode) as [room|] eqn:Hroom;
      [|by rewrite on_join_room_not_found].
    destruct (decide (sock_userId s ∈ room_participants room)) as [Hp|Hp];
      [|by erewrite on_join_room_denied].
    by rewrite (on_join_room_ok sid s roomCode w room Hf Hroom Hp).
  - destruct (sock_roomCode s) as [rc|] eqn:Hrc;
      [|by unfold on_drawing_update; rewrite Hrc].
    destruct (truthy (Some rc)) eqn:Ht;
      [|by unfold on_drawing_update; rewrite Hrc, Ht].
    destruct (decide (data !! "type" = Some (VStr "clear"))) as [Hty|Hty].
    + destruct (on_drawing_update_clear w sid s rc data Hrc Ht Hty) as [_ Hdb].
      unfold post in Hdb. rewrite Hdb.
      destruct (reset_outcome w rc); try done.
      repeat split; try done. intros Hno. by destruct (Hno data eq_refl).
    + by rewrite (on_drawing_update_other w sid s rc data Hrc Ht Hty).
  - destruct (sock_roomCode s) as [rc|] eqn:Hrc;
      [|by unfold on_chat_message; rewrite Hrc].
    destruct (truthy (Some rc)) eqn:Ht;
      [|by unfold on_chat_message; rewrite Hrc, Ht].
    rewrite (on_chat_message_connected w sid s rc text Hs Hrc Ht). unfold_monad.
    step_await; [by repeat split; try done; intros H; destruct (H text)|].
    destruct (db_rooms (db w) !! rc) as [room|] eqn:Hroom;
      [|by repeat split; try done; intros H; destruct (H text)].
    assert (∀ id c, db_chats (db w) !! id = Some c →
              <[fresh (dom (db_chats (db w))) :=
                  {| chat_roomId := room__id room; chat_sender := sock_userId s;
                     chat_message := text; chat_createdAt := db_clock (db w) |}]>
                (db_chats (db w)) !! id = Some c) as Hkeep.
    { intros id c Hc. rewrite lookup_insert_ne; [done|].
      intros <-. assert (fresh (dom (db_chats (db w))) ∈ dom (db_chats (db w))) as Hin
        by (apply elem_of_dom; eauto).
      by apply is_fresh in Hin. }
    step_await; [by repeat split; try done; intros H; destruct (H text)|].
    step_await; [by repeat split; try done; intros H; destruct (H text)|].
    rewrite lookup_insert_eq. cbn.
    repeat split; try done. intros H. by destruct (H text).
Qed.

(** X5: The relay reads rooms and users and never writes them: no event,
    connection attempt or disconnect changes the user store or the room
    store (rooms and their participant lists are managed elsewhere).  Chat
    rows are only ever added: a stored row is never altered or removed, and
    only a chat-message event adds one.  Boards change only under a
    drawing-update of sub-kind 'clear'. *)
Theorem relay_never_writes_rooms_or_users (jwt_verify : string → option string)
    (w : World) (i : Input) :
  let w' := post (step jwt_verify i) w in
  db_users (db w') = db_users (db w) ∧
  db_rooms (db w') = db_rooms (db w) ∧
  (∀ id c, db_chats (db w) !! id = Some c → db_chats (db w') !! id = Some c) ∧
  ((∀ sid text, i ≠ Event sid (ChatMessage text)) →
   db_chats (db w') = db_chats (db w)) ∧
  ((∀ sid data, i = Event sid (DrawingUpdate data) →
                data !! "type" ≠ Some (VStr "clear")) →
   db_boards (db w') = db_boards (db w)).
Proof.
  cbv zeta. destruct i as [sid token|sid ev|sid]; cbn [step].
  - assert (db (post (authenticateSocket jwt_verify sid token;; mret tt) w) = db w) as Hdb.
    { unfold post. unfold_monad.
      destruct (authenticateSocket_cases jwt_verify w sid token)
        as [[Hrun _] | [[Hrun _] | (? & ? & ? & _ & _ & _ & _ & _ & Hrun)]];
        by rewrite Hrun. }
    rewrite Hdb. done.
  - destruct (handleConnection_store w sid ev) as (Hu & Hr & Hkeep & Hc & Hb).
    split; [done|]. split; [done|]. split; [done|]. split.
    + intros Hno. apply Hc. intros text ->. by apply (Hno sid text).
    + intros Hno. apply Hb. intros data ->. by apply (Hno sid data).
  - assert (db (post (disconnect sid) w) = db w) as Hdb.
    { destruct (sockets w !! sid) as [s|] eqn:Hs.
      - by rewrite (disconnect_post w sid s Hs).
      - unfold post, disconnect. by rewrite Hs. }
    rewrite Hdb. done.
Qed.




(** X7: Connecting joins no room.  After a successful authentication the
    new socket has no room code and the live membership of every room is as
    before, so until a join-room succeeds every room-scoped event of the new
    socket is dropped without any effect, and disconnecting it notifies
    nobody. *)
Theorem connect_joins_no_room (jwt_verify : string → option string) (w : World)
    (sid : nat) (token : option string) :
  value (authenticateSocket jwt_verify sid token) w = Ok NextOk →
  let w' := post (authenticateSocket jwt_verify sid token) w in
  adapter w' = adapter w ∧
  (∃ s, sockets w' !! sid = Some s ∧ sock_roomCode s = None) ∧
  (∀ ev, room_scoped ev = true → handleConnection sid ev w' = (Ok tt, w', [])) ∧
  sent (disconnect sid) w' = [].
Proof.
  intros Hok w'. subst w'. unfold value, post in *.
  destruct (authenticateSocket_cases jwt_verify w sid token)
    as [[Hrun _] | [[Hrun _] | (tok & id & user & _ & _ & _ & _ & _ & Hrun)]];
    rewrite Hrun in *; cbn [fst snd] in *; try discriminate.
  set (s0 := {| sock_userId := user__id user; sock_user := user; sock_roomCode := None |}).
  set (w' := set_sockets (insert sid s0) (consume w)).
  assert (sockets w' !! sid = Some s0) as Hs by apply lookup_insert_eq.
  split; [done|]. split; [by exists s0|]. split.
  - intros ev Hev. unfold handleConnection. rewrite Hs.
    destruct ev; try discriminate; reflexivity.
  - by rewrite (disconnect_sent w' sid s0 Hs).
Qed.

Lemma connect_joins_no_room_witness :
  handleConnection 5 (ChatMessage "hi")
    (post (authenticateSocket jwt0 5 (Some "token-carol")) w_demo) =
    (Ok tt, post (authenticateSocket jwt0 5 (Some "token-carol")) w_demo, []).
Proof.
  pose proof (connect_joins_no_room jwt0 w_demo 5 (Some "token-carol")) as H.
  cbv zeta in H. destruct H as (_ & _ & Hdrop & _); [vm_compute; reflexivity|].
  by apply Hdrop.
Defined.

(** X8: An event never changes who a session is.  Handling any event of
    any session leaves the set of connected sockets as it was and, for
    every connected socket, its userId and user fields; only the sender's
    room code can change, and every other socket's fields are untouched. *)
Theorem events_keep_identities (w : World) (sid : nat) (ev : ClientEvent)
    (sid' : nat) (s' : Socket) :
  sockets w !! sid' = Some s' →
  let w' := post (handleConnection sid ev) w in
  dom (sockets w') = dom (sockets w) ∧
  ∃ s'', sockets w' !! sid' = Some s'' ∧
         sock_userId s'' = sock_userId s' ∧
         sock_user s'' = sock_user s' ∧
         (sid' ≠ sid → s'' = s') ∧
         (room_scoped ev = true → s'' = s').
Proof.
  intros Hs' w'. subst w'.
  destruct (room_scoped ev) eqn:Hev.
  - destruct (handle_frame sid ev w Hev) as [Hs _]. rewrite Hs.
    split; [done|]. by exists s'.
  - destruct ev as [rc| | | | | | |]; try discriminate.
    unfold post, handleConnection. destruct (sockets w !! sid) as [s|] eqn:Hs;
      [|split; [done | by exists s']].
    destruct (next_fault w) eqn:Hf;
      [rewrite on_join_room_throws by done; split; [done | by exists s']|].
    destruct (db_rooms (db w) !! rc) as [room|] eqn:Hroom;
      [|rewrite on_join_room_not_found by done; split; [done | by exists s']].
    destruct (decide (sock_userId s ∈ room_participants room)) as [Hp|Hp];
      [|erewrite on_join_room_denied by done; split; [done | by exists s']].
    rewrite (on_join_room_ok sid s rc w room Hf Hroom Hp). cbn [fst snd]. cbn.
    split.
    + apply set_eq. intros i. rewrite !elem_of_dom.
      destruct (decide (i = sid)) as [->|Hne].
      * rewrite lookup_alter_eq, Hs. cbn. split; eauto.
      * by rewrite lookup_alter_ne.
    + destruct (decide (sid' = sid)) as [->|Hne].
      * exists (with_roomCode rc s'). rewrite lookup_alter_eq, Hs'. cbn.
        repeat split; done.
      * exists s'. rewrite lookup_alter_ne by done. repeat split; done.
Qed.

Lemma events_keep_identities_witness :
  ∃ s, sockets (post (handleConnection 1 (JoinRoom "ROOM99")) w_demo) !! 1 = Some s ∧
       sock_userId s = "u1" ∧ sock_user s = alice.
Proof.
  pose proof (events_keep_identities w_demo 1 (JoinRoom "ROOM99") 1
                (connected alice (Some "ROOM42"))) as H.
  cbv zeta in H. destruct H as (_ & s & Hs & Hu & Husr & _); [reflexivity|].
  exists s. repeat split; assumption.
Defined.

(* --------------------------------------------------------------------- *)
(* 16a. The event loop and the listeners carried through                 *)
(* --------------------------------------------------------------------- *)

(** X21: The recorded room is a joined room, however the turns fall.  From
    a server that starts without connections, after any sequence of
    arrivals and completed store calls, listeners of one socket
    interleaved included, every connected session that has a room code
    recorded is a live member of that room. *)
Theorem recorded_room_is_joined (jwt_verify : string → option string) (d : Db)
    (fs : list bool) (turns : list Turn) :
  joined_in_room (world (run jwt_verify turns (boot d fs)).1).
Proof. apply joined_in_room_run, joined_in_room_initial. Qed.

(** X23: The relay writes neither users nor rooms, however the turns
    fall.  Along every sequence of connection attempts, events, disconnects
    and completed store calls, from any state of the server and with
    anything pending, the user store and the room store stay as they were
    and every stored chat row stays as it is. *)
Theorem store_kept_along_every_schedule (jwt_verify : string → option string)
    (turns : list Turn) (srv : Server) :
  db_users (db (world (run jwt_verify turns srv).1)) = db_users (db (world srv)) ∧
  db_rooms (db (world (run jwt_verify turns srv).1)) = db_rooms (db (world srv)) ∧
  (∀ id c, db_chats (db (world srv)) !! id = Some c →
           db_chats (db (world (run jwt_verify turns srv).1)) !! id = Some c).
Proof. apply run_store. Qed.

(** X22: A listener whose store calls complete at once, with no other turn
    in between, does what [handleConnection] says: the same outcome, the
    same state and the same messages in the same order. *)
Theorem listener_carried_through (sid : nat) (ev : ClientEvent) (w : World) :
  handleConnection sid ev w = (t ← start sid ev; finish 3 t) w.
Proof.
  unfold handleConnection, start. unfold mbind at 1, M_bind at 1, bind at 1.
  destruct (sockets w !! sid) as [s|] eqn:Hs; [|done].
  assert (∀ m : M unit,
            m w = match (m;; mret (@None Task)) w with
                  | (Ok t, w', ds) => let '(r, w'', ds') := finish 3 t w' in
                                      (r, w'', ds ++ ds')
                  | (Thrown e, w', ds) => (Thrown e, w', ds)
                  end) as Hsync.
  { intros m. unfold_monad. destruct (m w) as [[[[]|e] w1] ds1]; cbn;
      by rewrite ?app_nil_r. }
  destruct ev as [roomCode|data|text|data| |data|data|data]; try apply Hsync.
  - cbn [finish]. unfold_monad. cbn [resume]. unfold_monad.
    destruct (on_join_room sid s roomCode w) as [[[[]|e] w1] ds1] eqn:Hj; cbn;
      by rewrite ?app_nil_r.
  - unfold on_drawing_update, start_drawing_update, reported.
    destruct (sock_roomCode s) as [rc|]; [destruct (truthy (Some rc))|]; try done.
    unfold_monad. cbn. case_bool_decide; cbn; [|by rewrite ?app_nil_r].
    unfold reported. unfold_monad.
    step_await; [by rewrite ?app_nil_r|].
    destruct (db_rooms (db w) !! rc) as [room|]; cbn; [|by rewrite ?app_nil_r].
    unfold reported. unfold_monad.
    step_await; [by rewrite ?app_nil_r|].
    destruct (db_boards (db w) !! room__id room) as [board|]; cbn;
      [|by rewrite ?app_nil_r].
    unfold reported. unfold_monad.
    step_await; by rewrite ?app_nil_r.
  - unfold on_chat_message, start_chat_message.
    destruct (sock_roomCode s) as [rc|]; [destruct (truthy (Some rc))|]; try done.
    unfold_monad. cbn. unfold reported. unfold_monad.
    step_await; [by rewrite ?app_nil_r|].
    destruct (db_rooms (db w) !! rc) as [room|]; cbn; [|by rewrite ?app_nil_r].
    unfold reported. unfold_monad.
    step_await; [by rewrite ?app_nil_r|].
    unfold reported. unfold_monad.
    step_await; [by rewrite ?app_nil_r|].
    rewrite !lookup_insert_eq. cbn.
    destruct (sock_roomCode (default s (sockets w !! sid))) as [rc'|]; cbn;
      by rewrite ?app_nil_r.
Qed.

(* --------------------------------------------------------------------- *)
(* 17. The client's socket wrapper                                       *)
(* --------------------------------------------------------------------- *)

Lemma client_inv_emit (ev : ClientEvent) (c : SocketClient.t) :
  SocketClient.inv c → SocketClient.inv (SocketClient.emit ev c).
Proof.
  unfold SocketClient.emit.
  destruct (SocketClient.socket c) as [id0|] eqn:Hs; [|done].
  intros [Hheap Hcur]. split; cbn.
  - intros id cs. destruct (decide (id = id0)) as [->|Hne].
    + rewrite lookup_alter_eq. destruct (SocketClient.heap c !! id0) as [cs0|] eqn:H0;
        [|done]. cbn. intros [= <-]. cbn. destruct (Hheap id0 cs0 H0) as [H1 H2].
      split; [exact H1 | by rewrite <- Hs; intros ?; rewrite Hs].
    + rewrite lookup_alter_ne by done. intros Hcs.
      destruct (Hheap id cs Hcs) as [H1 H2]. split; [exact H1|].
      intros Hopen. specialize (H2 Hopen). congruence.
  - intros id [= <-]. rewrite lookup_alter_eq.
    destruct (Hcur id0 Hs) as [cs0 H0]. rewrite H0. cbn. eauto.
Qed.

Lemma client_inv_guarded (ev : ClientEvent) (c : SocketClient.t) :
  SocketClient.inv c →
  SocketClient.inv (if SocketClient.ready c then SocketClient.emit ev c else c).
Proof. intros H. destruct (SocketClient.ready c); [by apply client_inv_emit | done]. Qed.

Lemma client_inv_call (k : SocketClient.Call) (c : SocketClient.t) :
  SocketClient.inv c → SocketClient.inv (SocketClient.call k c).
Proof.
  intros Hinv. destruct k; cbn [SocketClient.call];
    try (by apply client_inv_guarded); try (by apply client_inv_emit).
  - (* connect *)
    destruct Hinv as [Hheap Hcur]. unfold SocketClient.connect.
    set (h := match SocketClient.socket c with
              | Some id => alter SocketClient.close id (SocketClient.heap c)
              | None => SocketClient.heap c
              end).
    assert (∀ id cs, h !! id = Some cs → SocketClient.cs_connected cs = false ∧
                                          SocketClient.cs_closed cs = true) as Hh.
    { intros id cs. subst h. destruct (SocketClient.socket c) as [id0|] eqn:Hs.
      - destruct (decide (id = id0)) as [->|Hne].
        + rewrite lookup_alter_eq.
          destruct (SocketClient.heap c !! id0) as [cs0|]; [|done]. cbn.
          intros [= <-]. done.
        + rewrite lookup_alter_ne by done. intros Hcs.
          destruct (Hheap id cs Hcs) as [H1 H2].
          destruct (SocketClient.cs_closed cs) eqn:Hc.
          * split; [|done]. destruct (SocketClient.cs_connected cs); [|done].
            by specialize (H1 eq_refl).
          * specialize (H2 eq_refl). congruence.
      - intros Hcs. destruct (Hheap id cs Hcs) as [H1 H2].
        destruct (SocketClient.cs_closed cs) eqn:Hc.
        + split; [|done]. destruct (SocketClient.cs_connected cs); [|done].
          by specialize (H1 eq_refl).
        + by specialize (H2 eq_refl). }
    split; cbn.
    + intros id cs. destruct (decide (id = fresh (dom h))) as [->|Hne].
      * rewrite lookup_insert_eq. intros [= <-]. cbn. done.
      * rewrite lookup_insert_ne by done. intros Hcs.
        destruct (Hh id cs Hcs) as [H1 H2]. rewrite H1, H2. done.
    + intros id [= <-]. rewrite lookup_insert_eq. eauto.
  - (* disconnect *)
    revert Hinv. unfold SocketClient.disconnect.
    destruct (SocketClient.socket c) as [id0|] eqn:Hs; [|done].
    intros [Hheap Hcur]. split; cbn; [|done].
    intros id cs. destruct (decide (id = id0)) as [->|Hne].
    + rewrite lookup_alter_eq.
      destruct (SocketClient.heap c !! id0) as [cs0|]; [|done]. cbn.
      intros [= <-]. done.
    + rewrite lookup_alter_ne by done. intros Hcs.
      destruct (Hheap id cs Hcs) as [H1 H2]. split; [exact H1|].
      intros Hopen. specialize (H2 Hopen). congruence.
  - (* transport up *)
    destruct Hinv as [Hheap Hcur]. split; cbn.
    + intros id0 cs. destruct (decide (id0 = id)) as [->|Hne].
      * rewrite lookup_alter_eq.
        destruct (SocketClient.heap c !! id) as [cs0|] eqn:H0; [|done]. cbn.
        destruct (Hheap id cs0 H0) as [H1 H2].
        destruct (SocketClient.cs_closed cs0) eqn:Hc; intros [= <-]; cbn.
        -- by rewrite Hc.
        -- split; [done|]. intros _. by apply H2.
      * rewrite lookup_alter_ne by done. apply Hheap.
    + intros id0 Hs. destruct (Hcur id0 Hs) as [cs0 H0].
      destruct (decide (id0 = id)) as [->|Hne].
      * rewrite lookup_alter_eq, H0. cbn. eauto.
      * rewrite lookup_alter_ne by done. eauto.
  - (* transport down *)
    destruct Hinv as [Hheap Hcur]. split; cbn.
    + intros id0 cs. destruct (decide (id0 = id)) as [->|Hne].
      * rewrite lookup_alter_eq.
        destruct (SocketClient.heap c !! id) as [cs0|] eqn:H0; [|done]. cbn.
        destruct (Hheap id cs0 H0) as [H1 H2]. intros [= <-]. cbn. done.
      * rewrite lookup_alter_ne by done. apply Hheap.
    + intros id0 Hs. destruct (Hcur id0 Hs) as [cs0 H0].
      destruct (decide (id0 = id)) as [->|Hne].
      * rewrite lookup_alter_eq, H0. cbn. eauto.
      * rewrite lookup_alter_ne by done. eauto.
Qed.

Lemma client_inv_calls (ks : list SocketClient.Call) (c : SocketClient.t) :
  SocketClient.inv c → SocketClient.inv (SocketClient.calls ks c).
Proof.
  revert c. induction ks as [|k ks IH]; intros c Hinv; [done|].
  cbn. apply IH. by apply client_inv_call.
Qed.

(** X9: The client keeps at most one connection.  After any sequence of
    calls on a fresh wrapper, interleaved with the transport coming up and
    going down, every socket object that has not been disconnected is the
    wrapper's current socket, so two of them are the same object; and a
    socket whose transport is up is never one that was disconnected:
    [connect] always closes the socket it replaces. *)
Theorem client_keeps_one_connection (ks : list SocketClient.Call) :
  let c := SocketClient.calls ks SocketClient.initial in
  SocketClient.single_open c ∧
  (∀ id1 id2 cs1 cs2,
     SocketClient.heap c !! id1 = Some cs1 → SocketClient.heap c !! id2 = Some cs2 →
     SocketClient.cs_closed cs1 = false → SocketClient.cs_closed cs2 = false →
     id1 = id2) ∧
  (∀ id cs, SocketClient.heap c !! id = Some cs →
     SocketClient.cs_connected cs = true → SocketClient.socket c = Some id).
Proof.
  cbv zeta.
  assert (SocketClient.inv (SocketClient.calls ks SocketClient.initial)) as [Hheap Hcur].
  { apply client_inv_calls. split; [|done]. intros id cs H. cbn in H.
    by rewrite lookup_empty in H. }
  split; [|split].
  - intros id cs Hcs. by apply Hheap.
  - intros id1 id2 cs1 cs2 H1 H2 Ho1 Ho2.
    destruct (Hheap id1 cs1 H1) as [_ Hc1]. destruct (Hheap id2 cs2 H2) as [_ Hc2].
    specialize (Hc1 Ho1). specialize (Hc2 Ho2). congruence.
  - intros id cs Hcs Hconn. destruct (Hheap id cs Hcs) as [H1 H2]. auto.
Qed.

(** X10: Nothing is sent before the connection is up.  While the wrapper
    has no socket (initially, or after [disconnect()]), every send method,
    [toggleVoice] included, does nothing at all.  While it has a socket
    whose transport is not up, joinRoom, sendDrawingUpdate,
    sendChatMessage and the three WebRTC sends are dropped, however many
    are made; [toggleVoice] alone is not guarded by the connection and is
    queued on the socket. *)
Theorem client_sends_dropped_until_connected (c : SocketClient.t)
    (ks : list SocketClient.Call) :
  SocketClient.ready c = false →
  Forall (fun k => SocketClient.needs_connection k = true) ks →
  SocketClient.calls ks c = c ∧
  (SocketClient.socket c = None →
   ∀ b, SocketClient.toggleVoice b c = c) ∧
  (∀ id cs b, SocketClient.socket c = Some id →
     SocketClient.heap c !! id = Some cs →
     SocketClient.cs_outgoing <$> SocketClient.heap (SocketClient.toggleVoice b c) !! id =
       Some (SocketClient.cs_outgoing cs ++
             [VoiceToggle (Some {[ "isEnabled" := VBool b ]})])).
Proof.
  intros Hready Hks. split; [|split].
  - induction Hks as [|k ks Hk _ IH]; [reflexivity|].
    cbn. replace (SocketClient.call k c) with c; [exact IH|].
    destruct k; try discriminate; cbn;
      unfold SocketClient.joinRoom, SocketClient.sendDrawingUpdate,
        SocketClient.sendChatMessage, SocketClient.sendWebRTCOffer,
        SocketClient.sendWebRTCAnswer, SocketClient.sendWebRTCIceCandidate;
      by rewrite Hready.
  - intros Hnone b. unfold SocketClient.toggleVoice, SocketClient.emit. by rewrite Hnone.
  - intros id cs b Hs Hcs. unfold SocketClient.toggleVoice, SocketClient.emit.
    rewrite Hs. cbn. by rewrite lookup_alter_eq, Hcs.
Qed.

Lemma client_sends_dropped_until_connected_witness :
  let c := SocketClient.connect "token-alice" SocketClient.initial in
  SocketClient.calls
    [SocketClient.JoinRoom' "ROOM42"; SocketClient.SendChatMessage "hi"] c = c ∧
  SocketClient.cs_outgoing <$>
    SocketClient.heap
      (SocketClient.calls
         [SocketClient.TransportUp 0; SocketClient.JoinRoom' "ROOM42";
          SocketClient.SendChatMessage "hi"] c) !! 0 =
    Some [JoinRoom "ROOM42"; ChatMessage "hi"].
Proof.
  cbv zeta. split.
  - apply (client_sends_dropped_until_connected
             (SocketClient.connect "token-alice" SocketClient.initial)
             [SocketClient.JoinRoom' "ROOM42"; SocketClient.SendChatMessage "hi"]).
    + vm_compute. reflexivity.
    + repeat constructor.
  - vm_compute. reflexivity.
Defined.

(* --------------------------------------------------------------------- *)
(* 18. The chat panel                                                    *)
(* --------------------------------------------------------------------- *)

Lemma handleChatMessage_known (m : PopulatedChat) (prev : list PopulatedChat) :
  pc__id m ∈ pc__id <$> prev → RoomInterface.handleChatMessage m prev = prev.
Proof.
  intros Hin. unfold RoomInterface.handleChatMessage.
  destruct (existsb _ prev) eqn:He; [reflexivity|].
  apply list_elem_of_fmap in Hin as (m' & Hid & Hm').
  assert (existsb (fun msg => bool_decide (pc__id msg = pc__id m)) prev = true) as Ht.
  { apply existsb_exists. exists m'. split; [by apply list_elem_of_In|].
    by apply bool_decide_eq_true_2. }
  congruence.
Qed.

Lemma handleChatMessage_new (m : PopulatedChat) (prev : list PopulatedChat) :
  pc__id m ∉ pc__id <$> prev → RoomInterface.handleChatMessage m prev = prev ++ [m].
Proof.
  intros Hnot. unfold RoomInterface.handleChatMessage.
  destruct (existsb _ prev) eqn:He; [|reflexivity].
  apply existsb_exists in He as (m' & Hm' & Hid).
  apply bool_decide_eq_true_1 in Hid. destruct Hnot.
  apply list_elem_of_fmap. exists m'. split; [done | by apply list_elem_of_In].
Qed.

Lemma handleChatMessage_step (m : PopulatedChat) (prev : list PopulatedChat) :
  NoDup (pc__id <$> prev) →
  NoDup (pc__id <$> RoomInterface.handleChatMessage m prev) ∧
  prev `prefix_of` RoomInterface.handleChatMessage m prev ∧
  pc__id m ∈ pc__id <$> RoomInterface.handleChatMessage m prev.
Proof.
  intros Hnd. destruct (decide (pc__id m ∈ pc__id <$> prev)) as [Hin|Hnot].
  - rewrite (handleChatMessage_known m prev Hin). done.
  - rewrite (handleChatMessage_new m prev Hnot). split; [|split].
    + rewrite fmap_app. apply NoDup_app. split; [done|]. split.
      * intros x Hx Hx'. cbn in Hx'. apply list_elem_of_singleton in Hx'. by subst.
      * cbn. apply NoDup_singleton.
    + by apply prefix_app_r.
    + rewrite fmap_app. apply elem_of_app. right. cbn. by apply list_elem_of_singleton.
Qed.

Lemma receive_known (incoming prev : list PopulatedChat) :
  (∀ m, m ∈ incoming → pc__id m ∈ pc__id <$> prev) →
  RoomInterface.receive incoming prev = prev.
Proof.
  induction incoming as [|m ms IH]; intros Hall; [reflexivity|].
  unfold RoomInterface.receive in *. cbn.
  rewrite handleChatMessage_known by (apply Hall; by left).
  apply IH. intros m' Hm'. apply Hall. by right.
Qed.

Lemma receive_spec (incoming prev : list PopulatedChat) :
  NoDup (pc__id <$> prev) →
  NoDup (pc__id <$> RoomInterface.receive incoming prev) ∧
  prev `prefix_of` RoomInterface.receive incoming prev ∧
  (∀ m, m ∈ incoming → pc__id m ∈ pc__id <$> RoomInterface.receive incoming prev).
Proof.
  revert prev. induction incoming as [|m ms IH]; intros prev Hnd.
  - split; [done|]. split; [done|]. intros m Hm. by apply elem_of_nil in Hm.
  - destruct (handleChatMessage_step m prev Hnd) as (Hnd1 & Hpre1 & Hin1).
    destruct (IH _ Hnd1) as (Hnd2 & Hpre2 & Hin2).
    unfold RoomInterface.receive in *. cbn. split; [done|]. split.
    + by etrans.
    + intros m' Hm'. apply elem_of_cons in Hm' as [->|Hm']; [|by apply Hin2].
      destruct Hpre2 as [k ->]. rewrite fmap_app. apply elem_of_app. by left.
Qed.

(** X11: The chat panel shows each message once.  Starting from a list
    without repeated ids, after any stream of chat-message events the list
    still has no repeated id, the messages shown before are still there in
    the same order at the front, every received id is shown, and the same
    stream delivered a second time (a redelivery after a reconnect) changes
    nothing. *)
Theorem chat_panel_shows_each_message_once (incoming prev : list PopulatedChat) :
  NoDup (pc__id <$> prev) →
  let shown := RoomInterface.receive incoming prev in
  NoDup (pc__id <$> shown) ∧
  prev `prefix_of` shown ∧
  (∀ m, m ∈ incoming → pc__id m ∈ pc__id <$> shown) ∧
  RoomInterface.receive incoming shown = shown.
Proof.
  intros Hnd shown. destruct (receive_spec incoming prev Hnd) as (H1 & H2 & H3).
  split; [done|]. split; [done|]. split; [done|]. by apply receive_known.
Qed.

Lemma chat_panel_shows_each_message_once_witness :
  let m (id : nat) (text : string) :=
    {| pc__id := id; pc_roomId := 7; pc_sender := None; pc_message := text;
       pc_createdAt := 100 |} in
  RoomInterface.receive [m 1 "b"; m 2 "c"; m 1 "b"] [m 0 "a"] =
    [m 0 "a"; m 1 "b"; m 2 "c"].
Proof.
  cbv zeta.
  pose proof (chat_panel_shows_each_message_once
    [{| pc__id := 1; pc_roomId := 7; pc_sender := None; pc_message := "b";
        pc_createdAt := 100 |};
     {| pc__id := 2; pc_roomId := 7; pc_sender := None; pc_message := "c";
        pc_createdAt := 100 |};
     {| pc__id := 1; pc_roomId := 7; pc_sender := None; pc_message := "b";
        pc_createdAt := 100 |}]
    [{| pc__id := 0; pc_roomId := 7; pc_sender := None; pc_message := "a";
        pc_createdAt := 100 |}]) as H.
  cbv zeta in H. destruct H as (_ & _ & _ & _).
  - cbn. apply NoDup_singleton.
  - vm_compute. reflexivity.
Defined.

(** X12: A message the server has just stored is never taken for a
    duplicate.  If a client's chat panel shows only rows of the store, the
    chat-message it receives for a message sent now carries an id no stored
    row has, so the panel appends it. *)
Theorem fresh_chat_message_is_appended (w : World) (sid : nat) (s : Socket)
    (rc text : string) (d : nat) (pm : PopulatedChat) (prev : list PopulatedChat) :
  sockets w !! sid = Some s →
  sock_roomCode s = Some rc →
  truthy (Some rc) = true →
  inbox (sent (handleConnection sid (ChatMessage text)) w) d =
    [("chat-message", PChat pm)] →
  (∀ m, m ∈ prev → pc__id m ∈ dom (db_chats (db w))) →
  (pc__id pm ∉ dom (db_chats (db w))) ∧
  pc_message pm = text ∧
  RoomInterface.handleChatMessage pm prev = prev ++ [pm].
Proof.
  intros Hs Hrc Ht Hin Hprev.
  unfold sent, handleConnection in Hin. rewrite Hs in Hin.
  destruct (on_chat_message_cases w sid s rc text Hs Hrc Ht)
    as [(room & id & _ & Hid & _ & _ & Hsent) | (msg & Hsent & _)];
    unfold sent in Hsent; rewrite Hsent in Hin.
  - rewrite inbox_fanout_set in Hin. case_decide; [|discriminate].
    injection Hin as <-.
    cbn [populate pc__id pc_message chat_message].
    assert (id ∉ dom (db_chats (db w))) as Hfresh by (rewrite Hid; apply is_fresh).
    split; [done|]. split; [done|].
    apply handleChatMessage_new. cbn [pc__id]. intros Hid'.
    apply list_elem_of_fmap in Hid' as (m & Hm & Hm'). apply Hfresh.
    cbn [pc__id populate] in Hm. rewrite Hm. by apply Hprev.
  - rewrite inbox_error_to in Hin. case_decide; discriminate.
Qed.

Lemma fresh_chat_message_is_appended_witness :
  ∃ pm, inbox (sent (handleConnection 1 (ChatMessage "hi")) w_demo) 2 =
          [("chat-message", PChat pm)] ∧
        RoomInterface.handleChatMessage pm [] = [pm].
Proof.
  eexists. split; [vm_compute; reflexivity|].
  eapply (fresh_chat_message_is_appended w_demo 1 (connected alice (Some "ROOM42"))
            "ROOM42" "hi" 2 _ []).
  - reflexivity.
  - reflexivity.
  - reflexivity.
  - vm_compute. reflexivity.
  - intros m Hm. by apply elem_of_nil in Hm.
Defined.

(* --------------------------------------------------------------------- *)
(* 19. The whiteboard                                                    *)
(* --------------------------------------------------------------------- *)

(** X13: A remote cursor is filed under the sender's real identity.  When
    a session in a room sends a cursor update with coordinates, every peer
    that receives the relayed event records the cursor under the sending
    session's authenticated userId, whatever userId the client wrote into
    the payload, and touches neither its canvas nor any other cursor.  The
    label shown is the username the sender put in the payload, or "User"
    when there is none: the server does not stamp it. *)
Theorem remote_cursor_filed_under_sender (w : World) (sid : nat) (s : Socket)
    (rc : string) (data : JsObj) (d : nat) (relayed : JsObj) (st : Whiteboard.Remote) :
  sockets w !! sid = Some s →
  sock_roomCode s = Some rc →
  truthy (Some rc) = true →
  sock_userId s ≠ "" →
  data !! "type" = Some (VStr "cursor") →
  js_field data "x" ≠ VUndef →
  js_field data "y" ≠ VUndef →
  inbox (sent (handleConnection sid (DrawingUpdate data)) w) d =
    [("drawing-update", PDrawing relayed)] →
  Whiteboard.handleDrawingUpdate relayed st =
    {| Whiteboard.canvas_calls := Whiteboard.canvas_calls st;
       Whiteboard.remoteCursors :=
         <[sock_userId s :=
             {| Whiteboard.cursor_x := js_field data "x";
                Whiteboard.cursor_y := js_field data "y";
                Whiteboard.cursor_username :=
                  js_or (js_field data "username") (VStr "User") |}]>
           (Whiteboard.remoteCursors st) |}.
Proof.
  intros Hs Hrc Ht Huid Hty Hx Hy Hin.
  assert (data !! "type" ≠ Some (VStr "clear")) as Hnc by (rewrite Hty; congruence).
  unfold sent, handleConnection in Hin. rewrite Hs in Hin.
  rewrite (on_drawing_update_other w sid s rc data Hrc Ht Hnc) in Hin. cbn [snd] in Hin.
  rewrite inbox_relay_peers in Hin.
  destruct (decide (d = sid)); [discriminate|].
  destruct (decide (d ∈ members w rc)); [|discriminate].
  injection Hin as <-.
  assert (∀ k, k ≠ "userId" →
            js_field (<["userId" := VStr (sock_userId s)]> data) k = js_field data k) as Hk.
  { intros k Hne. unfold js_field. by rewrite lookup_insert_ne. }
  assert (js_field (<["userId" := VStr (sock_userId s)]> data) "userId" =
            VStr (sock_userId s)) as Hu.
  { unfold js_field. by rewrite lookup_insert_eq. }
  unfold Whiteboard.handleDrawingUpdate. cbv zeta.
  rewrite Hu, !Hk by done.
  assert (js_field data "type" = VStr "cursor") as Hty' by (unfold js_field; by rewrite Hty).
  rewrite Hty'.
  rewrite (bool_decide_eq_false_2 (VStr "cursor" = VStr "draw")) by congruence.
  rewrite (bool_decide_eq_false_2 (VStr "cursor" = VStr "shape")) by congruence.
  rewrite (bool_decide_eq_false_2 (VStr "cursor" = VStr "clear")) by congruence.
  rewrite (bool_decide_eq_true_2 (VStr "cursor" = VStr "cursor")) by done.
  unfold Whiteboard.defined. rewrite !bool_decide_eq_true_2 by done.
  cbn [andb js_truthy js_to_string]. rewrite decide_False by done. reflexivity.
Qed.

Lemma remote_cursor_filed_under_sender_witness :
  Whiteboard.remoteCursors
    (Whiteboard.handleDrawingUpdate
       {[ "type" := VStr "cursor"; "x" := VNum 10; "y" := VNum 20; "userId" := VStr "u1" ]}
       {| Whiteboard.canvas_calls := []; Whiteboard.remoteCursors := ∅ |}) !! "u1" =
    Some {| Whiteboard.cursor_x := VNum 10; Whiteboard.cursor_y := VNum 20;
            Whiteboard.cursor_username := VStr "User" |}.
Proof.
  rewrite (remote_cursor_filed_under_sender w_demo 1 (connected alice (Some "ROOM42"))
             "ROOM42"
             {[ "type" := VStr "cursor"; "x" := VNum 10; "y" := VNum 20;
                "userId" := VStr "u2" ]}
             2 _ _ eq_refl eq_refl eq_refl).
  - vm_compute. reflexivity.
  - done.
  - reflexivity.
  - vm_compute. congruence.
  - vm_compute. congruence.
  - vm_compute. reflexivity.
Defined.

Lemma saveToHistory_in_range (b : Whiteboard.Local) :
  Whiteboard.in_range b →
  Whiteboard.history (Whiteboard.saveToHistory b) =
    take (Z.to_nat (Whiteboard.historyIndex b + 1)) (Whiteboard.history b)
      ++ [Whiteboard.canvas b] ∧
  Z.of_nat (length (Whiteboard.history (Whiteboard.saveToHistory b))) =
    (Whiteboard.historyIndex b + 2)%Z ∧
  Whiteboard.historyIndex (Whiteboard.saveToHistory b) =
    (Whiteboard.historyIndex b + 1)%Z.
Proof.
  intros [Hlo Hhi]. unfold Whiteboard.saveToHistory, Whiteboard.slice0. cbn.
  destruct (Whiteboard.historyIndex b + 1 <? 0)%Z eqn:Hneg; [lia|].
  split; [done|]. split; [|done].
  rewrite length_app, length_take. cbn. lia.
Qed.

Lemma index_in_range {A} (l : list A) (i : Z) :
  (0 ≤ i < Z.of_nat (length l))%Z → ∃ x, Whiteboard.index l i = Some x.
Proof.
  intros [Hlo Hhi]. unfold Whiteboard.index.
  destruct (i <? 0)%Z eqn:Hneg; [lia|].
  apply lookup_lt_is_Some_2. lia.
Qed.

Lemma act_in_range (a : Whiteboard.Action) (b : Whiteboard.Local) :
  Whiteboard.in_range b → Whiteboard.in_range (Whiteboard.act a b).
Proof.
  intros Hr. pose proof Hr as [Hlo Hhi].
  destruct a as [img|blank| |]; cbn [Whiteboard.act].
  - destruct (saveToHistory_in_range b Hr) as (_ & Hlen & Hidx).
    unfold Whiteboard.stroke, Whiteboard.paint, Whiteboard.in_range.
    cbn [Whiteboard.history Whiteboard.historyIndex].
    lia.
  - destruct (saveToHistory_in_range b Hr) as (_ & Hlen & Hidx).
    unfold Whiteboard.clearCanvas, Whiteboard.paint, Whiteboard.in_range.
    cbn [fst Whiteboard.history Whiteboard.historyIndex].
    lia.
  - unfold Whiteboard.undo.
    destruct (Whiteboard.historyIndex b <=? 0)%Z eqn:Hg; [done|].
    destruct (index_in_range (Whiteboard.history b) (Whiteboard.historyIndex b - 1))
      as [img Himg]; [lia|].
    cbv zeta. rewrite Himg. unfold Whiteboard.in_range. cbn. lia.
  - unfold Whiteboard.redo.
    destruct (Whiteboard.historyIndex b >=? Z.of_nat (length (Whiteboard.history b)) - 1)%Z
      eqn:Hg; [done|].
    destruct (index_in_range (Whiteboard.history b) (Whiteboard.historyIndex b + 1))
      as [img Himg]; [lia|].
    cbv zeta. rewrite Himg. unfold Whiteboard.in_range. cbn. lia.
Qed.

Lemma acts_in_range (l : list Whiteboard.Action) (b : Whiteboard.Local) :
  Whiteboard.in_range b → Whiteboard.in_range (Whiteboard.acts l b).
Proof.
  revert b. induction l as [|a l IH]; intros b Hr; [done|].
  cbn. apply IH. by apply act_in_range.
Qed.

(** X14: Undo and redo never read outside the history.  From the state of
    a freshly mounted whiteboard, or from the empty history before the
    first snapshot, any sequence of strokes, clears, undos and redos keeps
    the history index between -1 and the last position of the history.  So
    whenever undo (or redo) is enabled, the canvas is replaced by the
    snapshot stored just before (just after) the index, the index moves by
    one and the history list is untouched; and right after a stroke or a
    clear the index is the last position, so redo does nothing. *)
Theorem history_index_stays_in_range (l : list Whiteboard.Action)
    (b0 : Whiteboard.Local) :
  Whiteboard.in_range b0 →
  let b := Whiteboard.acts l b0 in
  Whiteboard.in_range b ∧
  ((0 < Whiteboard.historyIndex b)%Z →
   ∃ img, Whiteboard.history b !! Z.to_nat (Whiteboard.historyIndex b - 1) = Some img ∧
          Whiteboard.undo b =
            {| Whiteboard.canvas := img; Whiteboard.history := Whiteboard.history b;
               Whiteboard.historyIndex := (Whiteboard.historyIndex b - 1)%Z |}) ∧
  ((Whiteboard.historyIndex b < Z.of_nat (length (Whiteboard.history b)) - 1)%Z →
   ∃ img, Whiteboard.history b !! Z.to_nat (Whiteboard.historyIndex b + 1) = Some img ∧
          Whiteboard.redo b =
            {| Whiteboard.canvas := img; Whiteboard.history := Whiteboard.history b;
               Whiteboard.historyIndex := (Whiteboard.historyIndex b + 1)%Z |}) ∧
  (∀ img, Whiteboard.redo (Whiteboard.stroke img b) = Whiteboard.stroke img b).
Proof.
  intros Hr0 b. pose proof (acts_in_range l b0 Hr0) as Hr. fold b in Hr.
  pose proof Hr as [Hlo Hhi].
  split; [done|]. split; [|split].
  - intros Hpos. unfold Whiteboard.undo.
    destruct (Whiteboard.historyIndex b <=? 0)%Z eqn:Hg; [lia|].
    unfold Whiteboard.index. cbv zeta.
    destruct (Whiteboard.historyIndex b - 1 <? 0)%Z eqn:Hneg; [lia|].
    destruct (lookup_lt_is_Some_2 (Whiteboard.history b)
                (Z.to_nat (Whiteboard.historyIndex b - 1))) as [img Himg]; [lia|].
    exists img. rewrite Himg. done.
  - intros Hlt. unfold Whiteboard.redo.
    destruct (Whiteboard.historyIndex b >=? Z.of_nat (length (Whiteboard.history b)) - 1)%Z
      eqn:Hg; [lia|].
    unfold Whiteboard.index. cbv zeta.
    destruct (Whiteboard.historyIndex b + 1 <? 0)%Z eqn:Hneg; [lia|].
    destruct (lookup_lt_is_Some_2 (Whiteboard.history b)
                (Z.to_nat (Whiteboard.historyIndex b + 1))) as [img Himg]; [lia|].
    exists img. rewrite Himg. done.
  - intros img. destruct (saveToHistory_in_range b Hr) as (_ & Hlen & Hidx).
    unfold Whiteboard.redo, Whiteboard.stroke, Whiteboard.paint.
    cbn [Whiteboard.history Whiteboard.historyIndex].
    destruct (_ >=? _)%Z eqn:Hg; [done | lia].
Qed.

Lemma history_index_stays_in_range_witness :
  Whiteboard.acts [Whiteboard.Stroke "s1"; Whiteboard.Undo; Whiteboard.Redo;
                   Whiteboard.Redo; Whiteboard.Undo; Whiteboard.Undo]
    (Whiteboard.mounted "blank") =
    {| Whiteboard.canvas := "blank"; Whiteboard.history := ["blank"; "blank"];
       Whiteboard.historyIndex := 0 |} ∧
  Whiteboard.in_range
    (Whiteboard.acts [Whiteboard.Stroke "s1"; Whiteboard.Undo; Whiteboard.Redo;
                      Whiteboard.Redo; Whiteboard.Undo; Whiteboard.Undo]
       (Whiteboard.mounted "blank")).
Proof.
  split; [vm_compute; reflexivity|].
  apply (history_index_stays_in_range
           [Whiteboard.Stroke "s1"; Whiteboard.Undo; Whiteboard.Redo;
            Whiteboard.Redo; Whiteboard.Undo; Whiteboard.Undo]
           (Whiteboard.mounted "blank")).
  unfold Whiteboard.in_range. cbn. lia.
Defined.

Lemma stroke_at_end (img : string) (b : Whiteboard.Local) :
  Whiteboard.historyIndex b = (Z.of_nat (length (Whiteboard.history b)) - 1)%Z →
  Whiteboard.stroke img b =
    {| Whiteboard.canvas := img;
       Whiteboard.history := Whiteboard.history b ++ [Whiteboard.canvas b];
       Whiteboard.historyIndex := Z.of_nat (length (Whiteboard.history b)) |}.
Proof.
  intros Hend. unfold Whiteboard.stroke, Whiteboard.paint, Whiteboard.saveToHistory,
    Whiteboard.slice0. cbn. rewrite Hend.
  destruct (_ <? 0)%Z eqn:Hneg; [lia|].
  replace (Z.to_nat (Z.of_nat (length (Whiteboard.history b)) - 1 + 1))
    with (length (Whiteboard.history b)) by lia.
  rewrite take_ge by lia. f_equal. lia.
Qed.

Lemma strokes_at_end (imgs : list string) (b : Whiteboard.Local) :
  Whiteboard.historyIndex b = (Z.of_nat (length (Whiteboard.history b)) - 1)%Z →
  Whiteboard.strokes imgs b =
    {| Whiteboard.canvas := default (Whiteboard.canvas b) (last imgs);
       Whiteboard.history :=
         Whiteboard.history b ++ take (length imgs) (Whiteboard.canvas b :: imgs);
       Whiteboard.historyIndex :=
         (Whiteboard.historyIndex b + Z.of_nat (length imgs))%Z |}.
Proof.
  revert b. induction imgs as [|img imgs IH]; intros b Hend.
  - cbn. rewrite app_nil_r, Z.add_0_r. by destruct b.
  - unfold Whiteboard.strokes in *. cbn [foldl]. rewrite (stroke_at_end img b Hend).
    rewrite IH by (cbn; rewrite length_app; cbn; lia).
    cbn [Whiteboard.canvas Whiteboard.history Whiteboard.historyIndex].
    f_equal.
    + rewrite last_cons. by destruct (last imgs).
    + rewrite <- app_assoc. reflexivity.
    + rewrite Hend. cbn [length]. lia.
Qed.

Lemma lookup_last_cons {A} (x : A) (l : list A) :
  (x :: l) !! length l = Some (default x (last l)).
Proof.
  revert x. induction l as [|y l IH]; intros x; [reflexivity|].
  change ((x :: y :: l) !! length (y :: l)) with ((y :: l) !! length l).
  rewrite IH, (last_cons y l). by destruct (last l).
Qed.

(** X15: Undo after two strokes removes both, and the latest is lost.  On
    a mounted whiteboard, after any strokes followed by a stroke that
    leaves the canvas as [a] and one that leaves it as [b], the history
    holds the canvas as it was before each stroke, so the latest canvas
    [b] is not saved; undo then shows the canvas as it was before the
    stroke that made [a] (not [a]), redo then shows [a], and a further
    redo changes nothing. *)
Theorem undo_after_two_strokes_drops_both (c0 : string) (before : list string)
    (a b : string) :
  let st := Whiteboard.strokes (before ++ [a; b]) (Whiteboard.mounted c0) in
  let p := default c0 (last before) in
  Whiteboard.canvas st = b ∧
  Whiteboard.history st = c0 :: c0 :: before ++ [a] ∧
  Whiteboard.canvas (Whiteboard.undo st) = p ∧
  Whiteboard.canvas (Whiteboard.redo (Whiteboard.undo st)) = a ∧
  Whiteboard.redo (Whiteboard.redo (Whiteboard.undo st)) =
    Whiteboard.redo (Whiteboard.undo st).
Proof.
  cbv zeta. rewrite strokes_at_end by reflexivity.
  cbn [Whiteboard.mounted Whiteboard.canvas Whiteboard.history Whiteboard.historyIndex].
  set (n := length before).
  assert (length (before ++ [a; b]) = n + 2) as Hlen by (rewrite length_app; cbn; lia).
  assert (take (length (before ++ [a; b])) (c0 :: before ++ [a; b]) = c0 :: before ++ [a])
    as Htake.
  { rewrite Hlen. replace (n + 2) with (S (n + 1)) by lia. cbn [take]. f_equal.
    rewrite take_app_ge by (fold n; lia). fold n.
    replace (n + 1 - n) with 1 by lia. reflexivity. }
  rewrite Htake, Hlen.
  assert (last (before ++ [a; b]) = Some b) as Hlast.
  { replace (before ++ [a; b]) with ((before ++ [a]) ++ [b])
      by (by rewrite <- app_assoc).
    apply last_snoc. }
  rewrite Hlast. cbn [default app].
  set (h := c0 :: c0 :: before ++ [a]).
  assert (length h = n + 3) as Hh by (subst h; cbn; rewrite length_app; cbn; lia).
  assert (h !! (n + 1) = Some (default c0 (last before))) as Hp.
  { subst h. replace (n + 1) with (S n) by lia. cbn [lookup].
    change (list_lookup (S n) (c0 :: c0 :: before ++ [a]))
      with ((c0 :: before ++ [a]) !! n).
    rewrite (lookup_app_l (c0 :: before) [a]) by (cbn; fold n; lia).
    apply lookup_last_cons. }
  assert (h !! (n + 2) = Some a) as Ha.
  { subst h. replace (n + 2) with (S (S n)) by lia.
    change ((c0 :: c0 :: before ++ [a]) !! S (S n)) with ((before ++ [a]) !! n).
    rewrite lookup_app_r by (fold n; lia). fold n. by rewrite Nat.sub_diag. }
  split; [done|]. split; [done|].
  assert (Whiteboard.undo
            {| Whiteboard.canvas := b; Whiteboard.history := h;
               Whiteboard.historyIndex := (0 + Z.of_nat (n + 2))%Z |} =
          {| Whiteboard.canvas := default c0 (last before); Whiteboard.history := h;
             Whiteboard.historyIndex := Z.of_nat (n + 1) |}) as Hundo.
  { unfold Whiteboard.undo, Whiteboard.index.
    cbn [Whiteboard.history Whiteboard.historyIndex].
    destruct (_ <=? 0)%Z eqn:Hg; [exfalso; apply Z.leb_le in Hg; lia|]. cbv zeta.
    destruct (_ <? 0)%Z eqn:Hneg; [exfalso; apply Z.ltb_lt in Hneg; lia|].
    replace (Z.to_nat (0 + Z.of_nat (n + 2) - 1)) with (n + 1) by lia.
    rewrite Hp. unfold Whiteboard.show, Whiteboard.set_index.
    cbn [Whiteboard.history Whiteboard.historyIndex]. f_equal. lia. }
  assert (Whiteboard.redo
            {| Whiteboard.canvas := default c0 (last before); Whiteboard.history := h;
               Whiteboard.historyIndex := Z.of_nat (n + 1) |} =
          {| Whiteboard.canvas := a; Whiteboard.history := h;
             Whiteboard.historyIndex := Z.of_nat (n + 2) |}) as Hredo.
  { unfold Whiteboard.redo, Whiteboard.index. cbn [Whiteboard.history Whiteboard.historyIndex].
    rewrite Hh. destruct (_ >=? _)%Z eqn:Hg; [exfalso; apply Z.geb_le in Hg; lia|]. cbv zeta.
    destruct (_ <? 0)%Z eqn:Hneg; [exfalso; apply Z.ltb_lt in Hneg; lia|].
    replace (Z.to_nat (Z.of_nat (n + 1) + 1)) with (n + 2) by lia.
    rewrite Ha. unfold Whiteboard.show, Whiteboard.set_index.
    cbn [Whiteboard.history Whiteboard.historyIndex]. f_equal. lia. }
  change (id b) with b. rewrite Hundo, Hredo. split; [done|]. split; [done|].
  unfold Whiteboard.redo. cbn [Whiteboard.history Whiteboard.historyIndex].
  rewrite Hh. destruct (_ >=? _)%Z eqn:Hg; [done | exfalso; rewrite Z.geb_leb in Hg; apply Z.leb_gt in Hg; lia].
Qed.

Lemma undo_after_two_strokes_drops_both_example :
  Whiteboard.canvas
    (Whiteboard.undo (Whiteboard.strokes ["s1"; "s2"] (Whiteboard.mounted "blank"))) =
    "blank" ∧
  Whiteboard.canvas
    (Whiteboard.redo
       (Whiteboard.undo (Whiteboard.strokes ["s1"; "s2"] (Whiteboard.mounted "blank")))) =
    "s1".
Proof.
  destruct (undo_after_two_strokes_drops_both "blank" [] "s1" "s2")
    as (_ & _ & Hu & Hr & _).
  split; [exact Hu | exact Hr].
Defined.

(* --------------------------------------------------------------------- *)
(* 20. Voice chat teardown                                               *)
(* --------------------------------------------------------------------- *)

Lemma close_all_unguarded_audio (l : list (string * VoiceChat.PeerConnection)) :
  Forall (fun e => is_Some (VoiceChat.audioElement e.2)) l →
  VoiceChat.close_all_unguarded l =
    (false, concat (VoiceChat.close_peer <$> (snd <$> l))).
Proof.
  induction 1 as [|[k p] l [el Hel] _ IH]; [reflexivity|].
  cbn [snd] in Hel.
  cbn [VoiceChat.close_all_unguarded fmap list_fmap concat snd].
  rewrite Hel, IH. unfold VoiceChat.close_peer. by rewrite Hel.
Qed.

Lemma close_all_unguarded_throws (l1 l2 : list (string * VoiceChat.PeerConnection))
    (k : string) (p : VoiceChat.PeerConnection) :
  Forall (fun e => is_Some (VoiceChat.audioElement e.2)) l1 →
  VoiceChat.audioElement p = None →
  VoiceChat.close_all_unguarded (l1 ++ (k, p) :: l2) =
    (true, concat (VoiceChat.close_peer <$> (snd <$> l1))
             ++ [VoiceChat.ConnectionClose (VoiceChat.connection p)]).
Proof.
  intros Hl1 Hp. induction Hl1 as [|[k1 p1] l1 [el Hel] _ IH].
  - cbn. by rewrite Hp.
  - cbn [snd] in Hel.
    cbn [app VoiceChat.close_all_unguarded fmap list_fmap concat snd].
    rewrite Hel, IH. unfold VoiceChat.close_peer. by rewrite Hel.
Qed.

(** X16: Unmounting the voice chat leaks connections when a peer has no
    audio yet.  If every peer has an audio element, [cleanup] closes every
    connection, removes every audio element and empties the peer map.  But
    if some peer has none (its remote track has not arrived), [cleanup]
    throws at the first such peer: the peers before it and that peer's
    connection are closed, no later peer is touched, and the peer map is
    not emptied.  Turning the microphone off on the same state closes
    every connection and empties the map. *)
Theorem cleanup_stops_at_peer_without_audio (st : VoiceChat.State)
    (l1 l2 : list (string * VoiceChat.PeerConnection)) (k : string)
    (p : VoiceChat.PeerConnection) :
  VoiceChat.peers st = l1 ++ (k, p) :: l2 →
  Forall (fun e => is_Some (VoiceChat.audioElement e.2)) l1 →
  VoiceChat.audioElement p = None →
  VoiceChat.cleanup st =
    (Thrown "TypeError", st,
     VoiceChat.stop_tracks st
       ++ concat (VoiceChat.close_peer <$> (snd <$> l1))
       ++ [VoiceChat.ConnectionClose (VoiceChat.connection p)]) ∧
  (VoiceChat.disableMicrophone st).2 =
    VoiceChat.stop_tracks st
      ++ concat (VoiceChat.close_peer <$> (snd <$> l1))
      ++ [VoiceChat.ConnectionClose (VoiceChat.connection p)]
      ++ concat (VoiceChat.close_peer <$> (snd <$> l2)) ∧
  VoiceChat.peers (VoiceChat.disableMicrophone st).1 = [] ∧
  (∀ st', Forall (fun e => is_Some (VoiceChat.audioElement e.2)) (VoiceChat.peers st') →
     (VoiceChat.cleanup st').1.1 = Ok tt ∧
     VoiceChat.peers (VoiceChat.cleanup st').1.2 = [] ∧
     (VoiceChat.cleanup st').2 = (VoiceChat.disableMicrophone st').2).
Proof.
  intros Hpeers Hl1 Hp. split; [|split; [|split; [done|]]].
  - unfold VoiceChat.cleanup.
    rewrite Hpeers, (close_all_unguarded_throws l1 l2 k p Hl1 Hp). reflexivity.
  - unfold VoiceChat.disableMicrophone. cbn [snd]. rewrite Hpeers.
    rewrite !fmap_app, concat_app. cbn [fmap list_fmap concat snd].
    unfold VoiceChat.close_peer at 2. rewrite Hp. reflexivity.
  - intros st' Hall. unfold VoiceChat.cleanup.
    rewrite (close_all_unguarded_audio _ Hall). done.
Qed.

Lemma cleanup_stops_at_peer_without_audio_witness :
  let st := {| VoiceChat.localStream := Some [1];
               VoiceChat.peers :=
                 [("u2", {| VoiceChat.connection := 10; VoiceChat.audioElement := Some 20 |});
                  ("u3", {| VoiceChat.connection := 11; VoiceChat.audioElement := None |});
                  ("u4", {| VoiceChat.connection := 12; VoiceChat.audioElement := Some 22 |})];
               VoiceChat.connectedUsers := ["u2"; "u4"];
               VoiceChat.isMicEnabled := true |} in
  VoiceChat.cleanup st =
    (Thrown "TypeError", st,
     [VoiceChat.TrackStop 1; VoiceChat.ConnectionClose 10; VoiceChat.AudioRemove 20;
      VoiceChat.ConnectionClose 11]).
Proof.
  cbv zeta.
  destruct (cleanup_stops_at_peer_without_audio
              {| VoiceChat.localStream := Some [1];
                 VoiceChat.peers :=
                   [("u2", {| VoiceChat.connection := 10; VoiceChat.audioElement := Some 20 |});
                    ("u3", {| VoiceChat.connection := 11; VoiceChat.audioElement := None |});
                    ("u4", {| VoiceChat.connection := 12; VoiceChat.audioElement := Some 22 |})];
                 VoiceChat.connectedUsers := ["u2"; "u4"];
                 VoiceChat.isMicEnabled := true |}
              [("u2", {| VoiceChat.connection := 10; VoiceChat.audioElement := Some 20 |})]
              [("u4", {| VoiceChat.connection := 12; VoiceChat.audioElement := Some 22 |})]
              "u3" {| VoiceChat.connection := 11; VoiceChat.audioElement := None |})
    as [Hc _].
  - reflexivity.
  - repeat constructor. cbn. eauto.
  - reflexivity.
  - rewrite Hc. reflexivity.
Defined.

Lemma get_delete_eq (k : string) (l : list (string * VoiceChat.PeerConnection)) :
  VoiceChat.get k (VoiceChat.delete k l) = None.
Proof.
  unfold VoiceChat.delete. induction l as [|[k' p] l IH]; [reflexivity|].
  destruct (decide (k' = k)) as [->|Hne].
  - by rewrite filter_cons_False by (cbn; auto).
  - rewrite filter_cons_True by done. cbn. by rewrite decide_False.
Qed.

Lemma get_delete_ne (k k0 : string) (l : list (string * VoiceChat.PeerConnection)) :
  k0 ≠ k → VoiceChat.get k0 (VoiceChat.delete k l) = VoiceChat.get k0 l.
Proof.
  intros Hne. unfold VoiceChat.delete. induction l as [|[k' p] l IH]; [reflexivity|].
  destruct (decide (k' = k)) as [->|Hk].
  - rewrite filter_cons_False by (cbn; auto). cbn. by rewrite decide_False.
  - rewrite filter_cons_True by done. cbn. by rewrite IH.
Qed.

(** X17: When a user leaves, each peer drops exactly that user.  The
    user-left notice a remaining member receives for a disconnected session
    carries that session's authenticated userId; handling it, the voice
    chat closes its connection to that user (and removes the audio element
    if there is one), forgets the peer and takes the user out of the
    connected list, and leaves every other peer as it was.  Without a
    peer for that user nothing changes. *)
Theorem departed_user_is_dropped (w : World) (sid : nat) (s : Socket) (d : nat)
    (uid uname : string) (st : VoiceChat.State) :
  sockets w !! sid = Some s →
  inbox (sent (disconnect sid) w) d = [("user-left", PUserLeft uid uname)] →
  let st' := (VoiceChat.handleUserLeft uid st).1 in
  let es := (VoiceChat.handleUserLeft uid st).2 in
  uid = sock_userId s ∧
  VoiceChat.get (sock_userId s) (VoiceChat.peers st') = None ∧
  (∀ k, k ≠ uid →
        VoiceChat.get k (VoiceChat.peers st') = VoiceChat.get k (VoiceChat.peers st)) ∧
  (is_Some (VoiceChat.get uid (VoiceChat.peers st)) →
   uid ∉ VoiceChat.connectedUsers st') ∧
  es = match VoiceChat.get uid (VoiceChat.peers st) with
       | Some p => VoiceChat.close_peer p
       | None => []
       end ∧
  (VoiceChat.get uid (VoiceChat.peers st) = None → st' = st).
Proof.
  intros Hs Hin st' es.
  assert (uid = sock_userId s) as Huid.
  { rewrite (disconnect_sent w sid s Hs) in Hin.
    destruct (sock_roomCode s) as [rc|]; [destruct (truthy (Some rc))|];
      try discriminate.
    rewrite inbox_fanout_set in Hin. case_decide; [|discriminate]. by injection Hin. }
  subst st' es. unfold VoiceChat.handleUserLeft.
  destruct (VoiceChat.get uid (VoiceChat.peers st)) as [p|] eqn:Hget; cbn [fst snd].
  - split; [done|]. split; [rewrite <- Huid; apply get_delete_eq|].
    split; [intros k Hk; by apply get_delete_ne|].
    split; [|done]. intros _ Hin'. cbn in Hin'.
    apply list_elem_of_filter in Hin' as [Hne _]. done.
  - split; [done|]. split; [by rewrite <- Huid|]. split; [done|].
    split; [by intros [? ?]|]. done.
Qed.

Lemma departed_user_is_dropped_witness :
  let st := {| VoiceChat.localStream := None;
               VoiceChat.peers :=
                 [("u1", {| VoiceChat.connection := 10; VoiceChat.audioElement := Some 20 |});
                  ("u4", {| VoiceChat.connection := 12; VoiceChat.audioElement := None |})];
               VoiceChat.connectedUsers := ["u1"];
               VoiceChat.isMicEnabled := false |} in
  VoiceChat.get "u1" (VoiceChat.peers (VoiceChat.handleUserLeft "u1" st).1) = None ∧
  (VoiceChat.handleUserLeft "u1" st).2 =
    [VoiceChat.ConnectionClose 10; VoiceChat.AudioRemove 20].
Proof.
  cbv zeta.
  destruct (departed_user_is_dropped w_demo 1 (connected alice (Some "ROOM42")) 2
              "u1" "alice"
              {| VoiceChat.localStream := None;
                 VoiceChat.peers :=
                   [("u1", {| VoiceChat.connection := 10; VoiceChat.audioElement := Some 20 |});
                    ("u4", {| VoiceChat.connection := 12; VoiceChat.audioElement := None |})];
                 VoiceChat.connectedUsers := ["u1"];
                 VoiceChat.isMicEnabled := false |})
    as (_ & Hgone & _ & _ & Hes & _).
  - reflexivity.
  - vm_compute. reflexivity.
  - split; [exact Hgone|]. rewrite Hes. reflexivity.
Defined.

(* --------------------------------------------------------------------- *)
(* 21. The summary route                                                 *)
(* --------------------------------------------------------------------- *)

Lemma js_or_truthy (a b : JsVal) : js_truthy b = true → js_truthy (js_or a b) = true.
Proof. intros Hb. unfold js_or. by destruct (js_truthy a) eqn:Ha. Qed.

(** X18: The summary route always answers with a usable error.  Without an
    uploaded file it answers 400 and never calls the summary service.
    Otherwise it answers 200 with the service's data, or 500 when the
    service fails; the error of a 500 is the service's own error when it
    sent one, else the failure's message, else a fixed text, and in every
    case the error field of a reply is truthy (never empty or missing). *)
Theorem summarize_error_is_never_empty (file : option nat)
    (upstream : AiRoutes.Upstream) :
  let r := (AiRoutes.summarize file upstream).1 in
  (file = None → r = AiRoutes.Error 400 (VStr "No file uploaded") ∧
                 (AiRoutes.summarize file upstream).2 = false) ∧
  (AiRoutes.status r = 200 ∨ AiRoutes.status r = 400 ∨ AiRoutes.status r = 500) ∧
  (AiRoutes.status r = 200 ↔ is_Some file ∧ ∃ data, upstream = AiRoutes.Resolved data) ∧
  (∀ code e, r = AiRoutes.Error code e → js_truthy e = true) ∧
  (∀ e m, is_Some file → upstream = AiRoutes.Rejected e m →
     r = AiRoutes.Error 500
           (if js_truthy e then e
            else if js_truthy m then m else VStr "Failed to generate summary")).
Proof.
  cbv zeta. destruct file as [f|]; cbn.
  - destruct upstream as [data|e m]; cbn.
    + split; [done|]. split; [by left|]. split; [split; eauto|].
      split; [done|]. intros e m _ [=].
    + split; [done|]. split; [by right; right|].
      split; [split; [done | by intros [_ [? ?]]]|].
      split.
      * intros code e' [= <- <-]. by apply js_or_truthy, js_or_truthy.
      * intros e' m' _ [= <- <-]. unfold js_or. by destruct (js_truthy e).
  - split; [done|]. split; [by right; left|].
    split; [split; [done | by intros [[? ?] _]]|].
    split; [by intros code e [= <- <-]|]. by intros e m [? ?].
Qed.

(* --------------------------------------------------------------------- *)
(* 22. Clearing the board, end to end                                    *)
(* --------------------------------------------------------------------- *)

(** X19: A clear click wipes every other member's canvas.  Clearing the
    whiteboard hands one drawing-update of sub-kind 'clear' to the socket
    wrapper, which emits it when the socket is connected; when the server
    handles that event for a session in a room, every other member of the
    room receives it once, stamped with the sender's userId, and its
    whiteboard answers with a full clear of the canvas, leaving the remote
    cursors as they are; on the sender's side the canvas is blank and the
    canvas as it was has been appended to the history. *)
Theorem clear_click_wipes_peers (blank : string) (b : Whiteboard.Local)
    (c : SocketClient.t) (id : nat) (cs : SocketClient.ClientSocket)
    (w : World) (sid : nat) (s : Socket) (rc : string) (d : nat)
    (st : Whiteboard.Remote) :
  Whiteboard.in_range b →
  SocketClient.socket c = Some id →
  SocketClient.heap c !! id = Some cs →
  SocketClient.cs_connected cs = true →
  sockets w !! sid = Some s →
  sock_roomCode s = Some rc →
  truthy (Some rc) = true →
  d ≠ sid →
  d ∈ members w rc →
  let clear : JsObj := {[ "type" := VStr "clear" ]} in
  let relayed : JsObj := <["userId" := VStr (sock_userId s)]> clear in
  Whiteboard.canvas (Whiteboard.clearCanvas blank b).1 = blank ∧
  last (Whiteboard.history (Whiteboard.clearCanvas blank b).1) =
    Some (Whiteboard.canvas b) ∧
  SocketClient.cs_outgoing <$>
    SocketClient.heap (SocketClient.calls (Whiteboard.clearCanvas blank b).2 c) !! id =
    Some (SocketClient.cs_outgoing cs ++ [DrawingUpdate clear]) ∧
  inbox (sent (handleConnection sid (DrawingUpdate clear)) w) d =
    [("drawing-update", PDrawing relayed)] ∧
  Whiteboard.handleDrawingUpdate relayed st =
    {| Whiteboard.canvas_calls := Whiteboard.canvas_calls st ++ [Whiteboard.ClearRect];
       Whiteboard.remoteCursors := Whiteboard.remoteCursors st |}.
Proof.
  intros Hr Hsock Hcs Hconn Hs Hrc Ht Hne Hin clear relayed.
  split; [reflexivity|]. split; [|split; [|split]].
  - destruct (saveToHistory_in_range b Hr) as (Hh & _ & _).
    unfold Whiteboard.clearCanvas, Whiteboard.paint. cbn [fst Whiteboard.history].
    rewrite Hh. apply last_snoc.
  - cbn. unfold SocketClient.sendDrawingUpdate, SocketClient.ready, SocketClient.current.
    rewrite Hsock, Hcs, Hconn. unfold SocketClient.emit. rewrite Hsock. cbn.
    by rewrite lookup_alter_eq, Hcs.
  - assert (clear !! "type" = Some (VStr "clear")) as Hty by reflexivity.
    unfold sent, handleConnection. rewrite Hs.
    destruct (on_drawing_update_clear w sid s rc clear Hrc Ht Hty) as [Hsent _].
    unfold sent in Hsent. rewrite Hsent, inbox_app, inbox_relay_peers, inbox_reset_tail.
    rewrite (decide_False (P := d = sid)) by done.
    rewrite decide_True by done.
    destruct (reset_outcome w rc); rewrite ?(decide_False (P := d = sid)) by done;
      reflexivity.
  - reflexivity.
Qed.

Lemma clear_click_wipes_peers_witness :
  inbox (sent (handleConnection 1 (DrawingUpdate {[ "type" := VStr "clear" ]})) w_demo) 2 =
    [("drawing-update", PDrawing {[ "type" := VStr "clear"; "userId" := VStr "u1" ]})] ∧
  Whiteboard.canvas_calls
    (Whiteboard.handleDrawingUpdate {[ "type" := VStr "clear"; "userId" := VStr "u1" ]}
       {| Whiteboard.canvas_calls := []; Whiteboard.remoteCursors := ∅ |}) =
    [Whiteboard.ClearRect].
Proof.
  destruct (clear_click_wipes_peers "blank" (Whiteboard.mounted "blank")
              (SocketClient.transport_up 0
                 (SocketClient.connect "token-alice" SocketClient.initial))
              0 {| SocketClient.cs_auth := "token-alice"; SocketClient.cs_connected := true;
                   SocketClient.cs_closed := false; SocketClient.cs_outgoing := [] |}
              w_demo 1 (connected alice (Some "ROOM42")) "ROOM42" 2
              {| Whiteboard.canvas_calls := []; Whiteboard.remoteCursors := ∅ |})
    as (_ & _ & _ & Hin & Hclear).
  - unfold Whiteboard.in_range. cbn. lia.
  - reflexivity.
  - vm_compute. reflexivity.
  - reflexivity.
  - reflexivity.
  - reflexivity.
  - reflexivity.
  - done.
  - compute_done.
  - cbv zeta in Hin, Hclear. split.
    + rewrite Hin. vm_compute. reflexivity.
    + vm_compute. reflexivity.
Defined.

(* --------------------------------------------------------------------- *)
(* 23. Error reports                                                     *)
(* --------------------------------------------------------------------- *)

(** X20: Errors go to the session that caused them, and only five texts
    exist.  Whatever event a connected session sends and whatever the
    store does, every error event the handler emits is addressed to that
    session itself, and its text is one of "Room not found", "Access
    denied", "Failed to join room", "Failed to update drawing" and "Failed
    to send message"; no other session ever sees an error caused by this
    one. *)
Theorem errors_go_to_their_cause (w : World) (sid : nat) (s : Socket)
    (ev : ClientEvent) (x : Delivery) :
  sockets w !! sid = Some s →
  x ∈ sent (handleConnection sid ev) w →
  dl_event x = "error" →
  dl_dest x = sid ∧
  ∃ msg, dl_payload x = PError msg ∧
         msg ∈ ["Room not found"; "Access denied"; "Failed to join room";
                "Failed to update drawing"; "Failed to send message"].
Proof.
  intros Hs Hx Hev. unfold sent, handleConnection in Hx. rewrite Hs in Hx.
  assert (∀ msg, x ∈ [error_to sid msg] →
            msg ∈ ["Room not found"; "Access denied"; "Failed to join room";
                   "Failed to update drawing"; "Failed to send message"] →
            dl_dest x = sid ∧
            ∃ msg, dl_payload x = PError msg ∧
                   msg ∈ ["Room not found"; "Access denied"; "Failed to join room";
                          "Failed to update drawing"; "Failed to send message"]) as Herr.
  { intros msg Hin Hmsg. apply list_elem_of_singleton in Hin. subst x. eauto. }
  assert (∀ l name p, name ≠ "error" → x ∈ fanout l name p → False) as Hfan.
  { intros l name p Hname Hin. apply fanout_event in Hin as [Hn _]. congruence. }
  assert (∀ name p, name ≠ "error" → x ∈ (relay_to_peers sid s name p w).2 → False)
    as Hrelay.
  { intros name p Hname. unfold relay_to_peers.
    destruct (sock_roomCode s) as [rc|]; [destruct (truthy (Some rc))|]; cbn [snd];
      try (intros H; by apply elem_of_nil in H).
    unfold socket_to_emit. cbn [snd]. by apply Hfan. }
  assert (∀ name data k payload, name ≠ "error" →
            x ∈ (relay_field sid s name data k payload w).2 → False) as Hfield.
  { intros name data k payload Hname. unfold relay_field.
    destruct (sock_roomCode s) as [rc|]; [destruct (truthy (Some rc))|]; cbn [snd];
      try (intros H; by apply elem_of_nil in H).
    destruct data as [o|]; cbn; [by apply Hfan | intros H; by apply elem_of_nil in H]. }
  destruct ev as [roomCode|data|text|v| |v|v|v];
    try (exfalso; revert Hx; by apply Hrelay);
    try (exfalso; revert Hx; by apply Hfield).
  - destruct (next_fault w) eqn:Hf.
    { rewrite on_join_room_throws in Hx by done. apply (Herr _ Hx). set_solver. }
    destruct (db_rooms (db w) !! roomCode) as [room|] eqn:Hroom.
    2:{ rewrite on_join_room_not_found in Hx by done. apply (Herr _ Hx). set_solver. }
    destruct (decide (sock_userId s ∈ room_participants room)) as [Hp|Hp].
    2:{ erewrite on_join_room_denied in Hx by done. apply (Herr _ Hx). set_solver. }
    rewrite (on_join_room_ok sid s roomCode w room Hf Hroom Hp) in Hx.
    exfalso. revert Hx. by apply Hfan.
  - destruct (sock_roomCode s) as [rc|] eqn:Hrc.
    2:{ unfold on_drawing_update in Hx. rewrite Hrc in Hx. by apply elem_of_nil in Hx. }
    destruct (truthy (Some rc)) eqn:Ht.
    2:{ unfold on_drawing_update in Hx. rewrite Hrc, Ht in Hx. by apply elem_of_nil in Hx. }
    destruct (decide (data !! "type" = Some (VStr "clear"))) as [Hty|Hty].
    + destruct (on_drawing_update_clear w sid s rc data Hrc Ht Hty) as [Hsent _].
      unfold sent in Hsent. rewrite Hsent in Hx. apply elem_of_app in Hx as [Hx|Hx].
      * exfalso. revert Hx. by apply Hfan.
      * destruct (reset_outcome w rc); try (by apply elem_of_nil in Hx).
        apply (Herr _ Hx). set_solver.
    + rewrite (on_drawing_update_other w sid s rc data Hrc Ht Hty) in Hx.
      exfalso. revert Hx. by apply Hfan.
  - destruct (sock_roomCode s) as [rc|] eqn:Hrc.
    2:{ unfold on_chat_message in Hx. rewrite Hrc in Hx. by apply elem_of_nil in Hx. }
    destruct (truthy (Some rc)) eqn:Ht.
    2:{ unfold on_chat_message in Hx. rewrite Hrc, Ht in Hx. by apply elem_of_nil in Hx. }
    destruct (on_chat_message_cases w sid s rc text Hs Hrc Ht)
      as [(room & id & _ & _ & _ & _ & Hsent) | (msg & Hsent & Hmsg)];
      unfold sent in Hsent; rewrite Hsent in Hx.
    + exfalso. revert Hx. by apply Hfan.
    + apply (Herr _ Hx). destruct Hmsg as [-> | ->]; set_solver.
Qed.

Lemma errors_go_to_their_cause_witness :
  dl_dest (error_to 3 "Access denied") = 3.
Proof.
  apply (errors_go_to_their_cause w_demo 3 (connected carol None) (JoinRoom "ROOM42")
           (error_to 3 "Access denied")).
  - reflexivity.
  - vm_compute. apply list_elem_of_singleton. reflexivity.
  - reflexivity.
Defined.
